(** * OpsOS: workflow engine, ETA calculator and offline sync engine

    A shallow embedding of
      - [src/lib/workflow-engine.ts]  (module [Engine]),
      - [src/lib/eta.ts]              (module [Eta]),
      - [src/lib/offline/event-queue.ts] and [src/lib/offline/actions.ts]
        (modules [Offline], [OfflineOps] and [LocalWorkflow]),
      - [src/lib/auth.ts] and the rate limiter of the login route
        (modules [Auth] and [Login]),
      - the route [POST /api/tasks]   (module [TasksRoute]),
      - [src/lib/inventory.ts]        (module [Inventory]),
    together with the properties of the specification that concern them.

    Conventions of the embedding.
      - A Prisma or Dexie table is a finite map from the primary key to the
        row ([gmap string Row]); a query result ([findMany], [toArray]) is the
        list of the [(id, row)] pairs of the table that satisfy the filter.
      - A JavaScript [Map] whose iteration order is observed is an
        insertion-ordered association list ([JsMap]).
      - JavaScript numbers are idealised as rationals ([Q]); [Date] values are
        integers counting milliseconds ([Z]); the clock is a parameter [now].
      - Prisma calls are committed one by one (there is no transaction), so an
        operation is a function [ServerDB -> Res A * ServerDB]: the store
        reached so far is kept when an exception is thrown. *)

From Stdlib Require Import QArith Qround ZArith Lia Lqa Ascii DecimalString DecimalNat.
From stdpp Require Import gmap strings list fin_maps sorting.

Close Scope Q_scope.
Open Scope string_scope.
Open Scope list_scope.
Open Scope nat_scope.

(** ** Shared data model *)

(** [status] of a task instance: [pending | queued | in_progress | done |
    cancelled] (the spec calls them blocked, ready, active, done, cancelled). *)
Inductive TaskStatus := Pending | Queued | InProgress | Done | Cancelled.

Definition status_eqb (a b : TaskStatus) : bool :=
  match a, b with
  | Pending, Pending | Queued, Queued | InProgress, InProgress
  | Done, Done | Cancelled, Cancelled => true
  | _, _ => false
  end.

(** [ids.includes(k)] *)
Definition includes (ids : list string) (k : string) : bool :=
  existsb (String.eqb k) ids.

(** Row of [task_instances].  The primary key [id] is the key of the table. *)
Record TaskInstance := mkTask {
  task_tenantId : string;
  task_orderId : string;
  task_orderItemId : string;
  task_taskDefId : string;
  task_phaseDefId : string;
  task_name : string;
  task_stationId : option string;
  task_assignedToId : option string;
  task_status : TaskStatus;
  task_dependsOn : list string;
  task_estimatedMinutes : option Q;   (* DECIMAL(6,1), nullable *)
  task_startedAt : option Z;
  task_completedAt : option Z;
  task_completedById : option string;
}.

Definition task_with_status (s : TaskStatus) (t : TaskInstance) : TaskInstance :=
  mkTask (task_tenantId t) (task_orderId t) (task_orderItemId t)
    (task_taskDefId t) (task_phaseDefId t) (task_name t) (task_stationId t)
    (task_assignedToId t) s (task_dependsOn t) (task_estimatedMinutes t)
    (task_startedAt t) (task_completedAt t) (task_completedById t).


(** [data: { status: 'in_progress', assignedToId: userId, startedAt: now }] *)
Definition task_started (userId : string) (now : Z) (t : TaskInstance) : TaskInstance :=
  mkTask (task_tenantId t) (task_orderId t) (task_orderItemId t)
    (task_taskDefId t) (task_phaseDefId t) (task_name t) (task_stationId t)
    (Some userId) InProgress (task_dependsOn t) (task_estimatedMinutes t)
    (Some now) (task_completedAt t) (task_completedById t).

(** [data: { status: 'done', completedAt: now, completedById: userId,
             startedAt: task.startedAt ?? now }] *)
Definition task_completed (userId : string) (now : Z) (t : TaskInstance) : TaskInstance :=
  mkTask (task_tenantId t) (task_orderId t) (task_orderItemId t)
    (task_taskDefId t) (task_phaseDefId t) (task_name t) (task_stationId t)
    (task_assignedToId t) Done (task_dependsOn t) (task_estimatedMinutes t)
    (Some (default now (task_startedAt t))) (Some now) (Some userId).

Record SubtaskInstance := mkSubtask {
  sub_taskInstanceId : string;
  sub_tenantId : string;
  sub_subtaskDefId : string;
  sub_name : string;
  sub_isCompleted : bool;
  sub_completedAt : option Z;
  sub_completedById : option string;
}.

Definition sub_completed (userId : string) (now : Z) (s : SubtaskInstance) : SubtaskInstance :=
  mkSubtask (sub_taskInstanceId s) (sub_tenantId s) (sub_subtaskDefId s)
    (sub_name s) true (Some now) (Some userId).

(** The workflow definition stored in a template (JSON column). *)
Record SubtaskDef := mkSubtaskDef {
  sdef_id : string; sdef_name : string; sdef_optional : bool }.

Record TaskDef := mkTaskDef {
  tdef_id : string;
  tdef_name : string;
  tdef_station_type : string;
  tdef_estimated_minutes : Q;
  tdef_depends_on : list string;
  tdef_subtasks : list SubtaskDef;
}.

Record PhaseDef := mkPhaseDef {
  pdef_id : string; pdef_name : string; pdef_order : Z; pdef_tasks : list TaskDef }.

Record WorkflowDefinition := mkWorkflow { phases : list PhaseDef }.

Record Station := mkStation {
  station_tenantId : string;
  station_name : string;
  station_capacity : Q;
  station_taskTypes : list string;
  station_isActive : bool;
}.

Inductive OrderStatus :=
  OrderNew | OrderPreparing | OrderReady | OrderDelivering | OrderDelivered
| OrderCancelled.

Record Order := mkOrder {
  order_tenantId : string;
  order_status : OrderStatus;
  order_estimatedReadyAt : option Q;
  order_actualReadyAt : option Z;
}.

Inductive ItemStatus := ItemPending | ItemInProgress | ItemDone | ItemCancelled.

Record OrderItem := mkOrderItem {
  item_orderId : string;
  item_menuItemId : string;
  item_status : ItemStatus;
}.

Record MenuItem := mkMenuItem {
  menu_tenantId : string;
  menu_workflowTemplateId : option string;
}.

(** Row of [task_durations]; rows are only ever appended and aggregated. *)
Record TaskDuration := mkTaskDuration {
  dur_tenantId : string;
  dur_workflowTemplateId : string;
  dur_taskDefId : string;
  dur_stationId : option string;
  dur_durationSeconds : Z;
  dur_recordedAt : Z;
}.

(** Payloads handed to [emitToTenant]. *)
Inductive Emitted :=
| TaskUpdated (tenantId taskId : string) (status : TaskStatus)
| TaskCompleted (tenantId taskId userId : string)
| SubtaskCompleted (tenantId subtaskId taskId : string)
| OrderUpdated (tenantId orderId : string) (status : OrderStatus).

Record ServerDB := mkServerDB {
  taskInstance : gmap string TaskInstance;
  subtaskInstance : gmap string SubtaskInstance;
  taskDuration : list TaskDuration;
  order : gmap string Order;
  orderItem : gmap string OrderItem;
  menuItem : gmap string MenuItem;
  workflowTemplate : gmap string WorkflowDefinition;
  station : gmap string Station;
  emitted : list Emitted;
  nextId : nat;
}.

Definition with_taskInstance (f : gmap string TaskInstance -> gmap string TaskInstance)
    (db : ServerDB) : ServerDB :=
  mkServerDB (f (taskInstance db)) (subtaskInstance db) (taskDuration db) (order db)
    (orderItem db) (menuItem db) (workflowTemplate db) (station db) (emitted db)
    (nextId db).

Definition with_subtaskInstance
    (f : gmap string SubtaskInstance -> gmap string SubtaskInstance)
    (db : ServerDB) : ServerDB :=
  mkServerDB (taskInstance db) (f (subtaskInstance db)) (taskDuration db) (order db)
    (orderItem db) (menuItem db) (workflowTemplate db) (station db) (emitted db)
    (nextId db).

Definition with_taskDuration (f : list TaskDuration -> list TaskDuration)
    (db : ServerDB) : ServerDB :=
  mkServerDB (taskInstance db) (subtaskInstance db) (f (taskDuration db)) (order db)
    (orderItem db) (menuItem db) (workflowTemplate db) (station db) (emitted db)
    (nextId db).

Definition with_order (f : gmap string Order -> gmap string Order)
    (db : ServerDB) : ServerDB :=
  mkServerDB (taskInstance db) (subtaskInstance db) (taskDuration db) (f (order db))
    (orderItem db) (menuItem db) (workflowTemplate db) (station db) (emitted db)
    (nextId db).

Definition with_orderItem (f : gmap string OrderItem -> gmap string OrderItem)
    (db : ServerDB) : ServerDB :=
  mkServerDB (taskInstance db) (subtaskInstance db) (taskDuration db) (order db)
    (f (orderItem db)) (menuItem db) (workflowTemplate db) (station db) (emitted db)
    (nextId db).

Definition with_emitted (f : list Emitted -> list Emitted) (db : ServerDB) : ServerDB :=
  mkServerDB (taskInstance db) (subtaskInstance db) (taskDuration db) (order db)
    (orderItem db) (menuItem db) (workflowTemplate db) (station db) (f (emitted db))
    (nextId db).


(** ** Exceptions and the store-passing monad *)

Inductive Exn :=
| TaskNonTrovato                           (* 'Task non trovato' *)
| TaskNonAvviabile (stato : TaskStatus)    (* `Task non avviabile (stato: ...)` *)
| TaskNonCompletabile (stato : TaskStatus) (* `Task non completabile (stato: ...)` *)
| SubtaskNonTrovato                        (* 'Subtask non trovato' *)
| TemplateNotFound (id : string)           (* `Workflow template ... not found` *)
| RecordNotFound                           (* Prisma: record to update not found *)
| JsTypeError                              (* property read on [undefined] *)
| FuelExhausted.                           (* the bounded loop of the model ran dry *)

Inductive Res (A : Type) := Ok (a : A) | Throw (e : Exn).
Arguments Ok {A} a.
Arguments Throw {A} e.

(** Operations on a store [S]: the store reached is returned also when an
    exception is thrown. *)
Definition ST (S A : Type) : Type := S -> Res A * S.

#[global] Instance ST_ret S : MRet (ST S) := λ A a db, (Ok a, db).
#[global] Instance ST_bind S : MBind (ST S) := λ A B k c db,
  match c db with
  | (Ok a, db') => k a db'
  | (Throw e, db') => (Throw e, db')
  end.

Definition throw {S A} (e : Exn) : ST S A := λ db, (Throw e, db).
Definition gets {S A} (f : S -> A) : ST S A := λ db, (Ok (f db), db).
Definition modify {S} (f : S -> S) : ST S unit := λ db, (Ok tt, f db).

(** Operations on the server database. *)
Abbreviation M := (ST ServerDB).

Definition emitToTenant (e : Emitted) : M unit := modify (with_emitted (λ l, l ++ [e])).

(** [for (const x of l) { acc = await f(acc, x) }] *)
Fixpoint foldM {S A B} (f : B -> A -> ST S B) (b : B) (l : list A) : ST S B :=
  match l with
  | [] => mret b
  | x :: r => b' ← f b x; foldM f b' r
  end.

(** ** [src/lib/workflow-engine.ts] *)
Module Engine.

(** [where: { tenantId, orderId, status: 'pending' }] *)
Definition isPendingOf (tenantId orderId : string) (kv : string * TaskInstance) : bool :=
  String.eqb (task_tenantId kv.2) tenantId
  && String.eqb (task_orderId kv.2) orderId
  && status_eqb (task_status kv.2) Pending.

(** [prisma.taskInstance.count({ where: { id: { in: deps }, status: 'done' } })] *)
Definition countDone (deps : list string) (tbl : gmap string TaskInstance) : nat :=
  length (List.filter
            (λ kv : string * TaskInstance,
               includes deps kv.1 && status_eqb (task_status kv.2) Done)
            (map_to_list tbl)).

(** Body of the loop of [activateReadyTasks] for one pending task. *)
Definition activateStep (acc : gmap string TaskInstance * nat)
    (kv : string * TaskInstance) : gmap string TaskInstance * nat :=
  let deps := task_dependsOn kv.2 in
  if Nat.eqb (length deps) 0 then
    (alter (task_with_status Queued) kv.1 acc.1, S acc.2)
  else if Nat.eqb (countDone deps acc.1) (length deps) then
    (alter (task_with_status Queued) kv.1 acc.1, S acc.2)
  else acc.

Definition activateReadyTasks (tenantId orderId : string) : M nat := λ db,
  let pendingTasks :=
    List.filter (isPendingOf tenantId orderId) (map_to_list (taskInstance db)) in
  let r := fold_left activateStep pendingTasks (taskInstance db, 0) in
  (Ok r.2, with_taskInstance (λ _, r.1) db).

(** [prisma.taskInstance.findFirst({ where: { id: taskId, tenantId } })] *)
Definition findFirstTask (taskId tenantId : string) (db : ServerDB) : option TaskInstance :=
  match taskInstance db !! taskId with
  | Some t => if String.eqb (task_tenantId t) tenantId then Some t else None
  | None => None
  end.

Definition startTask (now : Z) (taskId userId tenantId : string) : M unit :=
  otask ← gets (findFirstTask taskId tenantId);
  match otask with
  | None => throw TaskNonTrovato
  | Some task =>
      if negb (status_eqb (task_status task) Queued)
      then throw (TaskNonAvviabile (task_status task))
      else
        modify (with_taskInstance (alter (task_started userId now) taskId));;
        emitToTenant (TaskUpdated tenantId taskId InProgress)
  end.

Record CompletionResult := mkCompletion { orderComplete : bool; orderReady : bool }.

Definition isDoneOrCancelled (s : TaskStatus) : bool :=
  status_eqb s Done || status_eqb s Cancelled.

Definition checkOrderCompletion (now : Z) (tenantId orderId : string)
    : M CompletionResult :=
  allTasks ← gets (λ db,
    List.filter (λ kv : string * TaskInstance,
                   String.eqb (task_tenantId kv.2) tenantId
                   && String.eqb (task_orderId kv.2) orderId)
                (map_to_list (taskInstance db)));
  let allDone := forallb (λ kv : string * TaskInstance,
                            isDoneOrCancelled (task_status kv.2)) allTasks in
  o ← gets (λ db, order db !! orderId);
  if allDone then
    match o with
    | None => throw RecordNotFound
    | Some _ =>
        modify (with_order (alter (λ r, mkOrder (order_tenantId r) OrderReady
                                           (order_estimatedReadyAt r) (Some now))
                                  orderId));;
        modify (with_orderItem (fmap (λ it,
          if String.eqb (item_orderId it) orderId
          then match item_status it with
               | ItemCancelled => it
               | _ => mkOrderItem (item_orderId it) (item_menuItemId it) ItemDone
               end
          else it)));;
        emitToTenant (OrderUpdated tenantId orderId OrderReady);;
        mret (mkCompletion true true)
    end
  else
    let inProgress := existsb (λ kv : string * TaskInstance,
                                 status_eqb (task_status kv.2) InProgress) allTasks in
    (if inProgress then
       match o with
       | None => throw RecordNotFound
       | Some _ =>
           modify (with_order (alter (λ r, mkOrder (order_tenantId r) OrderPreparing
                                              (order_estimatedReadyAt r)
                                              (order_actualReadyAt r))
                                     orderId))
       end
     else mret tt);;
    mret (mkCompletion false false).

(** [Math.round((now - startedAt) / 1000)] on integer milliseconds. *)
Definition durationSeconds (now startedAt : Z) : Z := ((now - startedAt) * 2 + 1000) / 2000.

Definition completeTask (now : Z) (taskId userId tenantId : string)
    : M CompletionResult :=
  otask ← gets (findFirstTask taskId tenantId);
  match otask with
  | None => throw TaskNonTrovato
  | Some task =>
      if negb (status_eqb (task_status task) Queued
               || status_eqb (task_status task) InProgress)
      then throw (TaskNonCompletabile (task_status task))
      else
        (* include: { subtasks: true } *)
        subtasks ← gets (λ db,
          List.filter (λ kv : string * SubtaskInstance,
                         String.eqb (sub_taskInstanceId kv.2) taskId)
                      (map_to_list (subtaskInstance db)));
        let incompleteRequired :=
          List.filter (λ kv : string * SubtaskInstance, negb (sub_isCompleted kv.2))
                      subtasks in
        (if Nat.ltb 0 (length incompleteRequired) then
           modify (with_subtaskInstance (fmap (λ s,
             if String.eqb (sub_taskInstanceId s) taskId && negb (sub_isCompleted s)
             then sub_completed userId now s else s)))
         else mret tt);;
        (* Record duration for historical tracking *)
        match task_startedAt task with
        | Some startedAt =>
            oitem ← gets (λ db, orderItem db !! task_orderItemId task);
            omenu ← gets (λ db, it ← oitem; menuItem db !! item_menuItemId it);
            match omenu ≫= menu_workflowTemplateId with
            | Some wf =>
                modify (with_taskDuration (λ l, l ++
                  [mkTaskDuration tenantId wf (task_taskDefId task)
                     (task_stationId task) (durationSeconds now startedAt) now]))
            | None => mret tt
            end
        | None => mret tt
        end;;
        modify (with_taskInstance (alter (task_completed userId now) taskId));;
        _ ← activateReadyTasks tenantId (task_orderId task);
        emitToTenant (TaskCompleted tenantId taskId userId);;
        checkOrderCompletion now tenantId (task_orderId task)
  end.

Definition completeSubtask (now : Z) (taskId subtaskId userId tenantId : string)
    : M unit :=
  osub ← gets (λ db,
    match subtaskInstance db !! subtaskId with
    | Some s => if String.eqb (sub_taskInstanceId s) taskId
                   && String.eqb (sub_tenantId s) tenantId
                then Some s else None
    | None => None
    end);
  match osub with
  | None => throw SubtaskNonTrovato
  | Some subtask =>
      if sub_isCompleted subtask then mret tt (* Idempotent *)
      else
        modify (with_subtaskInstance (alter (sub_completed userId now) subtaskId));;
        emitToTenant (SubtaskCompleted tenantId subtaskId taskId)
  end.











End Engine.

(** ** JavaScript [Map]: insertion-ordered association list *)

Abbreviation JsMap V := (list (string * V)).

Fixpoint jm_get {V} (m : JsMap V) (k : string) : option V :=
  match m with
  | [] => None
  | (k', v) :: r => if String.eqb k k' then Some v else jm_get r k
  end.

(** [m.set(k, v)]: an existing key keeps its position, a new key goes last. *)
Fixpoint jm_set {V} (m : JsMap V) (k : string) (v : V) : JsMap V :=
  match m with
  | [] => [(k, v)]
  | (k', v') :: r => if String.eqb k k' then (k, v) :: r else (k', v') :: jm_set r k v
  end.

Definition jm_has {V} (m : JsMap V) (k : string) : bool :=
  match jm_get m k with Some _ => true | None => false end.

Definition jm_keys {V} (m : JsMap V) : list string := map fst m.

(** ** Numbers *)

Definition Qltb (a b : Q) : bool := negb (Qle_bool b a).

(** [Math.max(a, b)] *)
Definition qmax (a b : Q) : Q := if Qle_bool a b then b else a.

(** [Math.round(x)]: nearest integer, halves upwards. *)
Definition js_round (x : Q) : Z := Qfloor (Qplus x (1 # 2)).

Definition ofNat (n : nat) : Q := inject_Z (Z.of_nat n).

(** ** [src/lib/eta.ts] *)
Module Eta.

Record ETABreakdown := mkBreakdown {
  taskId : string;
  taskName : string;
  stationId : option string;
  stationName : option string;
  estimatedMinutes : Q;
  queueWaitMinutes : Q;
  totalMinutes : Q;
  isCriticalPath : bool;
}.

Definition flagCritical (b : ETABreakdown) : ETABreakdown :=
  mkBreakdown (taskId b) (taskName b) (stationId b) (stationName b)
    (estimatedMinutes b) (queueWaitMinutes b) (totalMinutes b) true.

Inductive Confidence := low | medium | high.

Record OrderETA := mkOrderETA {
  eta_orderId : string;
  eta_estimatedReadyAt : Q;
  eta_totalMinutes : Z;
  eta_breakdown : list ETABreakdown;
  eta_confidence : Confidence;
}.

Record StationQueue := mkStationQueue {
  sq_stationName : string;
  sq_capacity : Q;
  sq_queuedTasks : Q;      (* Tasks ahead (queued + in_progress) *)
  sq_avgTaskMinutes : Q;
}.

(** [Number(t.estimatedMinutes) || 5] *)
Definition numberOr5 (e : option Q) : Q :=
  match e with
  | Some q => if Qeq_bool q 0 then 5%Q else q
  | None => 5%Q
  end.

Definition sumQ (l : list Q) : Q := fold_left Qplus l 0%Q.

Definition getStationQueues (tenantId : string) (db : ServerDB) : JsMap StationQueue :=
  let stations := List.filter (λ kv : string * Station,
      String.eqb (station_tenantId kv.2) tenantId && station_isActive kv.2)
      (map_to_list (station db)) in
  fold_left (λ queues (kv : string * Station),
    let taskInstances := List.filter (λ t : string * TaskInstance,
        match task_stationId t.2 with
        | Some sid => String.eqb sid kv.1
        | None => false
        end
        && (status_eqb (task_status t.2) Queued
            || status_eqb (task_status t.2) InProgress))
        (map_to_list (taskInstance db)) in
    let totalEstimated :=
      sumQ (map (λ t : string * TaskInstance, numberOr5 (task_estimatedMinutes t.2))
                taskInstances) in
    let avgTask :=
      if Nat.ltb 0 (length taskInstances)
      then Qdiv totalEstimated (ofNat (length taskInstances))
      else 5%Q in
    jm_set queues kv.1
      (mkStationQueue (station_name kv.2) (station_capacity kv.2)
         (ofNat (length taskInstances)) avgTask))
    stations [].

(** [Number(task.estimatedMinutes || 5)]: the column is a [Decimal] object,
    truthy whenever it is not [null]. *)
Definition estimatedOf (task : TaskInstance) : Q :=
  default 5%Q (task_estimatedMinutes task).

(** [(Date.now() - task.startedAt.getTime()) / 60000], or [0] without a start. *)
Definition elapsedOf (now : Z) (task : TaskInstance) : Q :=
  match task_startedAt task with
  | Some s => Qdiv (inject_Z (now - s)) 60000
  | None => 0%Q
  end.

(** Queue wait time at the station of the task. *)
Definition queueWaitOf (stationQueues : JsMap StationQueue) (task : TaskInstance) : Q :=
  match task_stationId task with
  | Some sid =>
      match jm_get stationQueues sid with
      | Some sq => Qdiv (Qmult (sq_queuedTasks sq) (sq_avgTaskMinutes sq)) (sq_capacity sq)
      | None => 0%Q
      end
  | None => 0%Q
  end.

(** [deps.length > 0 ? Math.max(...deps.map(d => taskETAMinutes.get(d) ?? 0)) : 0] *)
Definition maxDepETAOf (taskETAMinutes : JsMap Q) (deps : list string) : Q :=
  match map (λ d, default 0%Q (jm_get taskETAMinutes d)) deps with
  | [] => 0%Q
  | x :: r => fold_left qmax r x
  end.

(** The three branches of the loop body: the breakdown entry of a task, whose
    [totalMinutes] is the value stored in [taskETAMinutes]. *)
Definition breakdownOf (now : Z) (stationQueues : JsMap StationQueue)
    (stationNameOf : option string -> option string)
    (taskETAMinutes : JsMap Q) (id : string) (task : TaskInstance) : ETABreakdown :=
  let sname := stationNameOf (task_stationId task) in
  match task_status task with
  | Done | Cancelled =>
      mkBreakdown id (task_name task) (task_stationId task) sname 0 0 0 false
  | InProgress =>
      let remaining := qmax 0 (Qminus (estimatedOf task) (elapsedOf now task)) in
      mkBreakdown id (task_name task) (task_stationId task) sname remaining 0 remaining
        false
  | Pending | Queued =>
      let maxDepETA := maxDepETAOf taskETAMinutes (task_dependsOn task) in
      let estimated := estimatedOf task in
      let queueWait := queueWaitOf stationQueues task in
      let total := Qplus (Qplus maxDepETA queueWait) estimated in
      mkBreakdown id (task_name task) (task_stationId task) sname estimated queueWait
        total false
  end.

(** Initialisation of [inDegree] and [adjacency] for one task. *)
Definition addEdge (taskId : string) (adjacency : JsMap (list string)) (dep : string)
    : JsMap (list string) :=
  let a := if jm_has adjacency dep then adjacency else jm_set adjacency dep [] in
  jm_set a dep (default [] (jm_get a dep) ++ [taskId]).

Definition initStep (acc : JsMap Z * JsMap (list string)) (kv : string * TaskInstance)
    : JsMap Z * JsMap (list string) :=
  let deps := task_dependsOn kv.2 in
  let inDegree := jm_set acc.1 kv.1 (Z.of_nat (length deps)) in
  let adjacency := if jm_has acc.2 kv.1 then acc.2 else jm_set acc.2 kv.1 [] in
  (inDegree, fold_left (addEdge kv.1) deps adjacency).

(** [new Map(tasks.map((t) => [t.id, t]))] *)
Definition mkTaskMap (tasks : list (string * TaskInstance)) : JsMap TaskInstance :=
  fold_left (λ m (kv : string * TaskInstance), jm_set m kv.1 kv.2) tasks [].

Record KahnState := mkKahn {
  inDegree : JsMap Z;
  queue : list string;
  taskETAMinutes : JsMap Q;
  taskBreakdown : JsMap ETABreakdown;
}.

(** Process dependents: one entry of [adjacency.get(taskId)]. *)
Definition relax (acc : JsMap Z * list string) (depId : string) : JsMap Z * list string :=
  let newDegree := (default 0 (jm_get acc.1 depId) - 1)%Z in
  (jm_set acc.1 depId newDegree,
   if Z.eqb newDegree 0 then acc.2 ++ [depId] else acc.2).

Inductive Outcome := Finished (st : KahnState) | TypeError | OutOfFuel.

Section Loop.
Variable now : Z.
Variable stationQueues : JsMap StationQueue.
Variable stationNameOf : option string -> option string.
Variable taskMap : JsMap TaskInstance.
Variable adjacency : JsMap (list string).

(** One iteration of [while (queue.length > 0)] on a non-empty queue. *)
Definition kahnStep (taskId : string) (rest : list string) (st : KahnState)
    : option KahnState :=
  match jm_get taskMap taskId with
  | None => None
  | Some task =>
      let b := breakdownOf now stationQueues stationNameOf (taskETAMinutes st) taskId task in
      let r := fold_left relax (default [] (jm_get adjacency taskId)) (inDegree st, rest) in
      Some (mkKahn r.1 r.2
              (jm_set (taskETAMinutes st) taskId (totalMinutes b))
              (jm_set (taskBreakdown st) taskId b))
  end.

Fixpoint kahnLoop (fuel : nat) (st : KahnState) : Outcome :=
  match queue st with
  | [] => Finished st
  | taskId :: rest =>
      match fuel with
      | O => OutOfFuel
      | S fuel' =>
          match kahnStep taskId rest st with
          | None => TypeError
          | Some st' => kahnLoop fuel' st'
          end
      end
  end.
End Loop.

(** Everything of [calculateOrderETA] between the two database accesses: the
    traversal over the tasks of the order. *)
Definition traverse (now : Z) (stationQueues : JsMap StationQueue)
    (stationNameOf : option string -> option string)
    (tasks : list (string * TaskInstance)) : Outcome :=
  let init := fold_left initStep tasks ([], []) in
  let queue0 := map fst (List.filter (λ kv : string * Z, Z.eqb kv.2 0) init.1) in
  kahnLoop now stationQueues stationNameOf (mkTaskMap tasks) init.2
    (length tasks) (mkKahn init.1 queue0 [] []).

(** Order ETA is the maximum of all task ETAs (critical path). *)
Definition pickCritical (acc : Q * string) (kv : string * Q) : Q * string :=
  if Qltb acc.1 kv.2 then (kv.2, kv.1) else acc.

Definition criticalOf (taskETAMinutes : JsMap Q) : Q * string :=
  fold_left pickCritical taskETAMinutes (0%Q, "").

(** Mark critical path. *)
Definition markCritical (criticalTaskId : string) (taskBreakdown : JsMap ETABreakdown)
    : JsMap ETABreakdown :=
  if negb (String.eqb criticalTaskId "") then
    match jm_get taskBreakdown criticalTaskId with
    | Some b => jm_set taskBreakdown criticalTaskId (flagCritical b)
    | None => taskBreakdown
    end
  else taskBreakdown.

(** Determine confidence. *)
Definition hasHistorical (tasks : list (string * TaskInstance)) : bool :=
  existsb (λ kv : string * TaskInstance,
             match task_estimatedMinutes kv.2 with
             | Some q => Qltb 0 q
             | None => false
             end) tasks.

Definition confidenceOf (tasks : list (string * TaskInstance)) : Confidence :=
  if Nat.ltb (length tasks) 3 then low
  else if hasHistorical tasks then high else medium.

Definition calculateOrderETA (now : Z) (tenantId orderId : string) : M OrderETA :=
  tasks ← gets (λ db,
    List.filter (λ kv : string * TaskInstance,
                   String.eqb (task_tenantId kv.2) tenantId
                   && String.eqb (task_orderId kv.2) orderId)
                (map_to_list (taskInstance db)));
  if Nat.eqb (length tasks) 0 then
    mret (mkOrderETA orderId (inject_Z now) 0 [] low)
  else
    stationQueues ← gets (getStationQueues tenantId);
    stationNameOf ← gets (λ db (sid : option string),
      s ← sid; st ← station db !! s; Some (station_name st));
    match traverse now stationQueues stationNameOf tasks with
    | TypeError => throw JsTypeError
    | OutOfFuel => throw FuelExhausted
    | Finished st =>
        let c := criticalOf (taskETAMinutes st) in
        let maxMinutes := c.1 in
        let breakdown := markCritical c.2 (taskBreakdown st) in
        let estimatedReadyAt := Qplus (inject_Z now) (Qmult maxMinutes 60000) in
        o ← gets (λ db, order db !! orderId);
        match o with
        | None => throw RecordNotFound
        | Some _ =>
            modify (with_order (alter (λ r, mkOrder (order_tenantId r) (order_status r)
                                               (Some estimatedReadyAt)
                                               (order_actualReadyAt r)) orderId));;
            mret (mkOrderETA orderId estimatedReadyAt (js_round maxMinutes)
                    (map snd breakdown) (confidenceOf tasks))
        end
    end.

(** [String.prototype.toLowerCase] on ASCII letters and [String.prototype.includes]. *)
Definition lower_ascii (c : ascii) : ascii :=
  let n := nat_of_ascii c in
  if Nat.leb 65 n && Nat.leb n 90 then ascii_of_nat (n + 32) else c.

Fixpoint toLowerCase (s : string) : string :=
  match s with
  | EmptyString => EmptyString
  | String c r => String (lower_ascii c) (toLowerCase r)
  end.

Fixpoint str_includes (s sub : string) : bool :=
  String.prefix sub s
  || match s with
     | EmptyString => false
     | String _ r => str_includes r sub
     end.

Record Suggestion := mkSuggestion {
  sug_estimatedMinutes : Z;
  sug_suggestedReadyAt : Z;
  sug_stationLoads : list (string * Q);
}.

(** [waitTime + task.estimated_minutes] for one task definition. *)
Definition taskTotalOf (stationQueues : JsMap StationQueue) (task : TaskDef) : Q :=
  let found := List.find (λ kv : string * StationQueue,
      str_includes (toLowerCase (sq_stationName kv.2)) (tdef_station_type task))
      stationQueues in
  let waitTime :=
    match found with
    | Some (stationId, _) =>
        if String.eqb stationId "" then 0%Q   (* [if (stationId)] *)
        else
          match jm_get stationQueues stationId with
          | Some sq =>
              Qdiv (Qmult (sq_queuedTasks sq) (sq_avgTaskMinutes sq)) (sq_capacity sq)
          | None => 0%Q
          end
    | None => 0%Q
    end in
  Qplus waitTime (tdef_estimated_minutes task).

Definition phaseMaxOf (stationQueues : JsMap StationQueue) (phase : PhaseDef) : Q :=
  fold_left (λ phaseMax task, qmax phaseMax (taskTotalOf stationQueues task))
            (pdef_tasks phase) 0%Q.

Definition itemMinutesOf (stationQueues : JsMap StationQueue) (def : WorkflowDefinition)
    : Q :=
  fold_left Qplus (map (phaseMaxOf stationQueues) (phases def)) 0%Q.

Definition suggestOrderTime (now : Z) (tenantId : string) (menuItemIds : list string)
    (db : ServerDB) : Suggestion :=
  let stationQueues := getStationQueues tenantId db in
  let menuItems := List.filter (λ kv : string * MenuItem,
      includes menuItemIds kv.1 && String.eqb (menu_tenantId kv.2) tenantId)
      (map_to_list (menuItem db)) in
  let maxMinutes :=
    fold_left (λ maxMinutes (kv : string * MenuItem),
      match menu_workflowTemplateId kv.2 ≫= (λ w, workflowTemplate db !! w) with
      | None => maxMinutes
      | Some def => qmax maxMinutes (itemMinutesOf stationQueues def)
      end) menuItems 0%Q in
  (* Add 2 min buffer for packaging/handoff *)
  let maxMinutes := (Qceiling maxMinutes + 2)%Z in
  mkSuggestion maxMinutes (now + maxMinutes * 60000)
    (map (λ kv : string * StationQueue,
            (sq_stationName kv.2,
             let load := inject_Z (js_round
                           (Qmult (Qdiv (sq_queuedTasks kv.2) (sq_capacity kv.2)) 100)) in
             if Qle_bool 100 load then 100%Q else load))
         stationQueues).

End Eta.

(** ** [src/lib/offline]: local database, event queue, actions, sync engine *)
Module Offline.

(** [_syncStatus] tag of a local record. *)
Inductive SyncStatus := local | synced | modified.

Definition sync_eqb (a b : SyncStatus) : bool :=
  match a, b with
  | local, local | synced, synced | modified, modified => true
  | _, _ => false
  end.

Record LocalOrder := mkLocalOrder {
  lo_tenantId : string;
  lo_orderNumber : option Z;
  lo_channel : string;
  lo_status : OrderStatus;
  lo_customerName : option string;
  lo_customerAddress : option string;
  lo_priority : Z;
  lo_estimatedReadyAt : option Q;
  lo_actualReadyAt : option Z;
  lo_serverId : option string;          (* _serverId *)
  lo_serverOrderNumber : option Z;      (* _serverOrderNumber *)
  lo_syncStatus : SyncStatus;           (* _syncStatus *)
}.

Record LocalTask := mkLocalTask {
  lt_tenantId : string;
  lt_orderId : string;
  lt_orderItemId : string;
  lt_taskDefId : string;
  lt_name : string;
  lt_stationId : option string;
  lt_assignedToId : option string;
  lt_status : TaskStatus;
  lt_dependsOn : list string;
  lt_estimatedMinutes : option Q;
  lt_startedAt : option Z;
  lt_completedAt : option Z;
  lt_completedById : option string;
  lt_syncStatus : SyncStatus;
}.

Record LocalSubtask := mkLocalSubtask {
  ls_taskInstanceId : string;
  ls_tenantId : string;
  ls_isCompleted : bool;
  ls_completedAt : option Z;
  ls_completedById : option string;
  ls_syncStatus : SyncStatus;
}.

Inductive DeliveryStatus :=
  DelPending | DelAssigned | DelPickedUp | DelDelivered | DelFailed.

Record LocalDelivery := mkLocalDelivery {
  ld_tenantId : string;
  ld_orderId : string;
  ld_riderId : option string;
  ld_status : DeliveryStatus;
  ld_syncStatus : SyncStatus;
}.

(** [EVENT_TYPES] *)
Inductive EventType :=
| ORDER_CREATE | ORDER_UPDATE | ORDER_CANCEL
| TASK_START | TASK_COMPLETE | SUBTASK_COMPLETE
| DELIVERY_ASSIGN | DELIVERY_PICKUP | DELIVERY_DELIVER
| INVENTORY_ADJUST.

Inductive EventStatus := EvPending | EvSyncing | EvSynced | EvFailed | EvConflict.

Definition evstatus_eqb (a b : EventStatus) : bool :=
  match a, b with
  | EvPending, EvPending | EvSyncing, EvSyncing | EvSynced, EvSynced
  | EvFailed, EvFailed | EvConflict, EvConflict => true
  | _, _ => false
  end.

Inductive EntityType := EntOrder | EntTask | EntSubtask | EntDelivery | EntInventory.

Record SyncEvent := mkSyncEvent {
  ev_tenantId : string;
  ev_userId : string;
  ev_timestamp : Z;
  ev_type : EventType;
  ev_entityType : EntityType;
  ev_entityId : string;
  ev_payload : list (string * string);
  ev_status : EventStatus;
  ev_retryCount : nat;
  ev_lastError : option string;
  ev_syncedAt : option Z;
  ev_sequence : Z;
}.

Definition ev_with (st : EventStatus) (retry : nat) (err : option string)
    (syncedAt : option Z) (e : SyncEvent) : SyncEvent :=
  mkSyncEvent (ev_tenantId e) (ev_userId e) (ev_timestamp e) (ev_type e)
    (ev_entityType e) (ev_entityId e) (ev_payload e) st retry err syncedAt
    (ev_sequence e).

Record LocalOrderItem := mkLocalOrderItem {
  loi_orderId : string;
  loi_menuItemId : string;
  loi_quantity : Z;
  loi_status : ItemStatus;
  loi_syncStatus : SyncStatus;
}.

Record LocalDB := mkLocalDB {
  orders : gmap string LocalOrder;
  orderItems : gmap string LocalOrderItem;
  tasks : gmap string LocalTask;
  subtasks : gmap string LocalSubtask;
  deliveries : gmap string LocalDelivery;
  syncEvents : gmap string SyncEvent;
  sequenceCounter : Z;     (* module variable of event-queue.ts *)
  localIds : nat;          (* source of [generateLocalId] *)
}.

Definition with_orders (f : gmap string LocalOrder -> gmap string LocalOrder) (db : LocalDB) : LocalDB :=
  mkLocalDB (f (orders db)) (orderItems db) (tasks db) (subtasks db) (deliveries db)
    (syncEvents db) (sequenceCounter db) (localIds db).

Definition with_orderItems (f : gmap string LocalOrderItem -> gmap string LocalOrderItem) (db : LocalDB) : LocalDB :=
  mkLocalDB (orders db) (f (orderItems db)) (tasks db) (subtasks db) (deliveries db)
    (syncEvents db) (sequenceCounter db) (localIds db).

Definition with_tasks (f : gmap string LocalTask -> gmap string LocalTask) (db : LocalDB) : LocalDB :=
  mkLocalDB (orders db) (orderItems db) (f (tasks db)) (subtasks db) (deliveries db)
    (syncEvents db) (sequenceCounter db) (localIds db).

Definition with_subtasks (f : gmap string LocalSubtask -> gmap string LocalSubtask) (db : LocalDB) : LocalDB :=
  mkLocalDB (orders db) (orderItems db) (tasks db) (f (subtasks db)) (deliveries db)
    (syncEvents db) (sequenceCounter db) (localIds db).

Definition with_deliveries (f : gmap string LocalDelivery -> gmap string LocalDelivery) (db : LocalDB) : LocalDB :=
  mkLocalDB (orders db) (orderItems db) (tasks db) (subtasks db) (f (deliveries db))
    (syncEvents db) (sequenceCounter db) (localIds db).

Definition with_syncEvents (f : gmap string SyncEvent -> gmap string SyncEvent) (db : LocalDB) : LocalDB :=
  mkLocalDB (orders db) (orderItems db) (tasks db) (subtasks db) (deliveries db) (f
    (syncEvents db)) (sequenceCounter db) (localIds db).

Definition with_sequenceCounter (f : Z -> Z) (db : LocalDB) : LocalDB :=
  mkLocalDB (orders db) (orderItems db) (tasks db) (subtasks db) (deliveries db)
    (syncEvents db) (f (sequenceCounter db)) (localIds db).

Definition with_localIds (f : nat -> nat) (db : LocalDB) : LocalDB :=
  mkLocalDB (orders db) (orderItems db) (tasks db) (subtasks db) (deliveries db)
    (syncEvents db) (sequenceCounter db) (f (localIds db)).

Abbreviation L := (ST LocalDB).

(** *** event-queue.ts *)

Definition generateLocalId : L string := λ db,
  (Ok ("local-" +:+ NilZero.string_of_uint (Nat.to_uint (localIds db))),
   with_localIds S db).

Definition getNextSequence : L Z := λ db,
  (Ok (sequenceCounter db + 1)%Z, with_sequenceCounter (λ n, (n + 1)%Z) db).

Definition enqueueEvent (now : Z) (tenantId userId : string) (type : EventType)
    (entityType : EntityType) (entityId : string) (payload : list (string * string))
    : L SyncEvent :=
  id ← generateLocalId;
  seq ← getNextSequence;
  let event := mkSyncEvent tenantId userId now type entityType entityId payload
                 EvPending 0 None None seq in
  modify (with_syncEvents (insert id event));;
  mret event.

(** [sortBy('sequence')]: stable insertion sort on the sequence number. *)
Fixpoint insertBySequence (e : string * SyncEvent) (l : list (string * SyncEvent))
    : list (string * SyncEvent) :=
  match l with
  | [] => [e]
  | x :: r => if Z.ltb (ev_sequence e.2) (ev_sequence x.2) then e :: x :: r
              else x :: insertBySequence e r
  end.

Definition sortBySequence (l : list (string * SyncEvent)) : list (string * SyncEvent) :=
  foldr insertBySequence [] l.

Definition eventsWithStatus (st : EventStatus) (db : LocalDB)
    : list (string * SyncEvent) :=
  sortBySequence
    (List.filter (λ kv : string * SyncEvent, evstatus_eqb (ev_status kv.2) st)
                 (map_to_list (syncEvents db))).

Definition getPendingEvents : LocalDB -> list (string * SyncEvent) :=
  eventsWithStatus EvPending.
Definition getFailedEvents : LocalDB -> list (string * SyncEvent) :=
  eventsWithStatus EvFailed.

Definition markEventSyncing (eventId : string) : L unit :=
  modify (with_syncEvents (alter (λ e,
    ev_with EvSyncing (ev_retryCount e) (ev_lastError e) (ev_syncedAt e) e) eventId)).

Definition markEventSynced (now : Z) (eventId : string) : L unit :=
  modify (with_syncEvents (alter (λ e,
    ev_with EvSynced (ev_retryCount e) (ev_lastError e) (Some now) e) eventId)).

Definition markEventFailed (eventId : string) (error : string) : L unit :=
  event ← gets (λ db, syncEvents db !! eventId);
  match event with
  | None => mret tt
  | Some event =>
      modify (with_syncEvents (alter (λ e,
        ev_with (if Nat.leb 5 (ev_retryCount event) then EvConflict else EvFailed)
                (ev_retryCount event + 1) (Some error) (ev_syncedAt e) e) eventId))
  end.

(** *** actions.ts: optimistic local mutations *)

Definition lt_with (assigned : option string) (st : TaskStatus) (started completed : option Z)
    (completedBy : option string) (sync : SyncStatus) (t : LocalTask) : LocalTask :=
  mkLocalTask (lt_tenantId t) (lt_orderId t) (lt_orderItemId t) (lt_taskDefId t)
    (lt_name t) (lt_stationId t) assigned st (lt_dependsOn t) (lt_estimatedMinutes t)
    started completed completedBy sync.

Definition startTaskOffline (now : Z) (tenantId userId taskId : string) : L unit :=
  modify (with_tasks (alter (λ t,
    lt_with (Some userId) InProgress (Some now) (lt_completedAt t) (lt_completedById t)
            modified t) taskId));;
  _ ← enqueueEvent now tenantId userId TASK_START EntTask taskId [];
  mret tt.

Definition ordersTasks (tenantId orderId : string) (db : LocalDB)
    : list (string * LocalTask) :=
  List.filter (λ kv : string * LocalTask,
                 String.eqb (lt_orderId kv.2) orderId
                 && String.eqb (lt_tenantId kv.2) tenantId)
              (map_to_list (tasks db)).

(** Body of the loop that activates the dependents of [taskId]. *)
Definition activateDependent (taskId : string) (allOrderTasks : list (string * LocalTask))
    (depTask : string * LocalTask) : L unit :=
  if negb (status_eqb (lt_status depTask.2) Pending) then mret tt
  else if negb (includes (lt_dependsOn depTask.2) taskId) then mret tt
  else
    let allDepsDone := forallb (λ depId,
        match List.find (λ t : string * LocalTask, String.eqb t.1 depId) allOrderTasks with
        | Some dep => status_eqb (lt_status dep.2) Done
        | None => false
        end) (lt_dependsOn depTask.2) in
    if allDepsDone then
      modify (with_tasks (alter (λ t,
        lt_with (lt_assignedToId t) Queued (lt_startedAt t) (lt_completedAt t)
                (lt_completedById t) modified t) depTask.1))
    else mret tt.

Definition completeTaskOffline (now : Z) (tenantId userId taskId : string) : L bool :=
  otask ← gets (λ db, tasks db !! taskId);
  match otask with
  | None => throw TaskNonTrovato
  | Some task =>
      modify (with_tasks (alter (λ t,
        lt_with (lt_assignedToId t) Done (Some (default now (lt_startedAt task)))
                (Some now) (Some userId) modified t) taskId));;
      modify (with_subtasks (fmap (λ s,
        if String.eqb (ls_taskInstanceId s) taskId
        then mkLocalSubtask (ls_taskInstanceId s) (ls_tenantId s) true (Some now)
               (Some userId) modified
        else s)));;
      allOrderTasks ← gets (ordersTasks tenantId (lt_orderId task));
      foldM (λ (_ : unit) depTask, activateDependent taskId allOrderTasks depTask)
            tt allOrderTasks;;
      updatedTasks ← gets (ordersTasks tenantId (lt_orderId task));
      let allDone := forallb (λ kv : string * LocalTask,
          status_eqb (lt_status kv.2) Done || status_eqb (lt_status kv.2) Cancelled)
          updatedTasks in
      (if allDone then
         modify (with_orders (alter (λ o,
           mkLocalOrder (lo_tenantId o) (lo_orderNumber o) (lo_channel o) OrderReady
             (lo_customerName o) (lo_customerAddress o) (lo_priority o)
             (lo_estimatedReadyAt o) (Some now) (lo_serverId o)
             (lo_serverOrderNumber o) modified) (lt_orderId task)))
       else mret tt);;
      _ ← enqueueEvent now tenantId userId TASK_COMPLETE EntTask taskId [];
      mret allDone
  end.

Definition completeSubtaskOffline (now : Z) (tenantId userId taskId subtaskId : string)
    : L unit :=
  modify (with_subtasks (alter (λ s,
    mkLocalSubtask (ls_taskInstanceId s) (ls_tenantId s) true (Some now) (Some userId)
      modified) subtaskId));;
  _ ← enqueueEvent now tenantId userId SUBTASK_COMPLETE EntSubtask subtaskId
        [("taskId", taskId)];
  mret tt.

(** *** actions.ts: sync engine *)

(** JSON of an order, a task and a delivery as served by the API. *)
Record ServerOrderItem := mkServerOrderItem {
  soi_orderId : string;
  soi_menuItemId : string;
  soi_quantity : Z;
  soi_status : ItemStatus;
}.

Record ServerOrder := mkServerOrder {
  so_tenantId : string;
  so_orderNumber : option Z;
  so_channel : string;
  so_status : OrderStatus;
  so_customerName : option string;
  so_customerAddress : option string;
  so_priority : Z;
  so_estimatedReadyAt : option Q;
  so_actualReadyAt : option Z;
  so_items : list (string * ServerOrderItem);
}.

Record ServerSubtask := mkServerSubtask {
  ss_taskInstanceId : string;
  ss_tenantId : string;
  ss_isCompleted : bool;
  ss_completedAt : option Z;
  ss_completedById : option string;
}.

Record ServerTask := mkServerTask {
  st_tenantId : string;
  st_orderId : string;
  st_orderItemId : string;
  st_taskDefId : string;
  st_name : string;
  st_stationId : option string;
  st_assignedToId : option string;
  st_status : TaskStatus;
  st_dependsOn : list string;
  st_estimatedMinutes : option Q;
  st_startedAt : option Z;
  st_completedAt : option Z;
  st_completedById : option string;
  st_subtasks : list (string * ServerSubtask);
}.

Record ServerDelivery := mkServerDelivery {
  sd_tenantId : string;
  sd_orderId : string;
  sd_riderId : option string;
  sd_status : DeliveryStatus;
}.

(** The record written by [db.orders.put] in [pullActiveOrders]. *)
Definition orderFromServer (o : ServerOrder) : LocalOrder :=
  mkLocalOrder (so_tenantId o) (so_orderNumber o) (so_channel o) (so_status o)
    (so_customerName o) (so_customerAddress o) (so_priority o)
    (so_estimatedReadyAt o) (so_actualReadyAt o) None (so_orderNumber o) synced.

Definition orderItemFromServer (i : ServerOrderItem) : LocalOrderItem :=
  mkLocalOrderItem (soi_orderId i) (soi_menuItemId i) (soi_quantity i) (soi_status i)
    synced.

(** The record written by [db.tasks.put] in [pullActiveTasks]. *)
Definition taskFromServer (t : ServerTask) : LocalTask :=
  mkLocalTask (st_tenantId t) (st_orderId t) (st_orderItemId t) (st_taskDefId t)
    (st_name t) (st_stationId t) (st_assignedToId t) (st_status t) (st_dependsOn t)
    (st_estimatedMinutes t) (st_startedAt t) (st_completedAt t) (st_completedById t)
    synced.

Definition subtaskFromServer (s : ServerSubtask) : LocalSubtask :=
  mkLocalSubtask (ss_taskInstanceId s) (ss_tenantId s) (ss_isCompleted s)
    (ss_completedAt s) (ss_completedById s) synced.

Definition deliveryFromServer (d : ServerDelivery) : LocalDelivery :=
  mkLocalDelivery (sd_tenantId d) (sd_orderId d) (sd_riderId d) (sd_status d) synced.

(** Body of the loop of [pullActiveOrders] for one served order. *)
Definition pullOrder (db : LocalDB) (kv : string * ServerOrder) : LocalDB :=
  let skip :=
    match orders db !! kv.1 with
    | Some existing => sync_eqb (lo_syncStatus existing) local
    | None => false
    end in
  (* Don't overwrite local modifications *)
  if skip then db
  else
    let db1 := with_orders (insert kv.1 (orderFromServer kv.2)) db in
    fold_left (λ d (it : string * ServerOrderItem),
                 with_orderItems (insert it.1 (orderItemFromServer it.2)) d)
              (so_items kv.2) db1.

(** [fetched] is the body of a successful response, [None] when the request
    fails or the response is not [ok] (the function then returns silently). *)
Definition pullActiveOrders (fetched : option (list (string * ServerOrder)))
    (db : LocalDB) : LocalDB :=
  match fetched with
  | None => db
  | Some served => fold_left pullOrder served db
  end.

Definition pullTask (db : LocalDB) (kv : string * ServerTask) : LocalDB :=
  let skip :=
    match tasks db !! kv.1 with
    | Some existing => negb (sync_eqb (lt_syncStatus existing) synced)
    | None => false
    end in
  if skip then db
  else
    let db1 := with_tasks (insert kv.1 (taskFromServer kv.2)) db in
    fold_left (λ d (sub : string * ServerSubtask),
                 with_subtasks (insert sub.1 (subtaskFromServer sub.2)) d)
              (st_subtasks kv.2) db1.

Definition pullActiveTasks (fetched : option (list (string * ServerTask)))
    (db : LocalDB) : LocalDB :=
  match fetched with
  | None => db
  | Some served => fold_left pullTask served db
  end.

Definition pullDelivery (db : LocalDB) (kv : string * ServerDelivery) : LocalDB :=
  let skip :=
    match deliveries db !! kv.1 with
    | Some existing => negb (sync_eqb (ld_syncStatus existing) synced)
    | None => false
    end in
  if skip then db
  else with_deliveries (insert kv.1 (deliveryFromServer kv.2)) db.

Definition pullActiveDeliveries (fetched : option (list (string * ServerDelivery)))
    (db : LocalDB) : LocalDB :=
  match fetched with
  | None => db
  | Some served => fold_left pullDelivery served db
  end.

(** What the authoritative side answers to the GET requests of a pull. *)
Record Served := mkServed {
  servedOrders : option (list (string * ServerOrder));
  servedTasks : option (list (string * ServerTask));
  servedDeliveries : option (list (string * ServerDelivery));
}.

(** The operational part of [pullServerState]. *)
Definition pullServerState (srv : Served) (db : LocalDB) : LocalDB :=
  pullActiveDeliveries (servedDeliveries srv)
    (pullActiveTasks (servedTasks srv)
       (pullActiveOrders (servedOrders srv) db)).

Definition pullEntityState (srv : Served) (entityType : EntityType) (db : LocalDB)
    : LocalDB :=
  match entityType with
  | EntOrder => pullActiveOrders (servedOrders srv) db
  | EntTask => pullActiveTasks (servedTasks srv) db
  | EntDelivery => pullActiveDeliveries (servedDeliveries srv) db
  | _ => db
  end.

(** Body of a response to a POST. *)
Record Body := mkBody {
  body_order : option (string * option Z * OrderStatus);  (* data.order *)
  body_eta : option Q;                                     (* data.eta?.estimatedReadyAt *)
  body_ok : bool;                                          (* data.ok *)
  body_error : string;                                     (* errData.error *)
}.

Inductive Response :=
| Http (status : nat) (body : Body)
| NetworkError (message : string).

Definition reconcileEntity (event : SyncEvent) (serverData : Body) (db : LocalDB)
    : LocalDB :=
  match ev_entityType event, body_order serverData with
  | EntOrder, Some (serverId, orderNumber, status) =>
      with_orders (alter (λ o,
        mkLocalOrder (lo_tenantId o) orderNumber (lo_channel o) status
          (lo_customerName o) (lo_customerAddress o) (lo_priority o)
          (body_eta serverData) (lo_actualReadyAt o) (Some serverId) orderNumber
          synced) (ev_entityId event)) db
  | _, _ => db
  end.

(** The environment of the sync engine: the answer of the authoritative side
    to the [n]-th POST of the session, what it serves to a pull, and whether
    the browser is online at that time. *)
Record Net := mkNet {
  respond : nat -> string -> SyncEvent -> Response;
  served : nat -> Served;
  onLine : nat -> bool;
}.

(** The local database together with the POST requests issued so far, each
    with the response it received. *)
Record World := mkWorld {
  w_db : LocalDB;
  w_wire : list (string * SyncEvent * Response);
}.

Definition execL {A} (c : L A) (db : LocalDB) : LocalDB := (c db).2.

Definition natString (n : nat) : string := NilZero.string_of_uint (Nat.to_uint n).

Definition pushSingleEvent (net : Net) (now : Z) (eventId : string) (w : World) : World :=
  match syncEvents (w_db w) !! eventId with
  | None => w
  | Some event =>
      if evstatus_eqb (ev_status event) EvSynced then w
      else
        let db1 := execL (markEventSyncing eventId) (w_db w) in
        let tick := length (w_wire w) in
        let response := respond net tick eventId event in
        let wire := w_wire w ++ [(eventId, event, response)] in
        let db2 :=
          match response with
          | Http status data =>
              if Nat.leb 200 status && Nat.leb status 299 then
                let db' := execL (markEventSynced now eventId) db1 in
                if bool_decide (is_Some (body_order data)) || body_ok data
                then reconcileEntity event data db' else db'
              else if Nat.eqb status 409 then
                pullEntityState (served net tick) (ev_entityType event)
                  (execL (markEventSynced now eventId) db1)
              else if Nat.leb 400 status && Nat.ltb status 500 then
                execL (markEventFailed eventId
                         (natString status +:+ ": " +:+ body_error data)) db1
              else
                execL (markEventFailed eventId ("HTTP " +:+ natString status)) db1
          | NetworkError message =>
              execL (markEventFailed eventId
                       (if String.eqb message "" then "Network error" else message)) db1
          end in
        mkWorld db2 wire
  end.

(** [for (const event of pending) { if (!navigator.onLine) break; ... }] *)
Fixpoint pushPending (net : Net) (now : Z) (pending : list (string * SyncEvent))
    (w : World) : World :=
  match pending with
  | [] => w
  | event :: rest =>
      if negb (onLine net (length (w_wire w))) then w
      else pushPending net now rest (pushSingleEvent net now event.1 w)
  end.

Definition pushEvents (net : Net) (now : Z) (w : World) : World :=
  if negb (onLine net (length (w_wire w))) then w
  else
    (* First retry failed events *)
    let failed := getFailedEvents (w_db w) in
    let w1 := fold_left (λ w' (event : string * SyncEvent),
                           pushSingleEvent net now event.1 w') failed w in
    (* Then push pending events (in order) *)
    pushPending net now (getPendingEvents (w_db w1)) w1.

(** The sequence numbers of the events the authoritative side accepted, in
    the order in which it accepted them. *)
Definition appliedSequences (w : World) : list Z :=
  omap (λ r : string * SyncEvent * Response,
          match r.2 with
          | Http status _ =>
              if Nat.leb 200 status && Nat.leb status 299
              then Some (ev_sequence r.1.2) else None
          | NetworkError _ => None
          end) (w_wire w).

(** The ids of the events for which a request was issued. *)
Definition pushedIds (w : World) : list string :=
  map (λ r : string * SyncEvent * Response, r.1.1) (w_wire w).

End Offline.

(** ** [src/lib/offline]: event counts and cleanup, delivery actions, and the
    mapping of events to requests *)
Module OfflineOps.
Import Offline.

(** *** event-queue.ts *)

(** The record returned by [getEventCounts]. *)
Record EventCounts := mkCounts {
  c_pending : nat;
  c_syncing : nat;
  c_synced : nat;
  c_failed : nat;
  c_conflict : nat;
}.

(** [counts[e.status] = (counts[e.status] || 0) + 1] *)
Definition countEvent (counts : EventCounts) (e : SyncEvent) : EventCounts :=
  match ev_status e with
  | EvPending => mkCounts (S (c_pending counts)) (c_syncing counts) (c_synced counts)
                   (c_failed counts) (c_conflict counts)
  | EvSyncing => mkCounts (c_pending counts) (S (c_syncing counts)) (c_synced counts)
                   (c_failed counts) (c_conflict counts)
  | EvSynced => mkCounts (c_pending counts) (c_syncing counts) (S (c_synced counts))
                  (c_failed counts) (c_conflict counts)
  | EvFailed => mkCounts (c_pending counts) (c_syncing counts) (c_synced counts)
                  (S (c_failed counts)) (c_conflict counts)
  | EvConflict => mkCounts (c_pending counts) (c_syncing counts) (c_synced counts)
                    (c_failed counts) (S (c_conflict counts))
  end.

Definition getEventCounts (db : LocalDB) : EventCounts :=
  fold_left (λ counts (kv : string * SyncEvent), countEvent counts kv.2)
            (map_to_list (syncEvents db)) (mkCounts 0 0 0 0 0).




(** *** actions.ts: delivery actions *)

Definition ld_with (rider : option string) (st : DeliveryStatus) (d : LocalDelivery)
    : LocalDelivery :=
  mkLocalDelivery (ld_tenantId d) (ld_orderId d) rider st modified.

Definition lo_with_status (st : OrderStatus) (o : LocalOrder) : LocalOrder :=
  mkLocalOrder (lo_tenantId o) (lo_orderNumber o) (lo_channel o) st
    (lo_customerName o) (lo_customerAddress o) (lo_priority o)
    (lo_estimatedReadyAt o) (lo_actualReadyAt o) (lo_serverId o)
    (lo_serverOrderNumber o) modified.

Definition assignDeliveryOffline (now : Z) (tenantId userId deliveryId riderId : string)
    : L unit :=
  modify (with_deliveries (alter (ld_with (Some riderId) DelAssigned) deliveryId));;
  _ ← enqueueEvent now tenantId userId DELIVERY_ASSIGN EntDelivery deliveryId
        [("riderId", riderId)];
  mret tt.

Definition pickupDeliveryOffline (now : Z) (tenantId userId deliveryId : string)
    : L unit :=
  del ← gets (λ db, deliveries db !! deliveryId);
  match del with
  | None => mret tt
  | Some del =>
      modify (with_deliveries
                (alter (λ d, ld_with (ld_riderId d) DelPickedUp d) deliveryId));;
      modify (with_orders (alter (lo_with_status OrderDelivering) (ld_orderId del)));;
      _ ← enqueueEvent now tenantId userId DELIVERY_PICKUP EntDelivery deliveryId [];
      mret tt
  end.

Definition deliverDeliveryOffline (now : Z) (tenantId userId deliveryId : string)
    : L unit :=
  del ← gets (λ db, deliveries db !! deliveryId);
  match del with
  | None => mret tt
  | Some del =>
      modify (with_deliveries
                (alter (λ d, ld_with (ld_riderId d) DelDelivered d) deliveryId));;
      modify (with_orders (alter (lo_with_status OrderDelivered) (ld_orderId del)));;
      _ ← enqueueEvent now tenantId userId DELIVERY_DELIVER EntDelivery deliveryId [];
      mret tt
  end.

(** *** actions.ts: event → API mapping of the sync engine *)

Inductive Endpoint := ApiOrders | ApiTasks | ApiDeliveries | ApiInventory.

Definition mapEventToEndpoint (type : EventType) : Endpoint :=
  match type with
  | ORDER_CREATE | ORDER_UPDATE | ORDER_CANCEL => ApiOrders
  | TASK_START | TASK_COMPLETE | SUBTASK_COMPLETE => ApiTasks
  | DELIVERY_ASSIGN | DELIVERY_PICKUP | DELIVERY_DELIVER => ApiDeliveries
  | INVENTORY_ADJUST => ApiInventory
  end.

(** A field whose value is [undefined] is left out by [JSON.stringify]. *)
Definition field (k : string) (v : option string) : JsMap string :=
  match v with
  | Some s => [(k, s)]
  | None => []
  end.

(** The JSON body of the request, as a list of fields. *)
Definition mapEventToPayload (event : SyncEvent) : JsMap string :=
  match ev_type event with
  | ORDER_CREATE => ev_payload event
  | TASK_START => [("taskId", ev_entityId event); ("action", "start")]
  | TASK_COMPLETE => [("taskId", ev_entityId event); ("action", "complete")]
  | SUBTASK_COMPLETE =>
      field "taskId" (jm_get (ev_payload event) "taskId")
      ++ [("action", "complete_subtask"); ("subtaskId", ev_entityId event)]
  | DELIVERY_ASSIGN =>
      [("deliveryId", ev_entityId event); ("action", "assign")]
      ++ field "riderId" (jm_get (ev_payload event) "riderId")
  | DELIVERY_PICKUP => [("deliveryId", ev_entityId event); ("action", "pickup")]
  | DELIVERY_DELIVER => [("deliveryId", ev_entityId event); ("action", "deliver")]
  | INVENTORY_ADJUST =>
      (* { action: 'adjust', itemId: event.entityId, ...event.payload } *)
      fold_left (λ o (kv : string * string), jm_set o kv.1 kv.2) (ev_payload event)
                [("action", "adjust"); ("itemId", ev_entityId event)]
  | ORDER_UPDATE | ORDER_CANCEL => ev_payload event
  end.

End OfflineOps.

(** ** [src/lib/offline/actions.ts]: local workflow instantiation *)
Module LocalWorkflow.
Import Engine Offline.




Section Cache.
(** The cached tables [workflowTemplates] and [stations] of the local
    database, which the function only reads. *)
Variable workflowTemplates : gmap string WorkflowDefinition.
Variable stations : gmap string Station.








End Cache.

End LocalWorkflow.

(** ** [src/lib/auth.ts]: roles and permissions *)
Module Auth.

Record AuthContext := mkAuth {
  auth_userId : string;
  auth_tenantId : string;
  auth_role : string;
  auth_email : string;
}.

Definition ROLE_HIERARCHY : JsMap nat :=
  [("owner", 50); ("admin", 40); ("manager", 30); ("staff", 20); ("delivery", 10)].

(** [(ROLE_HIERARCHY[userRole] ?? 0) >= (ROLE_HIERARCHY[minRole] ?? 100)].
    A key of [Object.prototype] reads as a function or an object, which
    compares as [NaN]: the result is [false], as for an unknown role here. *)
Definition hasMinRole (userRole minRole : string) : bool :=
  Nat.leb (default 100 (jm_get ROLE_HIERARCHY minRole))
          (default 0 (jm_get ROLE_HIERARCHY userRole)).

Definition ROLE_PERMISSIONS : JsMap (list string) :=
  [("owner", ["*"]);
   ("admin", ["orders.*"; "tasks.*"; "stations.*"; "menu.*"; "inventory.*";
              "workflows.*"; "users.read"; "users.create"; "analytics.*"; "delivery.*";
              "shifts.*"]);
   ("manager", ["orders.*"; "tasks.*"; "stations.read"; "menu.read"; "inventory.read";
                "inventory.adjust"; "analytics.read"; "delivery.*"; "shifts.read"]);
   ("staff", ["orders.read"; "tasks.read"; "tasks.update"; "stations.read"]);
   ("delivery", ["orders.read"; "delivery.read"; "delivery.update"])].

(** [permission.split('.')[0]]: the part before the first dot. *)
Fixpoint resourceOf (permission : string) : string :=
  match permission with
  | EmptyString => EmptyString
  | String c r => if Ascii.eqb c "." then EmptyString else String c (resourceOf r)
  end.

(** The model covers the roles that are not keys of [Object.prototype]; for
    those, [ROLE_PERMISSIONS[role]] is not an array in the source. *)
Definition hasPermission (role permission : string) : bool :=
  let perms := default [] (jm_get ROLE_PERMISSIONS role) in
  if includes perms "*" then true
  else
    let resource := resourceOf permission in
    includes perms permission || includes perms (resource +:+ ".*").

(** The three refusals of [withAuth]. *)
Inductive AuthFailure :=
| NonAutenticato          (* 401 'Non autenticato' *)
| PermessiInsufficienti   (* 403 'Permessi insufficienti' *)
| TenantDisattivato.      (* 403 'Tenant disattivato' *)

(** [withAuth(handler, requiredRoles)] applied to a request.  [auth] is what
    [getAuthFromRequest] found in the request ([None] without a valid token)
    and [tenantIsActive] the [isActive] column of the tenant ([None] when
    there is no such tenant). *)
Definition withAuth {A} (handler : AuthContext -> M A)
    (requiredRoles : option (list string))
    (tenantIsActive : string -> option bool) (auth : option AuthContext)
    : M (AuthFailure + A) :=
  match auth with
  | None => mret (inl NonAutenticato)
  | Some auth =>
      let allowed :=
        match requiredRoles with
        | Some roles => includes roles (auth_role auth)
        | None => true
        end in
      if negb allowed then mret (inl PermessiInsufficienti)
      else if negb (default false (tenantIsActive (auth_tenantId auth)))
      then mret (inl TenantDisattivato)
      else a ← handler auth; mret (inr a)
  end.

End Auth.

(** ** The login route: the rate limiter *)
Module Login.

(** An entry of [loginAttempts]. *)
Record Attempts := mkAttempts { att_count : nat; att_resetAt : Z }.

Definition MAX_ATTEMPTS : nat := 5.
Definition WINDOW_MS : Z := 15 * 60 * 1000.

(** [checkRateLimit(key)] at time [now]; the state is the module-level map
    [loginAttempts]. *)
Definition checkRateLimit (now : Z) (key : string)
    : ST (gmap string Attempts) bool := λ loginAttempts,
  match loginAttempts !! key with
  | None =>
      (Ok true, <[key := mkAttempts 1 (now + WINDOW_MS)]> loginAttempts)
  | Some attempts =>
      if Z.ltb (att_resetAt attempts) now then
        (Ok true, <[key := mkAttempts 1 (now + WINDOW_MS)]> loginAttempts)
      else if Nat.leb MAX_ATTEMPTS (att_count attempts) then (Ok false, loginAttempts)
      else
        (* attempts.count++ *)
        (Ok true,
         <[key := mkAttempts (S (att_count attempts)) (att_resetAt attempts)]>
           loginAttempts)
  end.

End Login.

(** ** [src/app/api/tasks/route.ts]: [POST /api/tasks] *)
Module TasksRoute.
Import Engine Eta Auth.

(** The responses of the route. *)
Inductive TaskResponse :=
| RespOk (result : option CompletionResult)  (* 200 { ok: true, ...result } *)
| TaskIdEActionRichiesti                      (* 400 'taskId e action richiesti' *)
| SubtaskIdRichiesto                          (* 400 'subtaskId richiesto' *)
| AzioneSconosciuta (action : string)         (* 400 `Azione sconosciuta: ...` *)
| Errore (e : Exn).                           (* 400 error.message, from [catch] *)

(** A field of the request body, when it is truthy: present and not the empty
    string.  The body is a JSON object with string fields. *)
Definition truthy (body : JsMap string) (k : string) : option string :=
  match jm_get body k with
  | Some s => if String.eqb s "" then None else Some s
  | None => None
  end.

(** Get task to find orderId for ETA recalc. *)
Definition recalculateETA (now : Z) (tenantId taskId : string) : M unit :=
  task ← gets (λ db, taskInstance db !! taskId);
  match task with
  | Some task => _ ← calculateOrderETA now tenantId (task_orderId task); mret tt
  | None => mret tt
  end.

(** The [try] block of [taskAction]; [now] is the clock of the engine call,
    [nowEta] the one of the ETA calculation that follows it. *)
Definition taskActionTry (now nowEta : Z) (body : JsMap string) (auth : AuthContext)
    : M TaskResponse :=
  match truthy body "taskId", truthy body "action" with
  | Some taskId, Some action =>
      if String.eqb action "start" then
        startTask now taskId (auth_userId auth) (auth_tenantId auth);;
        recalculateETA nowEta (auth_tenantId auth) taskId;;
        mret (RespOk None)
      else if String.eqb action "complete" then
        result ← completeTask now taskId (auth_userId auth) (auth_tenantId auth);
        recalculateETA nowEta (auth_tenantId auth) taskId;;
        mret (RespOk (Some result))
      else if String.eqb action "complete_subtask" then
        match truthy body "subtaskId" with
        | None => mret SubtaskIdRichiesto
        | Some subtaskId =>
            completeSubtask now taskId subtaskId (auth_userId auth) (auth_tenantId auth);;
            mret (RespOk None)
        end
      else mret (AzioneSconosciuta action)
  | _, _ => mret TaskIdEActionRichiesti
  end.

(** [try { ... } catch (error) { return 400 }] *)
Definition catch400 (c : M TaskResponse) : M TaskResponse := λ db,
  match c db with
  | (Ok r, db') => (Ok r, db')
  | (Throw e, db') => (Ok (Errore e), db')
  end.

Definition taskAction (now nowEta : Z) (body : JsMap string) (auth : AuthContext)
    : M TaskResponse :=
  catch400 (taskActionTry now nowEta body auth).

(** [export const POST = withAuth(taskAction)] *)
Definition POST (now nowEta : Z) (tenantIsActive : string -> option bool)
    (auth : option AuthContext) (body : JsMap string)
    : M (AuthFailure + TaskResponse) :=
  withAuth (taskAction now nowEta body) None tenantIsActive auth.

End TasksRoute.

(** ** [src/lib/inventory.ts] *)
Module Inventory.

Inductive MovementType := OrderDeduction | ManualAdd | Waste | Adjustment | Receiving.

Record InventoryItem := mkInventoryItem {
  inv_tenantId : string;
  inv_name : string;
  inv_unit : string;
  inv_currentStock : Q;
  inv_minStock : Q;
  inv_supplier : option string;
  inv_isActive : bool;
}.

Record InventoryMovement := mkInventoryMovement {
  mov_tenantId : string;
  mov_inventoryItemId : string;
  mov_quantity : Q;
  mov_movementType : MovementType;
  mov_referenceId : option string;
  mov_notes : option string;
  mov_createdBy : option string;
  mov_createdAt : Z;
}.

Record RecipeIngredient := mkRecipeIngredient {
  rec_menuItemId : string;
  rec_inventoryItemId : string;
  rec_quantity : Q;
}.

(** The columns of [order_items] that this module reads. *)
Record OrderLine := mkOrderLine {
  line_orderId : string;
  line_tenantId : string;
  line_menuItemId : string;
  line_quantity : Z;
}.

(** Payload of the ['inventory:alert'] event. *)
Record Alert := mkAlert {
  alert_tenantId : string;
  alert_itemId : string;
  alert_name : string;
  alert_currentStock : Q;
  alert_minStock : Q;
  alert_unit : string;
}.

Record InventoryDB := mkInventoryDB {
  inventoryItem : gmap string InventoryItem;
  inventoryMovement : list InventoryMovement;   (* rows are only ever appended *)
  recipeIngredient : list RecipeIngredient;
  orderLines : list OrderLine;
  menuItemName : gmap string string;
  alerts : list Alert;
}.

Abbreviation I := (ST InventoryDB).

Definition with_inventoryItem (f : gmap string InventoryItem -> gmap string InventoryItem)
    (db : InventoryDB) : InventoryDB :=
  mkInventoryDB (f (inventoryItem db)) (inventoryMovement db) (recipeIngredient db)
    (orderLines db) (menuItemName db) (alerts db).

Definition with_inventoryMovement
    (f : list InventoryMovement -> list InventoryMovement) (db : InventoryDB)
    : InventoryDB :=
  mkInventoryDB (inventoryItem db) (f (inventoryMovement db)) (recipeIngredient db)
    (orderLines db) (menuItemName db) (alerts db).

Definition with_alerts (f : list Alert -> list Alert) (db : InventoryDB) : InventoryDB :=
  mkInventoryDB (inventoryItem db) (inventoryMovement db) (recipeIngredient db)
    (orderLines db) (menuItemName db) (f (alerts db)).

Definition addStock (quantity : Q) (it : InventoryItem) : InventoryItem :=
  mkInventoryItem (inv_tenantId it) (inv_name it) (inv_unit it)
    (inv_currentStock it + quantity)%Q (inv_minStock it) (inv_supplier it)
    (inv_isActive it).

(** [prisma.inventoryItem.update({ where: { id }, data: { currentStock:
    { increment: quantity } } })]; Prisma throws when there is no such row. *)
Definition incrementStock (id : string) (quantity : Q) : I unit :=
  present ← gets (λ db, inventoryItem db !! id);
  match present with
  | None => throw RecordNotFound
  | Some _ =>
      modify (with_inventoryItem (alter (addStock quantity) id))
  end.

Definition createMovement (m : InventoryMovement) : I unit :=
  modify (with_inventoryMovement (λ l, l ++ [m])).

(** [`Ordine ${orderId} - ${item.menuItem.name} x${item.quantity}`] *)
Definition deductionNotes (orderId name : string) (quantity : Z) : string :=
  "Ordine " +:+ orderId +:+ " - " +:+ name +:+ " x"
  +:+ NilZero.string_of_int (Z.to_int quantity).

(** Body of the inner loop of [deductStockForOrder]: one recipe ingredient of
    one order item. *)
Definition deductIngredient (now : Z) (tenantId orderId : string) (item : OrderLine)
    (name : string) (recipe : RecipeIngredient) : I unit :=
  let deduction := (rec_quantity recipe * inject_Z (line_quantity item))%Q in
  (* Atomic decrement *)
  incrementStock (rec_inventoryItemId recipe) (- deduction)%Q;;
  (* Record movement *)
  createMovement (mkInventoryMovement tenantId (rec_inventoryItemId recipe)
                    (- deduction)%Q OrderDeduction (Some orderId)
                    (Some (deductionNotes orderId name (line_quantity item))) None now);;
  (* Check if below minimum → emit alert *)
  updated ← gets (λ db, inventoryItem db !! rec_inventoryItemId recipe);
  match updated with
  | Some updated =>
      if Qle_bool (inv_currentStock updated) (inv_minStock updated) then
        modify (with_alerts (λ l, l ++
          [mkAlert tenantId (rec_inventoryItemId recipe) (inv_name updated)
             (inv_currentStock updated) (inv_minStock updated) (inv_unit updated)]))
      else mret tt
  | None => mret tt
  end.

(** The recipe of a menu item, as loaded by [include: { recipeIngredients }]. *)
Definition recipeOf (db : InventoryDB) (menuItemId : string) : list RecipeIngredient :=
  List.filter (λ r, String.eqb (rec_menuItemId r) menuItemId) (recipeIngredient db).

Definition deductStockForOrder (now : Z) (tenantId orderId : string) : I unit :=
  orderItems ← gets (λ db,
    map (λ item, (item, menuItemName db !! line_menuItemId item,
                  recipeOf db (line_menuItemId item)))
        (List.filter (λ item, String.eqb (line_orderId item) orderId
                              && String.eqb (line_tenantId item) tenantId)
                     (orderLines db)));
  foldM (λ (_ : unit) (row : OrderLine * option string * list RecipeIngredient),
           match row.1.2 with
           | None => throw JsTypeError   (* [item.menuItem] is [null] *)
           | Some name =>
               foldM (λ (_ : unit) recipe,
                        deductIngredient now tenantId orderId row.1.1 name recipe)
                     tt row.2
           end)
        tt orderItems.

Definition adjustStock (now : Z) (tenantId inventoryItemId : string) (quantity : Q)
    (type : MovementType) (notes : option string) (userId : string) : I unit :=
  incrementStock inventoryItemId quantity;;
  createMovement (mkInventoryMovement tenantId inventoryItemId quantity type None notes
                    (Some userId) now).

(** *** Reorder suggestions *)













End Inventory.

(** * Properties *)

(** ** Basic facts on the shared definitions *)

Lemma status_eqb_eq a b : status_eqb a b = true <-> a = b.
Proof. destruct a, b; simpl; split; congruence. Qed.

Lemma status_eqb_refl a : status_eqb a a = true.
Proof. by destruct a. Qed.

Lemma status_eqb_neq a b : status_eqb a b = false <-> a ≠ b.
Proof. destruct a, b; simpl; split; congruence. Qed.

Lemma includes_true ids k : includes ids k = true <-> k ∈ ids.
Proof.
  unfold includes. rewrite existsb_exists. split.
  - intros (x & Hin & Heq). apply String.eqb_eq in Heq. subst.
    by apply list_elem_of_In.
  - intros Hin. exists k. split; [by apply list_elem_of_In | apply String.eqb_refl].
Qed.

Lemma elem_of_List_filter {A} (f : A -> bool) (l : list A) (x : A) :
  x ∈ List.filter f l <-> x ∈ l ∧ f x = true.
Proof. rewrite !list_elem_of_In. apply filter_In. Qed.

Lemma NoDup_fst_List_filter {A B} (f : A * B -> bool) (l : list (A * B)) :
  NoDup l.*1 -> NoDup (List.filter f l).*1.
Proof.
  induction l as [|x l IH]; simpl; [done|].
  rewrite NoDup_cons. intros [Hx Hl].
  destruct (f x); simpl; [|by apply IH].
  apply NoDup_cons. split; [|by apply IH].
  intros Hin. apply Hx.
  apply list_elem_of_fmap in Hin as (y & -> & Hy).
  apply elem_of_List_filter in Hy as [Hy _].
  apply list_elem_of_fmap. by exists y.
Qed.

(** A row found in a query result is a row of the table. *)
Lemma elem_of_query {V} (f : string * V -> bool) (m : gmap string V) k v :
  (k, v) ∈ List.filter f (map_to_list m) <-> m !! k = Some v ∧ f (k, v) = true.
Proof. by rewrite elem_of_List_filter, elem_of_map_to_list. Qed.

Lemma NoDup_query {V} (f : string * V -> bool) (m : gmap string V) :
  NoDup (List.filter f (map_to_list m)).*1.
Proof. apply NoDup_fst_List_filter, NoDup_fst_map_to_list. Qed.

(** ** Workflow engine *)
Module EngineProps.
Import Engine.

Definition statusOf (db : ServerDB) (id : string) : option TaskStatus :=
  task_status <$> taskInstance db !! id.

(** [isDone tbl d]: the table has a row [d] whose status is [done]. *)
Definition isDone (tbl : gmap string TaskInstance) (d : string) : Prop :=
  ∃ t, tbl !! d = Some t ∧ task_status t = Done.

Lemma countDone_le deps tbl :
  (∀ d, d ∈ deps -> isDone tbl d) -> NoDup deps -> length deps ≤ countDone deps tbl.
Proof.
  intros Hall Hnd. unfold countDone.
  rewrite <- (length_fmap fst (List.filter _ _)).
  apply submseteq_length, NoDup_submseteq; [done|].
  intros d Hd. destruct (Hall d Hd) as (t & Ht & Hs).
  apply list_elem_of_fmap. exists (d, t). split; [done|].
  apply elem_of_query. split; [done|]. simpl.
  apply andb_true_iff. split; [by apply includes_true | by apply status_eqb_eq].
Qed.

Lemma countDone_keys deps tbl :
  let keys := (List.filter
                 (λ kv : string * TaskInstance,
                    includes deps kv.1 && status_eqb (task_status kv.2) Done)
                 (map_to_list tbl)).*1 in
  NoDup keys ∧ (∀ d, d ∈ keys -> d ∈ deps ∧ isDone tbl d)
  ∧ length keys = countDone deps tbl.
Proof.
  intros keys. split; [apply NoDup_query|]. split.
  - intros d Hd. apply list_elem_of_fmap in Hd as ([k t] & -> & Hin).
    apply elem_of_query in Hin as [Hl Hf]. simpl in *.
    apply andb_true_iff in Hf as [Hi Hs].
    split; [by apply includes_true|]. exists t. split; [done|by apply status_eqb_eq].
  - unfold keys, countDone. by rewrite length_fmap.
Qed.

(** The count of done dependencies reaches [deps.length] exactly when the
    entries of [deps] are distinct rows that are all [done]. *)
Lemma countDone_spec deps tbl :
  countDone deps tbl = length deps <-> NoDup deps ∧ ∀ d, d ∈ deps -> isDone tbl d.
Proof.
  destruct (countDone_keys deps tbl) as (Hnd & Hsub & Hlen).
  set (keys := (List.filter _ _).*1) in *.
  split.
  - intros Heq.
    assert (keys ≡ₚ deps) as Hperm.
    { apply submseteq_length_Permutation; [|lia].
      apply NoDup_submseteq; [done|]. intros d Hd. by apply Hsub. }
    split; [by rewrite <- Hperm|].
    intros d Hd. apply Hsub. by rewrite Hperm.
  - intros [Hnd' Hall].
    apply Nat.le_antisymm; [|by apply countDone_le].
    rewrite <- Hlen. apply submseteq_length, NoDup_submseteq; [done|].
    intros d Hd. by apply Hsub.
Qed.

(** The test made by [activateReadyTasks] on one pending task. *)
Definition readyb (tbl : gmap string TaskInstance) (deps : list string) : bool :=
  Nat.eqb (length deps) 0 || Nat.eqb (countDone deps tbl) (length deps).

Lemma readyb_spec tbl deps :
  readyb tbl deps = true <-> NoDup deps ∧ ∀ d, d ∈ deps -> isDone tbl d.
Proof.
  unfold readyb. rewrite orb_true_iff, !Nat.eqb_eq, countDone_spec. split.
  - intros [Hnil | H]; [|done].
    destruct deps; [|done]. split; [constructor|]. intros d Hd. inversion Hd.
  - by right.
Qed.

Lemma activateStep_readyb acc kv :
  activateStep acc kv =
    if readyb acc.1 (task_dependsOn kv.2)
    then (alter (task_with_status Queued) kv.1 acc.1, S acc.2) else acc.
Proof.
  unfold activateStep, readyb.
  destruct (Nat.eqb (length _) 0); [done|]. simpl.
  by destruct (Nat.eqb (countDone _ _) _).
Qed.

(** [promoted tbl0 tbl]: [tbl] is [tbl0] where some pending rows became queued. *)
Definition promoted (tbl0 tbl : gmap string TaskInstance) : Prop :=
  ∀ k, tbl !! k = tbl0 !! k
       ∨ ∃ t, tbl0 !! k = Some t ∧ task_status t = Pending
              ∧ tbl !! k = Some (task_with_status Queued t).

Lemma promoted_isDone tbl0 tbl d : promoted tbl0 tbl -> isDone tbl d <-> isDone tbl0 d.
Proof.
  intros Hp. unfold isDone. destruct (Hp d) as [-> | (t & H0 & Hs & H1)]; [done|].
  rewrite H0, H1. split; intros (t' & [= <-] & Hd); simpl in *; congruence.
Qed.

Lemma promoted_readyb tbl0 tbl deps :
  promoted tbl0 tbl -> readyb tbl deps = readyb tbl0 deps.
Proof.
  intros Hp. apply eq_true_iff_eq. rewrite !readyb_spec.
  split; intros [Hnd Hall]; (split; [done|]); intros d Hd;
    apply (promoted_isDone _ _ d Hp); by apply Hall.
Qed.

Lemma promoted_alter tbl0 tbl k t :
  promoted tbl0 tbl -> tbl0 !! k = Some t -> task_status t = Pending ->
  promoted tbl0 (alter (task_with_status Queued) k tbl).
Proof.
  intros Hp H0 Hs k'. destruct (decide (k = k')) as [<- | Hne].
  - right. exists t. split; [done|]. split; [done|].
    rewrite lookup_alter_eq.
    destruct (Hp k) as [-> | (t' & H0' & _ & ->)]; [by rewrite H0|].
    rewrite H0 in H0'. by injection H0' as <-.
  - rewrite lookup_alter_ne by done. apply Hp.
Qed.

(** The loop of [activateReadyTasks], seen from one row [k] of the table. *)
Lemma activate_fold_lookup tbl0 (P : list (string * TaskInstance)) :
  (∀ k t, (k, t) ∈ P -> tbl0 !! k = Some t ∧ task_status t = Pending) ->
  ∀ acc, promoted tbl0 acc.1 ->
    let r := fold_left activateStep P acc in
    promoted tbl0 r.1
    ∧ ∀ k, r.1 !! k =
        if existsb (λ kv : string * TaskInstance,
                      String.eqb kv.1 k && readyb tbl0 (task_dependsOn kv.2)) P
        then task_with_status Queued <$> tbl0 !! k
        else acc.1 !! k.
Proof.
  induction P as [|[k0 t0] P IH]; intros HP acc Hacc; simpl.
  - done.
  - destruct (HP k0 t0) as [H0 Hs0]; [left|].
    assert (∀ k t, (k, t) ∈ P -> tbl0 !! k = Some t ∧ task_status t = Pending) as HP'.
    { intros k t Hin. apply HP. by right. }
    rewrite activateStep_readyb. simpl.
    rewrite (promoted_readyb tbl0 acc.1) by done.
    destruct (readyb tbl0 (task_dependsOn t0)) eqn:Hr.
    + destruct (IH HP' (alter (task_with_status Queued) k0 acc.1, S acc.2)) as [Hp Hl].
      { simpl. by eapply promoted_alter. }
      split; [done|]. intros k. rewrite Hl. simpl.
      destruct (existsb _ P) eqn:Hex.
      * by rewrite orb_true_r.
      * rewrite orb_false_r, andb_true_r.
        destruct (String.eqb_spec k0 k) as [<- | Hne].
        -- rewrite lookup_alter_eq.
           destruct (Hacc k0) as [-> | (t & H0' & _ & ->)]; [done|].
           rewrite H0'. simpl. by destruct t.
        -- by rewrite lookup_alter_ne.
    + destruct (IH HP' acc Hacc) as [Hp Hl].
      split; [done|]. intros k. rewrite Hl. by rewrite andb_false_r.
Qed.

Lemma isDone_statusOf db d : isDone (taskInstance db) d <-> statusOf db d = Some Done.
Proof.
  unfold isDone, statusOf. destruct (taskInstance db !! d) as [t|]; simpl.
  - split; [intros (t' & [= <-] & ->); done | intros [= H]; eauto].
  - split; [intros (t' & [=] & _) | done].
Qed.

Lemma activateReadyTasks_lookup db tenantId orderId k :
  let db' := (activateReadyTasks tenantId orderId db).2 in
  taskInstance db' !! k =
    match taskInstance db !! k with
    | Some t =>
        if isPendingOf tenantId orderId (k, t)
           && readyb (taskInstance db) (task_dependsOn t)
        then Some (task_with_status Queued t) else Some t
    | None => None
    end.
Proof.
  simpl. set (P := List.filter _ _).
  assert (∀ k t, (k, t) ∈ P ->
            taskInstance db !! k = Some t ∧ task_status t = Pending) as HP.
  { intros k' t' Hin. apply elem_of_query in Hin as [Hl Hf]. split; [done|].
    unfold isPendingOf in Hf. simpl in Hf.
    apply andb_true_iff in Hf as [_ Hs]. by apply status_eqb_eq. }
  destruct (activate_fold_lookup (taskInstance db) P HP (taskInstance db, 0)) as [_ Hl].
  { intros k'. by left. }
  rewrite Hl. simpl.
  destruct (taskInstance db !! k) as [t|] eqn:Hk; simpl.
  - destruct (isPendingOf tenantId orderId (k, t) && readyb _ _) eqn:Hc.
    + apply andb_true_iff in Hc as [Hp Hr].
      assert (existsb (λ kv : string * TaskInstance,
                String.eqb kv.1 k && readyb (taskInstance db) (task_dependsOn kv.2)) P
              = true) as ->; [|done].
      apply existsb_exists. exists (k, t). split.
      * apply list_elem_of_In, elem_of_query. done.
      * simpl. by rewrite String.eqb_refl.
    + destruct (existsb _ P) eqn:Hex; [|done].
      apply existsb_exists in Hex as ([k' t'] & Hin & Hf). simpl in Hf.
      apply andb_true_iff in Hf as [Heq Hr]. apply String.eqb_eq in Heq. subst k'.
      apply list_elem_of_In, elem_of_query in Hin as [Hl' Hp].
      rewrite Hk in Hl'. injection Hl' as <-. by rewrite Hp, Hr in Hc.
  - by destruct (existsb _ P).
Qed.

Lemma activateReadyTasks_promoted db tenantId orderId :
  promoted (taskInstance db) (taskInstance (activateReadyTasks tenantId orderId db).2).
Proof.
  intros k. rewrite activateReadyTasks_lookup.
  destruct (taskInstance db !! k) as [t|] eqn:Hk; [|by left].
  destruct (isPendingOf _ _ _ && _) eqn:Hc; [|by left].
  right. exists t. split; [done|]. split; [|done].
  apply andb_true_iff in Hc as [Hp _]. unfold isPendingOf in Hp.
  apply andb_true_iff in Hp as [_ Hs]. by apply status_eqb_eq.
Qed.

Lemma activateReadyTasks_frame db tenantId orderId :
  let db' := (activateReadyTasks tenantId orderId db).2 in
  subtaskInstance db' = subtaskInstance db ∧ taskDuration db' = taskDuration db
  ∧ order db' = order db ∧ orderItem db' = orderItem db ∧ emitted db' = emitted db.
Proof. done. Qed.

(** *** Sample store: an order with a cancelled task and a dependent one *)

Definition sampleTask (status : TaskStatus) (deps : list string)
    (startedAt : option Z) : TaskInstance :=
  mkTask "tenant" "order-1" "item-1" "def" "phase" "task" None None status deps
    (Some 5%Q) startedAt None None.

Definition emptyDB : ServerDB :=
  mkServerDB ∅ ∅ [] (<["order-1" := mkOrder "tenant" OrderPreparing None None]> ∅)
    (<["item-1" := mkOrderItem "order-1" "menu-1" ItemPending]> ∅)
    (<["menu-1" := mkMenuItem "tenant" (Some "wf-1")]> ∅) ∅ ∅ [] 0.

(** Task [A] was cancelled; task [B] waits for [A]. *)
Definition cancelledDepDB : ServerDB :=
  with_taskInstance
    (λ _, <["A" := sampleTask Cancelled [] None]>
            (<["B" := sampleTask Pending ["A"] None]> ∅)) emptyDB.

(** Task [A] is done; task [B] waits for [A]. *)
Definition doneDepDB : ServerDB :=
  with_taskInstance
    (λ _, <["A" := sampleTask Done [] (Some 0%Z)]>
            (<["B" := sampleTask Pending ["A"] None]> ∅)) emptyDB.

(** Task [A] is queued and was started; task [B] waits for [A]. *)
Definition queuedDB : ServerDB :=
  with_taskInstance
    (λ _, <["A" := sampleTask Queued [] (Some 0%Z)]>
            (<["B" := sampleTask Pending ["A"] None]> ∅)) emptyDB.

(** C2 as stated fails: [B] is pending, its only dependency [A] is cancelled,
    so every dependency is done or cancelled, and activation leaves [B]
    pending. *)
Lemma activation_ignores_cancelled_dependency :
  let db' := (activateReadyTasks "tenant" "order-1" cancelledDepDB).2 in
  statusOf cancelledDepDB "B" = Some Pending
  ∧ (∀ d, d ∈ ["A"] ->
       statusOf cancelledDepDB d = Some Done
       ∨ statusOf cancelledDepDB d = Some Cancelled)
  ∧ statusOf db' "B" = Some Pending
  ∧ ¬ (statusOf db' "B" = Some Queued <->
       ∀ d, d ∈ ["A"] ->
         statusOf cancelledDepDB d = Some Done
         ∨ statusOf cancelledDepDB d = Some Cancelled).
Proof.
  assert (∀ d, d ∈ ["A"] ->
            statusOf cancelledDepDB d = Some Done
            ∨ statusOf cancelledDepDB d = Some Cancelled) as Hdeps.
  { intros d Hd. apply list_elem_of_singleton in Hd as ->. right. by vm_compute. }
  assert (statusOf (activateReadyTasks "tenant" "order-1" cancelledDepDB).2 "B"
          = Some Pending) as Hafter by (by vm_compute).
  split; [by vm_compute|]. split; [done|]. split; [done|].
  intros [_ Hq]. specialize (Hq Hdeps). rewrite Hafter in Hq. discriminate.
Qed.

(** C2, amended: activation promotes a pending instance of the order to
    queued if and only if the entries of its [dependsOn] are distinct
    instances whose status is [done]; otherwise the instance stays pending.
    A dependency in status [cancelled] does not count as satisfied. *)
Theorem activation_promotes_iff_all_deps_done db tenantId orderId id t :
  taskInstance db !! id = Some t ->
  task_tenantId t = tenantId -> task_orderId t = orderId ->
  task_status t = Pending ->
  let db' := (activateReadyTasks tenantId orderId db).2 in
  (statusOf db' id = Some Queued <->
     NoDup (task_dependsOn t)
     ∧ ∀ d, d ∈ task_dependsOn t -> statusOf db d = Some Done)
  ∧ (statusOf db' id = Some Queued ∨ statusOf db' id = Some Pending)
  ∧ ((∃ d, d ∈ task_dependsOn t ∧ statusOf db d = Some Cancelled) ->
     statusOf db' id = Some Pending).
Proof.
  intros Hk Hten Hord Hst db'.
  assert (isPendingOf tenantId orderId (id, t) = true) as Hp.
  { unfold isPendingOf. simpl. rewrite Hten, Hord, Hst, !String.eqb_refl. done. }
  assert (statusOf db' id =
            Some (if readyb (taskInstance db) (task_dependsOn t)
                  then Queued else Pending)) as Hs.
  { unfold statusOf, db'. rewrite activateReadyTasks_lookup, Hk, Hp. simpl.
    destruct (readyb _ _); simpl; [done | by rewrite Hst]. }
  assert (readyb (taskInstance db) (task_dependsOn t) = true <->
            NoDup (task_dependsOn t)
            ∧ ∀ d, d ∈ task_dependsOn t -> statusOf db d = Some Done) as Hr.
  { rewrite readyb_spec. split; intros [Hnd Hall]; (split; [done|]);
      intros d Hd; apply isDone_statusOf; by apply Hall. }
  split; [|split].
  - rewrite Hs, <- Hr. destruct (readyb _ _); split; congruence.
  - rewrite Hs. destruct (readyb _ _); auto.
  - intros (d & Hd & Hc). rewrite Hs.
    destruct (readyb (taskInstance db) (task_dependsOn t)); [|done].
    destruct Hr as [Hr _]. destruct (Hr eq_refl) as [_ Hall].
    specialize (Hall d Hd). congruence.
Qed.

Lemma activation_promotes_iff_all_deps_done_witness :
  taskInstance doneDepDB !! "B" = Some (sampleTask Pending ["A"] None)
  ∧ statusOf (activateReadyTasks "tenant" "order-1" doneDepDB).2 "B" = Some Queued.
Proof.
  split; [by vm_compute|].
  apply (activation_promotes_iff_all_deps_done doneDepDB "tenant" "order-1" "B"
           (sampleTask Pending ["A"] None)); [by vm_compute | done | done | done |].
  split.
  - apply NoDup_singleton.
  - intros d Hd. apply list_elem_of_singleton in Hd as ->. by vm_compute.
Defined.

Arguments activateReadyTasks : simpl never.

(** *** Effect of the operations on the table of task instances *)

Ltac unfold_M :=
  unfold mbind, mret, ST_bind, ST_ret, gets, modify, throw, emitToTenant in *.

Lemma checkOrderCompletion_taskInstance now tenantId orderId db :
  taskInstance (checkOrderCompletion now tenantId orderId db).2 = taskInstance db.
Proof.
  unfold checkOrderCompletion. unfold_M. simpl.
  repeat (case_match; simpl; simplify_eq; try done).
Qed.

Definition completable (s : TaskStatus) : bool :=
  status_eqb s Queued || status_eqb s InProgress.

(** [completeTask] either throws before touching the task instances, or sets
    the task to [done] and then runs activation on its order. *)
Lemma completeTask_taskInstance now taskId userId tenantId db :
  taskInstance (completeTask now taskId userId tenantId db).2 =
    match findFirstTask taskId tenantId db with
    | Some task =>
        if completable (task_status task) then
          taskInstance (activateReadyTasks tenantId (task_orderId task)
            (with_taskInstance (alter (task_completed userId now) taskId) db)).2
        else taskInstance db
    | None => taskInstance db
    end.
Proof.
  unfold completeTask, completable. unfold_M. simpl.
  destruct (findFirstTask taskId tenantId db) as [task|]; [|done].
  destruct (status_eqb (task_status task) Queued
            || status_eqb (task_status task) InProgress); [|done].
  simpl.
  repeat (case_match; simpl in *; simplify_eq; try done);
    by rewrite checkOrderCompletion_taskInstance.
Qed.

Lemma completeTask_throws now taskId userId tenantId db :
  match findFirstTask taskId tenantId db with
  | Some task =>
      completable (task_status task) = false ->
      completeTask now taskId userId tenantId db
      = (Throw (TaskNonCompletabile (task_status task)), db)
  | None => completeTask now taskId userId tenantId db = (Throw TaskNonTrovato, db)
  end.
Proof.
  unfold completeTask, completable. unfold_M. simpl.
  destruct (findFirstTask taskId tenantId db) as [task|]; [|done].
  by intros ->.
Qed.

Lemma completeTask_Ok_inv now taskId userId tenantId db r db1 :
  completeTask now taskId userId tenantId db = (Ok r, db1) ->
  ∃ task, findFirstTask taskId tenantId db = Some task
          ∧ completable (task_status task) = true.
Proof.
  intros Hc. pose proof (completeTask_throws now taskId userId tenantId db) as Ht.
  destruct (findFirstTask taskId tenantId db) as [task|]; [|congruence].
  exists task. split; [done|].
  destruct (completable (task_status task)); [done|].
  rewrite Ht in Hc by done. discriminate.
Qed.

Lemma findFirstTask_Some taskId tenantId db task :
  findFirstTask taskId tenantId db = Some task <->
  taskInstance db !! taskId = Some task ∧ task_tenantId task = tenantId.
Proof.
  unfold findFirstTask. destruct (taskInstance db !! taskId) as [t|].
  - destruct (String.eqb_spec (task_tenantId t) tenantId) as [He | Hne].
    + split; [intros [= <-]; done | intros [[= <-] _]; done].
    + split; [done | intros [[= <-] He]; done].
  - split; [done | intros [[=] _]].
Qed.

(** After a call of [completeTask] that got past its guard, the task is done. *)
Lemma completeTask_sets_done now taskId userId tenantId db task :
  findFirstTask taskId tenantId db = Some task ->
  completable (task_status task) = true ->
  findFirstTask taskId tenantId (completeTask now taskId userId tenantId db).2
  = Some (task_completed userId now task).
Proof.
  intros Hf Hc. apply findFirstTask_Some in Hf as Hf'. destruct Hf' as [Hl Hten].
  apply findFirstTask_Some. split; [|done].
  rewrite completeTask_taskInstance, Hf, Hc, activateReadyTasks_lookup. simpl.
  rewrite lookup_alter_eq, Hl. simpl. unfold isPendingOf. simpl.
  by rewrite andb_false_r.
Qed.

(** [startTask] either throws before touching the task instances, or sets the
    task to [in_progress]. *)
Lemma startTask_taskInstance now taskId userId tenantId db :
  taskInstance (startTask now taskId userId tenantId db).2 =
    match findFirstTask taskId tenantId db with
    | Some task =>
        if status_eqb (task_status task) Queued
        then alter (task_started userId now) taskId (taskInstance db)
        else taskInstance db
    | None => taskInstance db
    end.
Proof.
  unfold startTask. unfold_M. simpl.
  destruct (findFirstTask taskId tenantId db) as [task|]; [|done].
  by destruct (status_eqb (task_status task) Queued).
Qed.

Lemma completeSubtask_taskInstance now taskId subtaskId userId tenantId db :
  taskInstance (completeSubtask now taskId subtaskId userId tenantId db).2
  = taskInstance db.
Proof.
  unfold completeSubtask. unfold_M. simpl.
  repeat (case_match; simpl in *; simplify_eq; try done).
Qed.

(** [leftPending tbl tbl']: every row of [tbl] that has left [pending] is a row
    of [tbl'] that has left [pending]. *)
Definition leftPending (tbl tbl' : gmap string TaskInstance) : Prop :=
  ∀ id t, tbl !! id = Some t -> task_status t ≠ Pending ->
          ∃ t', tbl' !! id = Some t' ∧ task_status t' ≠ Pending.

Lemma leftPending_refl tbl : leftPending tbl tbl.
Proof. intros id t ??. eauto. Qed.

Lemma leftPending_trans tbl1 tbl2 tbl3 :
  leftPending tbl1 tbl2 -> leftPending tbl2 tbl3 -> leftPending tbl1 tbl3.
Proof.
  intros H12 H23 id t Hl Hs. destruct (H12 id t Hl Hs) as (t' & Hl' & Hs'). eauto.
Qed.

Lemma leftPending_alter (f : TaskInstance -> TaskInstance) k tbl :
  (∀ t, task_status (f t) ≠ Pending) -> leftPending tbl (alter f k tbl).
Proof.
  intros Hf id t Hl Hs. destruct (decide (k = id)) as [-> | Hne].
  - exists (f t). by rewrite lookup_alter_eq, Hl.
  - exists t. by rewrite lookup_alter_ne.
Qed.

Lemma leftPending_promoted tbl tbl' : promoted tbl tbl' -> leftPending tbl tbl'.
Proof.
  intros Hp id t Hl Hs. destruct (Hp id) as [Heq | (t0 & H0 & Hpend & H1)].
  - exists t. by rewrite Heq.
  - rewrite Hl in H0. injection H0 as <-. done.
Qed.

Lemma activateReadyTasks_leftPending tenantId orderId db :
  leftPending (taskInstance db) (taskInstance (activateReadyTasks tenantId orderId db).2).
Proof. apply leftPending_promoted, activateReadyTasks_promoted. Qed.

Lemma startTask_leftPending now taskId userId tenantId db :
  leftPending (taskInstance db) (taskInstance (startTask now taskId userId tenantId db).2).
Proof.
  rewrite startTask_taskInstance. repeat case_match; try apply leftPending_refl.
  by apply leftPending_alter.
Qed.

Lemma completeTask_leftPending now taskId userId tenantId db :
  leftPending (taskInstance db)
    (taskInstance (completeTask now taskId userId tenantId db).2).
Proof.
  rewrite completeTask_taskInstance. repeat case_match; try apply leftPending_refl.
  eapply leftPending_trans; [|apply activateReadyTasks_leftPending].
  by apply leftPending_alter.
Qed.

Lemma completeSubtask_leftPending now taskId subtaskId userId tenantId db :
  leftPending (taskInstance db)
    (taskInstance (completeSubtask now taskId subtaskId userId tenantId db).2).
Proof. rewrite completeSubtask_taskInstance. apply leftPending_refl. Qed.

(** C1, where the code departs from the claim: a call of [completeTask] on a
    task instance that is already [done] throws
    [Task non completabile (stato: done)]; it leaves the store as it is (so no
    second duration sample is recorded), but it does not succeed.  In
    particular, every call that follows a successful call throws. *)
Theorem completeTask_second_call_throws now now' taskId userId userId' tenantId db r db1 :
  completeTask now taskId userId tenantId db = (Ok r, db1) ->
  completeTask now' taskId userId' tenantId db1
  = (Throw (TaskNonCompletabile Done), db1).
Proof.
  intros Hc. destruct (completeTask_Ok_inv _ _ _ _ _ _ _ Hc) as (task & Hf & Hok).
  pose proof (completeTask_sets_done now taskId userId tenantId db task Hf Hok) as Hd.
  rewrite Hc in Hd. simpl in Hd.
  pose proof (completeTask_throws now' taskId userId' tenantId db1) as Ht.
  rewrite Hd in Ht. by apply Ht.
Qed.

Lemma completeTask_second_call_throws_witness :
  ∃ r db1,
    completeTask 60000 "A" "user-1" "tenant" queuedDB = (Ok r, db1)
    ∧ completeTask 61000 "A" "user-2" "tenant" db1
      = (Throw (TaskNonCompletabile Done), db1)
    ∧ length (taskDuration db1) = 1.
Proof.
  destruct (completeTask 60000 "A" "user-1" "tenant" queuedDB) as [r db1] eqn:Hc.
  assert (r = Ok (mkCompletion false false)) as ->.
  { change r with (r, db1).1. rewrite <- Hc. by vm_compute. }
  exists (mkCompletion false false), db1. split; [done|]. split.
  - exact (completeTask_second_call_throws _ 61000 _ _ "user-2" _ _ _ _ Hc).
  - change db1 with (Ok (mkCompletion false false), db1).2. rewrite <- Hc.
    by vm_compute.
Defined.

End EngineProps.

(** ** Store-passing operations: relations kept by every step *)

(** [preserves R c]: the store reached by [c] is related by [R] to the store it
    started from, whether [c] returns or throws. *)
Definition preserves {S A} (R : S -> S -> Prop) (c : ST S A) : Prop :=
  ∀ s, R s (c s).2.

Section Preserves.
Context {S : Type} (R : S -> S -> Prop).
Hypothesis R_refl : ∀ s, R s s.
Hypothesis R_trans : ∀ s1 s2 s3, R s1 s2 -> R s2 s3 -> R s1 s3.

Lemma preserves_ret {A} (a : A) : preserves R (mret a).
Proof. intros s. apply R_refl. Qed.

Lemma preserves_throw {A} e : preserves R (throw e : ST S A).
Proof. intros s. apply R_refl. Qed.

Lemma preserves_gets {A} (f : S -> A) : preserves R (gets f).
Proof. intros s. apply R_refl. Qed.

Lemma preserves_modify (f : S -> S) : (∀ s, R s (f s)) -> preserves R (modify f).
Proof. intros Hf s. apply Hf. Qed.

Lemma preserves_bind {A B} (c : ST S A) (k : A -> ST S B) :
  preserves R c -> (∀ a, preserves R (k a)) -> preserves R (c ≫= k).
Proof.
  intros Hc Hk s. unfold mbind, ST_bind. specialize (Hc s).
  destruct (c s) as [[a | e] s']; simpl in *; [|done].
  eapply R_trans; [done | apply Hk].
Qed.

Lemma preserves_foldM {A B} (f : B -> A -> ST S B) (l : list A) (b : B) :
  (∀ b a, preserves R (f b a)) -> preserves R (foldM f b l).
Proof.
  intros Hf. revert b. induction l as [|x l IH]; intros b; simpl.
  - apply preserves_ret.
  - apply preserves_bind; [apply Hf | intros b'; apply IH].
Qed.
End Preserves.

(** ** Offline layer *)
Module OfflineProps.
Import Offline.

Lemma sync_eqb_eq a b : sync_eqb a b = true <-> a = b.
Proof. destruct a, b; simpl; split; congruence. Qed.

Lemma evstatus_eqb_eq a b : evstatus_eqb a b = true <-> a = b.
Proof. destruct a, b; simpl; split; congruence. Qed.

(** *** Local task table: statuses that have left [pending] *)

Definition leftPendingL (tbl tbl' : gmap string LocalTask) : Prop :=
  ∀ id t, tbl !! id = Some t -> lt_status t ≠ Pending ->
          ∃ t', tbl' !! id = Some t' ∧ lt_status t' ≠ Pending.

Definition keepsLeftPending (db db' : LocalDB) : Prop :=
  leftPendingL (tasks db) (tasks db').

Lemma keepsLeftPending_refl db : keepsLeftPending db db.
Proof. intros id t ??. eauto. Qed.

Lemma keepsLeftPending_trans db1 db2 db3 :
  keepsLeftPending db1 db2 -> keepsLeftPending db2 db3 -> keepsLeftPending db1 db3.
Proof.
  intros H12 H23 id t Hl Hs. destruct (H12 id t Hl Hs) as (t' & Hl' & Hs'). eauto.
Qed.

Lemma keepsLeftPending_alter (f : LocalTask -> LocalTask) k db :
  (∀ t, lt_status (f t) ≠ Pending) -> keepsLeftPending db (with_tasks (alter f k) db).
Proof.
  intros Hf id t Hl Hs. simpl. destruct (decide (k = id)) as [-> | Hne].
  - exists (f t). by rewrite lookup_alter_eq, Hl.
  - exists t. by rewrite lookup_alter_ne.
Qed.

Lemma keepsLeftPending_same_tasks db db' :
  tasks db' = tasks db -> keepsLeftPending db db'.
Proof. intros Heq id t ??. rewrite Heq. eauto. Qed.

Create HintDb offline.
#[local] Hint Resolve keepsLeftPending_refl keepsLeftPending_trans : offline.

Lemma enqueueEvent_keepsLeftPending now tenantId userId type entityType entityId payload :
  preserves keepsLeftPending
    (enqueueEvent now tenantId userId type entityType entityId payload).
Proof. intros db. by apply keepsLeftPending_same_tasks. Qed.

Ltac preserves_step :=
  first
    [ apply enqueueEvent_keepsLeftPending
    | apply preserves_ret; auto with offline
    | apply preserves_throw; auto with offline
    | apply preserves_gets; auto with offline
    | apply preserves_modify; intros ?;
      first [ by apply keepsLeftPending_alter | by apply keepsLeftPending_same_tasks ]
    | apply preserves_foldM; [auto with offline | eauto with offline | intros ??]
    | apply preserves_bind; [eauto with offline | | intros ?]
    | case_match ].

Lemma startTaskOffline_keepsLeftPending now tenantId userId taskId :
  preserves keepsLeftPending (startTaskOffline now tenantId userId taskId).
Proof. unfold startTaskOffline. repeat preserves_step. Qed.

Lemma activateDependent_keepsLeftPending taskId allOrderTasks depTask :
  preserves keepsLeftPending (activateDependent taskId allOrderTasks depTask).
Proof. unfold activateDependent. repeat preserves_step. Qed.

Lemma completeTaskOffline_keepsLeftPending now tenantId userId taskId :
  preserves keepsLeftPending (completeTaskOffline now tenantId userId taskId).
Proof.
  unfold completeTaskOffline.
  repeat first [ apply activateDependent_keepsLeftPending | preserves_step ].
Qed.

Lemma completeSubtaskOffline_keepsLeftPending now tenantId userId taskId subtaskId :
  preserves keepsLeftPending (completeSubtaskOffline now tenantId userId taskId subtaskId).
Proof. unfold completeSubtaskOffline. repeat preserves_step. Qed.

(** *** Pull: what a pull leaves alone and what it overwrites *)

Lemma putItems_orders items db :
  orders (fold_left (λ d (it : string * ServerOrderItem),
                       with_orderItems (insert it.1 (orderItemFromServer it.2)) d)
                    items db) = orders db.
Proof. revert db. induction items as [|it items IH]; intros db; simpl; [done|]. by rewrite IH. Qed.

Lemma putSubtasks_tasks subs db :
  tasks (fold_left (λ d (sub : string * ServerSubtask),
                      with_subtasks (insert sub.1 (subtaskFromServer sub.2)) d)
                   subs db) = tasks db.
Proof. revert db. induction subs as [|x subs IH]; intros db; simpl; [done|]. by rewrite IH. Qed.

Lemma pullOrder_lookup db kv id :
  orders (pullOrder db kv) !! id =
    if decide (kv.1 = id) then
      match orders db !! id with
      | Some existing =>
          if sync_eqb (lo_syncStatus existing) local then Some existing
          else Some (orderFromServer kv.2)
      | None => Some (orderFromServer kv.2)
      end
    else orders db !! id.
Proof.
  unfold pullOrder. destruct (decide (kv.1 = id)) as [<- | Hne].
  - destruct (orders db !! kv.1) as [existing|] eqn:He.
    + destruct (sync_eqb _ _); [done|]. rewrite putItems_orders. simpl.
      by rewrite lookup_insert_eq.
    + rewrite putItems_orders. simpl. by rewrite lookup_insert_eq.
  - destruct (match orders db !! kv.1 with Some _ => _ | None => _ end); [done|].
    rewrite putItems_orders. simpl. by rewrite lookup_insert_ne.
Qed.

Lemma pullTask_lookup db kv id :
  tasks (pullTask db kv) !! id =
    if decide (kv.1 = id) then
      match tasks db !! id with
      | Some existing =>
          if sync_eqb (lt_syncStatus existing) synced then Some (taskFromServer kv.2)
          else Some existing
      | None => Some (taskFromServer kv.2)
      end
    else tasks db !! id.
Proof.
  unfold pullTask. destruct (decide (kv.1 = id)) as [<- | Hne].
  - destruct (tasks db !! kv.1) as [existing|] eqn:He.
    + destruct (sync_eqb _ _); simpl; [|done]. rewrite putSubtasks_tasks. simpl.
      by rewrite lookup_insert_eq.
    + rewrite putSubtasks_tasks. simpl. by rewrite lookup_insert_eq.
  - destruct (match tasks db !! kv.1 with Some _ => _ | None => _ end); [done|].
    rewrite putSubtasks_tasks. simpl. by rewrite lookup_insert_ne.
Qed.

Lemma pullDelivery_lookup db kv id :
  deliveries (pullDelivery db kv) !! id =
    if decide (kv.1 = id) then
      match deliveries db !! id with
      | Some existing =>
          if sync_eqb (ld_syncStatus existing) synced
          then Some (deliveryFromServer kv.2) else Some existing
      | None => Some (deliveryFromServer kv.2)
      end
    else deliveries db !! id.
Proof.
  unfold pullDelivery. destruct (decide (kv.1 = id)) as [<- | Hne].
  - destruct (deliveries db !! kv.1) as [existing|] eqn:He.
    + destruct (sync_eqb _ _); simpl; [|done]. by rewrite lookup_insert_eq.
    + simpl. by rewrite lookup_insert_eq.
  - destruct (match deliveries db !! kv.1 with Some _ => _ | None => _ end); [done|].
    simpl. by rewrite lookup_insert_ne.
Qed.

(** A task that is [local] or [modified] survives a pull unchanged. *)
Lemma pullActiveTasks_keeps_unsynced fetched db id t :
  tasks db !! id = Some t -> lt_syncStatus t ≠ synced ->
  tasks (pullActiveTasks fetched db) !! id = Some t.
Proof.
  intros Hl Hs. destruct fetched as [served|]; simpl; [|done].
  revert db Hl. induction served as [|kv served IH]; intros db Hl; simpl; [done|].
  apply IH. rewrite pullTask_lookup. case_decide; [|done].
  rewrite Hl. destruct (sync_eqb _ _) eqn:He; [|done].
  by apply sync_eqb_eq in He.
Qed.

Lemma pullActiveDeliveries_keeps_unsynced fetched db id d :
  deliveries db !! id = Some d -> ld_syncStatus d ≠ synced ->
  deliveries (pullActiveDeliveries fetched db) !! id = Some d.
Proof.
  intros Hl Hs. destruct fetched as [served|]; simpl; [|done].
  revert db Hl. induction served as [|kv served IH]; intros db Hl; simpl; [done|].
  apply IH. rewrite pullDelivery_lookup. case_decide; [|done].
  rewrite Hl. destruct (sync_eqb _ _) eqn:He; [|done].
  by apply sync_eqb_eq in He.
Qed.

(** An order survives a pull unchanged only when it is [local]. *)
Lemma pullActiveOrders_keeps_local fetched db id o :
  orders db !! id = Some o -> lo_syncStatus o = local ->
  orders (pullActiveOrders fetched db) !! id = Some o.
Proof.
  intros Hl Hs. destruct fetched as [served|]; simpl; [|done].
  revert db Hl. induction served as [|kv served IH]; intros db Hl; simpl; [done|].
  apply IH. rewrite pullOrder_lookup. case_decide; [|done].
  by rewrite Hl, Hs.
Qed.

(** A synced task, order or delivery is overwritten by the served copy. *)
Lemma pullActiveTasks_overwrites_synced db id t srv :
  tasks db !! id = Some t -> lt_syncStatus t = synced ->
  tasks (pullActiveTasks (Some [(id, srv)]) db) !! id = Some (taskFromServer srv).
Proof.
  intros Hl Hs. simpl. rewrite pullTask_lookup. simpl.
  rewrite decide_True by done. by rewrite Hl, Hs.
Qed.

Lemma pullActiveOrders_overwrites_synced db id o srv :
  orders db !! id = Some o -> lo_syncStatus o = synced ->
  orders (pullActiveOrders (Some [(id, srv)]) db) !! id = Some (orderFromServer srv).
Proof.
  intros Hl Hs. simpl. rewrite pullOrder_lookup. simpl.
  rewrite decide_True by done. by rewrite Hl, Hs.
Qed.

(** Sample local store: order [o1] was marked ready by an offline completion
    and is waiting for its event to be pushed. *)
Definition localOrder (status : OrderStatus) (sync : SyncStatus) : LocalOrder :=
  mkLocalOrder "tenant" (Some 7%Z) "phone" status None None 0 None None None None sync.

Definition servedOrder (status : OrderStatus) : ServerOrder :=
  mkServerOrder "tenant" (Some 7%Z) "phone" status None None 0 None None [].

Definition emptyLocalDB : LocalDB := mkLocalDB ∅ ∅ ∅ ∅ ∅ ∅ 0 0.

Definition modifiedOrderDB : LocalDB :=
  with_orders (insert "o1" (localOrder OrderReady modified)) emptyLocalDB.

(** C4, where the code departs from the claim: an order whose local copy is
    [modified] is overwritten by a pull ([pullActiveOrders] skips only the
    orders tagged [local]). *)
Theorem pullActiveOrders_overwrites_modified db id o srv :
  orders db !! id = Some o -> lo_syncStatus o = modified ->
  orders (pullActiveOrders (Some [(id, srv)]) db) !! id = Some (orderFromServer srv).
Proof.
  intros Hl Hs. simpl. rewrite pullOrder_lookup. simpl.
  rewrite decide_True by done. by rewrite Hl, Hs.
Qed.

Lemma pullActiveOrders_overwrites_modified_witness :
  orders modifiedOrderDB !! "o1" = Some (localOrder OrderReady modified)
  ∧ orders (pullActiveOrders (Some [("o1", servedOrder OrderPreparing)])
              modifiedOrderDB) !! "o1"
    = Some (orderFromServer (servedOrder OrderPreparing)).
Proof.
  split; [by vm_compute|].
  apply (pullActiveOrders_overwrites_modified modifiedOrderDB "o1"
           (localOrder OrderReady modified) (servedOrder OrderPreparing));
    [by vm_compute | done].
Defined.

(** *** Event queue *)

Lemma insertBySequence_Permutation e l : insertBySequence e l ≡ₚ e :: l.
Proof.
  induction l as [|x l IH]; simpl; [done|].
  destruct (Z.ltb _ _); [done|]. rewrite IH. apply Permutation_swap.
Qed.

Lemma sortBySequence_Permutation l : sortBySequence l ≡ₚ l.
Proof.
  induction l as [|x l IH]; simpl; [done|].
  rewrite insertBySequence_Permutation. by rewrite IH.
Qed.

Lemma eventsWithStatus_spec st db k ev :
  (k, ev) ∈ eventsWithStatus st db <->
  syncEvents db !! k = Some ev ∧ ev_status ev = st.
Proof.
  unfold eventsWithStatus. rewrite sortBySequence_Permutation, elem_of_query.
  simpl. by rewrite evstatus_eqb_eq.
Qed.

Lemma eventsWithStatus_NoDup st db : NoDup (eventsWithStatus st db).*1.
Proof.
  unfold eventsWithStatus. rewrite sortBySequence_Permutation. apply NoDup_query.
Qed.

(** [markEventFailed] on an event of the queue. *)
Lemma markEventFailed_lookup eventId error db e :
  syncEvents db !! eventId = Some e ->
  syncEvents (execL (markEventFailed eventId error) db) !! eventId =
    Some (ev_with (if Nat.leb 5 (ev_retryCount e) then EvConflict else EvFailed)
                  (ev_retryCount e + 1) (Some error) (ev_syncedAt e) e).
Proof.
  intros Hl. unfold execL, markEventFailed, mbind, ST_bind, gets, modify. simpl.
  rewrite Hl. simpl. by rewrite lookup_alter_eq, Hl.
Qed.

(** *** Push: which rows of the queue a push touches *)

Lemma putItems_syncEvents items db :
  syncEvents (fold_left (λ d (it : string * ServerOrderItem),
                           with_orderItems (insert it.1 (orderItemFromServer it.2)) d)
                        items db) = syncEvents db.
Proof. revert db. induction items as [|it items IH]; intros db; simpl; [done|]. by rewrite IH. Qed.

Lemma putSubtasks_syncEvents subs db :
  syncEvents (fold_left (λ d (sub : string * ServerSubtask),
                           with_subtasks (insert sub.1 (subtaskFromServer sub.2)) d)
                        subs db) = syncEvents db.
Proof. revert db. induction subs as [|x subs IH]; intros db; simpl; [done|]. by rewrite IH. Qed.

Lemma pullOrder_syncEvents db kv : syncEvents (pullOrder db kv) = syncEvents db.
Proof.
  unfold pullOrder.
  destruct (match orders db !! kv.1 with Some _ => _ | None => _ end); [done|].
  by rewrite putItems_syncEvents.
Qed.

Lemma pullTask_syncEvents db kv : syncEvents (pullTask db kv) = syncEvents db.
Proof.
  unfold pullTask.
  destruct (match tasks db !! kv.1 with Some _ => _ | None => _ end); [done|].
  by rewrite putSubtasks_syncEvents.
Qed.

Lemma pullDelivery_syncEvents db kv : syncEvents (pullDelivery db kv) = syncEvents db.
Proof.
  unfold pullDelivery.
  by destruct (match deliveries db !! kv.1 with Some _ => _ | None => _ end).
Qed.

Lemma pullActiveOrders_syncEvents fetched db :
  syncEvents (pullActiveOrders fetched db) = syncEvents db.
Proof.
  destruct fetched as [l|]; simpl; [|done].
  revert db. induction l as [|kv l IH]; intros db; simpl; [done|].
  by rewrite IH, pullOrder_syncEvents.
Qed.

Lemma pullActiveTasks_syncEvents fetched db :
  syncEvents (pullActiveTasks fetched db) = syncEvents db.
Proof.
  destruct fetched as [l|]; simpl; [|done].
  revert db. induction l as [|kv l IH]; intros db; simpl; [done|].
  by rewrite IH, pullTask_syncEvents.
Qed.

Lemma pullActiveDeliveries_syncEvents fetched db :
  syncEvents (pullActiveDeliveries fetched db) = syncEvents db.
Proof.
  destruct fetched as [l|]; simpl; [|done].
  revert db. induction l as [|kv l IH]; intros db; simpl; [done|].
  by rewrite IH, pullDelivery_syncEvents.
Qed.

Lemma pullEntityState_syncEvents srv entityType db :
  syncEvents (pullEntityState srv entityType db) = syncEvents db.
Proof.
  destruct entityType; simpl;
    auto using pullActiveOrders_syncEvents, pullActiveTasks_syncEvents,
               pullActiveDeliveries_syncEvents.
Qed.

Lemma reconcileEntity_syncEvents event data db :
  syncEvents (reconcileEntity event data db) = syncEvents db.
Proof. unfold reconcileEntity. by repeat case_match. Qed.

Lemma markEventSyncing_other eventId db k :
  k ≠ eventId ->
  syncEvents (execL (markEventSyncing eventId) db) !! k = syncEvents db !! k.
Proof. intros Hne. unfold execL, markEventSyncing, modify. simpl. by rewrite lookup_alter_ne. Qed.

Lemma markEventSynced_other now eventId db k :
  k ≠ eventId ->
  syncEvents (execL (markEventSynced now eventId) db) !! k = syncEvents db !! k.
Proof. intros Hne. unfold execL, markEventSynced, modify. simpl. by rewrite lookup_alter_ne. Qed.

Lemma markEventFailed_other eventId error db k :
  k ≠ eventId ->
  syncEvents (execL (markEventFailed eventId error) db) !! k = syncEvents db !! k.
Proof.
  intros Hne. unfold execL, markEventFailed, mbind, ST_bind, gets, modify. simpl.
  destruct (syncEvents db !! eventId); simpl; [|done]. by rewrite lookup_alter_ne.
Qed.

(** Whatever the response, [pushSingleEvent] changes no other row of the
    queue than that of the event it pushes. *)
Lemma pushSingleEvent_other net now eventId w k :
  k ≠ eventId ->
  syncEvents (w_db (pushSingleEvent net now eventId w)) !! k = syncEvents (w_db w) !! k.
Proof.
  intros Hne. unfold pushSingleEvent.
  destruct (syncEvents (w_db w) !! eventId) as [event|] eqn:He; [|done].
  destruct (evstatus_eqb (ev_status event) EvSynced); [done|].
  cbn [w_db].
  destruct (respond net (length (w_wire w)) eventId event) as [status data | message].
  - destruct (Nat.leb 200 status && Nat.leb status 299).
    { destruct (bool_decide (is_Some (body_order data)) || body_ok data);
        rewrite ?reconcileEntity_syncEvents, markEventSynced_other by done;
        by apply markEventSyncing_other. }
    destruct (Nat.eqb status 409).
    { rewrite pullEntityState_syncEvents, markEventSynced_other by done.
      by apply markEventSyncing_other. }
    destruct (Nat.leb 400 status && Nat.ltb status 500);
      rewrite markEventFailed_other by done; by apply markEventSyncing_other.
  - rewrite markEventFailed_other by done. by apply markEventSyncing_other.
Qed.

(** It issues at most one request, for the event as it finds it in the queue. *)
Lemma pushSingleEvent_wire net now eventId w :
  w_wire (pushSingleEvent net now eventId w) = w_wire w
  ∨ ∃ event response,
      syncEvents (w_db w) !! eventId = Some event
      ∧ w_wire (pushSingleEvent net now eventId w)
        = w_wire w ++ [(eventId, event, response)].
Proof.
  unfold pushSingleEvent.
  destruct (syncEvents (w_db w) !! eventId) as [event|] eqn:He; [|by left].
  destruct (evstatus_eqb (ev_status event) EvSynced); [by left|]. simpl.
  right. eauto.
Qed.

Definition pushAll (net : Net) (now : Z) (l : list (string * SyncEvent)) (w : World)
    : World :=
  fold_left (λ w' (event : string * SyncEvent), pushSingleEvent net now event.1 w') l w.

Lemma pushAll_cons net now x l w :
  pushAll net now (x :: l) w = pushAll net now l (pushSingleEvent net now x.1 w).
Proof. done. Qed.

(** The loop over the pending events is the loop over a prefix of them. *)
Lemma pushPending_prefix net now l w :
  ∃ l1 l2, l = l1 ++ l2 ∧ pushPending net now l w = pushAll net now l1 w.
Proof.
  revert w. induction l as [|x l IH]; intros w; simpl.
  - by exists [], [].
  - destruct (negb (onLine net (length (w_wire w)))).
    + by exists [], (x :: l).
    + destruct (IH (pushSingleEvent net now x.1 w)) as (l1 & l2 & -> & Heq).
      exists (x :: l1), l2. by rewrite Heq, pushAll_cons.
Qed.

(** Pushing the events of a snapshot [l] of the queue: the rows outside [l]
    stay as they are, and every request is for an event of [l]. *)
Lemma pushAll_spec net now l w :
  NoDup l.*1 ->
  (∀ k ev, (k, ev) ∈ l -> syncEvents (w_db w) !! k = Some ev) ->
  (∀ k, k ∉ l.*1 ->
     syncEvents (w_db (pushAll net now l w)) !! k = syncEvents (w_db w) !! k)
  ∧ ∃ new, w_wire (pushAll net now l w) = w_wire w ++ new
           ∧ ∀ r, r ∈ new -> r.1 ∈ l.
Proof.
  revert w. induction l as [|[k0 ev0] l IH]; intros w Hnd Hl.
  - split; [done|]. exists []. split; [by rewrite app_nil_r|]. intros r Hr. inversion Hr.
  - rewrite pushAll_cons. simpl in *. apply NoDup_cons in Hnd as [Hk0 Hnd].
    destruct (IH (pushSingleEvent net now k0 w) Hnd) as [Hrows (new & Hwire & Hnew)].
    { intros k ev Hin. rewrite pushSingleEvent_other.
      - apply Hl. by right.
      - intros ->. apply Hk0. apply list_elem_of_fmap. by exists (k0, ev). }
    split.
    + intros k Hk. apply not_elem_of_cons in Hk as [Hne Hk].
      rewrite Hrows by done. by apply pushSingleEvent_other.
    + rewrite Hwire.
      destruct (pushSingleEvent_wire net now k0 w) as [-> | (ev & resp & He & ->)].
      * exists new. split; [done|]. intros r Hr. right. by apply Hnew.
      * exists ((k0, ev, resp) :: new). split; [by rewrite <- app_assoc|].
        intros r Hr. apply elem_of_cons in Hr as [-> | Hr]; [|right; by apply Hnew].
        simpl. rewrite (Hl k0 ev0) in He by left. injection He as <-. left.
Qed.

Lemma pushAll_sub_spec net now l1 l2 w :
  NoDup (l1 ++ l2).*1 ->
  (∀ k ev, (k, ev) ∈ l1 ++ l2 -> syncEvents (w_db w) !! k = Some ev) ->
  (∀ k, k ∉ (l1 ++ l2).*1 ->
     syncEvents (w_db (pushAll net now l1 w)) !! k = syncEvents (w_db w) !! k)
  ∧ ∃ new, w_wire (pushAll net now l1 w) = w_wire w ++ new
           ∧ ∀ r, r ∈ new -> r.1 ∈ l1 ++ l2.
Proof.
  intros Hnd Hl. rewrite fmap_app in Hnd. apply NoDup_app in Hnd as (Hnd1 & _ & _).
  destruct (pushAll_spec net now l1 w Hnd1) as [Hrows (new & Hwire & Hnew)].
  { intros k ev Hin. apply Hl, elem_of_app. by left. }
  split.
  - intros k Hk. apply Hrows. intros Hin. apply Hk. rewrite fmap_app, elem_of_app. by left.
  - exists new. split; [done|]. intros r Hr. apply elem_of_app. left. by apply Hnew.
Qed.

(** One run of the push loop. *)
Lemma pushEvents_spec net now w :
  (∀ k ev, syncEvents (w_db w) !! k = Some ev ->
           ev_status ev ≠ EvFailed -> ev_status ev ≠ EvPending ->
           syncEvents (w_db (pushEvents net now w)) !! k = Some ev)
  ∧ ∃ new, w_wire (pushEvents net now w) = w_wire w ++ new
           ∧ ∀ r, r ∈ new ->
               (ev_status r.1.2 = EvFailed ∨ ev_status r.1.2 = EvPending)
               ∧ ∀ k ev, syncEvents (w_db w) !! k = Some ev ->
                         ev_status ev ≠ EvFailed -> ev_status ev ≠ EvPending ->
                         r.1.1 ≠ k.
Proof.
  unfold pushEvents. destruct (negb (onLine net (length (w_wire w)))).
  { split; [done|]. exists []. split; [by rewrite app_nil_r|]. intros r Hr. inversion Hr. }
  set (failed := getFailedEvents (w_db w)).
  fold (pushAll net now failed w). set (w1 := pushAll net now failed w).
  destruct (pushPending_prefix net now (getPendingEvents (w_db w1)) w1)
    as (l1 & l2 & Hsplit & ->).
  destruct (pushAll_spec net now failed w) as [Hrows1 (new1 & Hwire1 & Hnew1)].
  { apply eventsWithStatus_NoDup. }
  { intros k ev Hin. by apply eventsWithStatus_spec in Hin as [? _]. }
  fold w1 in Hrows1, Hwire1.
  destruct (pushAll_sub_spec net now l1 l2 w1) as [Hrows2 (new2 & Hwire2 & Hnew2)].
  { rewrite <- Hsplit. apply eventsWithStatus_NoDup. }
  { intros k ev Hin. rewrite <- Hsplit in Hin.
    by apply eventsWithStatus_spec in Hin as [? _]. }
  rewrite <- Hsplit in Hrows2, Hnew2.
  assert (∀ k ev, syncEvents (w_db w) !! k = Some ev ->
            ev_status ev ≠ EvFailed -> syncEvents (w_db w1) !! k = Some ev) as Hkeep1.
  { intros k ev Hl Hf. rewrite Hrows1; [done|]. intros Hin.
    apply list_elem_of_fmap in Hin as ([k' ev'] & -> & Hin).
    apply eventsWithStatus_spec in Hin as [Hl' Hs']. simpl in *. congruence. }
  split.
  - intros k ev Hl Hf Hp.
    rewrite Hrows2; [by apply Hkeep1|]. intros Hin.
    apply list_elem_of_fmap in Hin as ([k' ev'] & -> & Hin).
    apply eventsWithStatus_spec in Hin as [Hl' Hs']. simpl in *.
    rewrite (Hkeep1 _ _ Hl Hf) in Hl'. congruence.
  - exists (new1 ++ new2). split; [by rewrite Hwire2, Hwire1, app_assoc|].
    intros [[k ev] resp] Hr. simpl. apply elem_of_app in Hr as [Hr | Hr].
    + apply Hnew1 in Hr. apply eventsWithStatus_spec in Hr as [Hl Hs].
      split; [by left|]. intros k' ev' Hl' Hf Hp ->. congruence.
    + apply Hnew2 in Hr. apply eventsWithStatus_spec in Hr as [Hl Hs].
      split; [by right|]. intros k' ev' Hl' Hf Hp ->.
      rewrite (Hkeep1 _ _ Hl' Hf) in Hl. congruence.
Qed.

(** Successive runs of the push loop, one per entry of [times]. *)
Definition pushRounds (net : Net) (times : list Z) (w : World) : World :=
  fold_left (λ w' now, pushEvents net now w') times w.

Lemma pushRounds_cons net now times w :
  pushRounds net (now :: times) w = pushRounds net times (pushEvents net now w).
Proof. done. Qed.

Lemma pushRounds_spec net times w :
  (∀ k ev, syncEvents (w_db w) !! k = Some ev ->
           ev_status ev = EvConflict ->
           syncEvents (w_db (pushRounds net times w)) !! k = Some ev)
  ∧ ∃ new, w_wire (pushRounds net times w) = w_wire w ++ new
           ∧ ∀ r, r ∈ new ->
               (ev_status r.1.2 = EvFailed ∨ ev_status r.1.2 = EvPending)
               ∧ ∀ k ev, syncEvents (w_db w) !! k = Some ev ->
                         ev_status ev = EvConflict -> r.1.1 ≠ k.
Proof.
  revert w. induction times as [|now times IH]; intros w.
  - split; [done|]. exists []. split; [by rewrite app_nil_r|]. intros r Hr. inversion Hr.
  - rewrite pushRounds_cons.
    destruct (pushEvents_spec net now w) as [Hrows (new1 & Hwire1 & Hnew1)].
    destruct (IH (pushEvents net now w)) as [Hrows' (new2 & Hwire2 & Hnew2)].
    split.
    + intros k ev Hl Hs. apply Hrows'; [|done]. apply Hrows; congruence.
    + exists (new1 ++ new2).
      split; [by rewrite Hwire2, Hwire1, app_assoc|].
      intros r Hr. apply elem_of_app in Hr as [Hr | Hr].
      * destruct (Hnew1 r Hr) as [Hst Hne]. split; [done|].
        intros k ev Hl Hs. apply (Hne k ev Hl); congruence.
      * destruct (Hnew2 r Hr) as [Hst Hne]. split; [done|].
        intros k ev Hl Hs. apply (Hne k ev); [|done]. apply Hrows; congruence.
Qed.

(** Sample queue: three events enqueued with sequences 1, 2, 3; the
    authoritative side answers the first request of the session with a
    server error and accepts every later request. *)
Definition sampleEvent (taskId : string) (sequence : Z) (status : EventStatus)
    (retryCount : nat) : SyncEvent :=
  mkSyncEvent "tenant" "user" 0 TASK_COMPLETE EntTask taskId [] status retryCount None
    None sequence.

Definition threeEventsDB : LocalDB :=
  with_syncEvents
    (λ _, <["e1" := sampleEvent "t1" 1 EvPending 0]>
            (<["e2" := sampleEvent "t2" 2 EvPending 0]>
               (<["e3" := sampleEvent "t3" 3 EvPending 0]> ∅)))
    emptyLocalDB.

Definition okBody : Body := mkBody None None true "".

Definition firstRequestFails : Net :=
  mkNet (λ tick _ _, if Nat.eqb tick 0 then Http 500 okBody else Http 200 okBody)
        (λ _, mkServed None None None)
        (λ _, true).

(** C5, where the code departs from the claim: event 1 fails in the first
    round and is retried in the second, after events 2 and 3 were accepted;
    the authoritative side applies the events in the order 2, 3, 1. *)
Theorem push_applies_out_of_sequence_after_failure :
  map ev_sequence (getPendingEvents threeEventsDB).*2 = [1; 2; 3]%Z
  ∧ appliedSequences
      (pushRounds firstRequestFails [1000; 6000]%Z (mkWorld threeEventsDB []))
    = [2; 3; 1]%Z
  ∧ pushedIds
      (pushRounds firstRequestFails [1000; 6000]%Z (mkWorld threeEventsDB []))
    = ["e1"; "e2"; "e3"; "e1"].
Proof. by vm_compute. Qed.

(** C7: [markEventFailed] increments [retryCount] by one and records the
    error; the status becomes [conflict] when the count exceeds 5 and [failed]
    otherwise; and once the status is [conflict], no number of runs of the
    push loop issues a request for the event or changes it: every request is
    for an event found [pending] or [failed]. *)
Theorem markEventFailed_threshold_and_conflict_never_pushed
    (db : LocalDB) (eventId error : string) (e : SyncEvent)
    (net : Net) (times : list Z) (wire : list (string * SyncEvent * Response)) :
  syncEvents db !! eventId = Some e ->
  let db' := execL (markEventFailed eventId error) db in
  ∃ e', syncEvents db' !! eventId = Some e'
    ∧ ev_retryCount e' = ev_retryCount e + 1
    ∧ ev_lastError e' = Some error
    ∧ (ev_status e' = EvConflict <-> 5 < ev_retryCount e')
    ∧ (ev_status e' = EvFailed <-> ev_retryCount e' ≤ 5)
    ∧ (ev_status e' = EvConflict ->
       let w' := pushRounds net times (mkWorld db' wire) in
       syncEvents (w_db w') !! eventId = Some e'
       ∧ ∃ new, w_wire w' = wire ++ new
           ∧ ∀ r, r ∈ new ->
               r.1.1 ≠ eventId
               ∧ (ev_status r.1.2 = EvPending ∨ ev_status r.1.2 = EvFailed)).
Proof.
  intros Hl db'. eexists. split; [by apply markEventFailed_lookup|].
  unfold ev_with. cbn [ev_status ev_retryCount ev_lastError].
  split; [done|]. split; [done|].
  split; [|split].
  - destruct (Nat.leb_spec 5 (ev_retryCount e)); split; (done || lia).
  - destruct (Nat.leb_spec 5 (ev_retryCount e)); split; (done || lia).
  - intros Hc.
    destruct (pushRounds_spec net times (mkWorld db' wire)) as [Hrows (new & Hw & Hnew)].
    split.
    + apply Hrows; [|done]. by apply markEventFailed_lookup.
    + exists new. split; [done|]. intros r Hr. destruct (Hnew r Hr) as [Hst Hne].
      split; [|tauto]. apply (Hne eventId _ (markEventFailed_lookup _ error _ _ Hl) Hc).
Qed.

Lemma markEventFailed_threshold_and_conflict_never_pushed_witness :
  let db := with_syncEvents (insert "e9" (sampleEvent "t9" 9 EvFailed 5)) threeEventsDB in
  let db' := execL (markEventFailed "e9" "HTTP 500") db in
  ∃ e', syncEvents db' !! "e9" = Some e'
    ∧ ev_retryCount e' = 6
    ∧ ev_status e' = EvConflict
    ∧ syncEvents
        (w_db (pushRounds firstRequestFails [1000; 6000]%Z (mkWorld db' []))) !! "e9"
      = Some e'.
Proof.
  intros db db'.
  destruct (markEventFailed_threshold_and_conflict_never_pushed db "e9" "HTTP 500"
              (sampleEvent "t9" 9 EvFailed 5) firstRequestFails [1000; 6000]%Z [])
    as (e' & Hl & Hr & _ & Hc & _ & Hpush); [by vm_compute|].
  exists e'. split; [done|]. split; [done|].
  assert (ev_status e' = EvConflict) as Hs by (apply Hc; rewrite Hr; simpl; lia).
  split; [done|]. by apply Hpush.
Defined.


End OfflineProps.

(** ** Activation monotonicity on both sites *)
Module Monotonicity.
Import Engine EngineProps Offline OfflineProps.

(** The operations of the activation engine, on the authoritative side
    (workflow-engine.ts) and on the client (offline actions). *)
Inductive Op :=
| Activate (tenantId orderId : string)
| Start (now : Z) (taskId userId tenantId : string)
| Complete (now : Z) (taskId userId tenantId : string)
| CompleteSubtask (now : Z) (taskId subtaskId userId tenantId : string)
| StartOffline (now : Z) (tenantId userId taskId : string)
| CompleteOffline (now : Z) (tenantId userId taskId : string)
| CompleteSubtaskOffline (now : Z) (tenantId userId taskId subtaskId : string).

(** An operation is run to its end or to the exception it throws; the store
    it leaves behind is kept in both cases. *)
Definition runOp (s : ServerDB * LocalDB) (op : Op) : ServerDB * LocalDB :=
  match op with
  | Activate tenantId orderId =>
      ((activateReadyTasks tenantId orderId s.1).2, s.2)
  | Start now taskId userId tenantId =>
      ((startTask now taskId userId tenantId s.1).2, s.2)
  | Complete now taskId userId tenantId =>
      ((completeTask now taskId userId tenantId s.1).2, s.2)
  | CompleteSubtask now taskId subtaskId userId tenantId =>
      ((completeSubtask now taskId subtaskId userId tenantId s.1).2, s.2)
  | StartOffline now tenantId userId taskId =>
      (s.1, (startTaskOffline now tenantId userId taskId s.2).2)
  | CompleteOffline now tenantId userId taskId =>
      (s.1, (completeTaskOffline now tenantId userId taskId s.2).2)
  | CompleteSubtaskOffline now tenantId userId taskId subtaskId =>
      (s.1, (completeSubtaskOffline now tenantId userId taskId subtaskId s.2).2)
  end.

Definition runOps (ops : list Op) (s : ServerDB * LocalDB) : ServerDB * LocalDB :=
  fold_left runOp ops s.

Inductive Site := Server | Client.

Definition statusAt (site : Site) (s : ServerDB * LocalDB) (id : string)
    : option TaskStatus :=
  match site with
  | Server => task_status <$> taskInstance s.1 !! id
  | Client => lt_status <$> tasks s.2 !! id
  end.

Lemma runOp_leftPending s op :
  leftPending (taskInstance s.1) (taskInstance (runOp s op).1)
  ∧ leftPendingL (tasks s.2) (tasks (runOp s op).2).
Proof.
  pose proof (keepsLeftPending_refl (snd s)) as Hrefl.
  destruct op as [t o | n k u t | n k u t | n k sk u t | n t u k | n t u k | n t u k sk];
    simpl; (split; [|try exact Hrefl]); try apply leftPending_refl.
  - apply activateReadyTasks_leftPending.
  - apply startTask_leftPending.
  - apply completeTask_leftPending.
  - apply completeSubtask_leftPending.
  - exact (startTaskOffline_keepsLeftPending n t u k (snd s)).
  - exact (completeTaskOffline_keepsLeftPending n t u k (snd s)).
Qed.

Lemma runOp_statusAt site s op id st :
  statusAt site s id = Some st -> st ≠ Pending ->
  ∃ st', statusAt site (runOp s op) id = Some st' ∧ st' ≠ Pending.
Proof.
  destruct (runOp_leftPending s op) as [Hs Hc].
  destruct site; simpl; intros Hl Hne.
  - destruct (taskInstance s.1 !! id) as [t|] eqn:Ht; [|done].
    injection Hl as <-. destruct (Hs id t Ht Hne) as (t' & -> & Hne'). eauto.
  - destruct (tasks s.2 !! id) as [t|] eqn:Ht; [|done].
    injection Hl as <-. destruct (Hc id t Ht Hne) as (t' & -> & Hne'). eauto.
Qed.

(** C9: along every sequence of activations, starts, completions and subtask
    completions, on the server and on the client, a task instance whose status
    has left [pending] keeps a status other than [pending]. *)
Theorem status_never_returns_to_pending (ops : list Op) (site : Site)
    (s : ServerDB * LocalDB) (id : string) (st : TaskStatus) :
  statusAt site s id = Some st -> st ≠ Pending ->
  ∃ st', statusAt site (runOps ops s) id = Some st' ∧ st' ≠ Pending.
Proof.
  revert s st. induction ops as [|op ops IH]; intros s st Hl Hne; simpl.
  - eauto.
  - destruct (runOp_statusAt site s op id st Hl Hne) as (st1 & Hl1 & Hne1).
    by apply (IH _ st1).
Qed.

Lemma status_never_returns_to_pending_witness :
  let ops := [Complete 60000 "A" "user-1" "tenant"; Activate "tenant" "order-1";
              Start 61000 "B" "user-2" "tenant"; Complete 62000 "A" "user-2" "tenant";
              CompleteOffline 63000 "tenant" "user-1" "A"] in
  statusAt Server (queuedDB, emptyLocalDB) "A" = Some Queued
  ∧ ∃ st', statusAt Server (runOps ops (queuedDB, emptyLocalDB)) "A" = Some st'
           ∧ st' ≠ Pending.
Proof.
  intros ops. split; [by vm_compute|].
  apply (status_never_returns_to_pending ops Server (queuedDB, emptyLocalDB) "A" Queued);
    [by vm_compute | done].
Defined.

End Monotonicity.

(** ** JavaScript [Map] *)

Lemma jm_get_set_eq {V} (m : JsMap V) k v : jm_get (jm_set m k v) k = Some v.
Proof.
  induction m as [|[k' v'] m IH]; simpl.
  - by rewrite String.eqb_refl.
  - destruct (String.eqb_spec k k') as [-> | Hne]; simpl.
    + by rewrite String.eqb_refl.
    + destruct (String.eqb_spec k k'); [done|]. apply IH.
Qed.

Lemma jm_get_set_ne {V} (m : JsMap V) k k' v :
  k ≠ k' -> jm_get (jm_set m k v) k' = jm_get m k'.
Proof.
  intros Hne. induction m as [|[k0 v0] m IH]; simpl.
  - destruct (String.eqb_spec k' k); [congruence | done].
  - destruct (String.eqb_spec k k0) as [-> | Hne0]; simpl.
    + destruct (String.eqb_spec k' k0); [congruence | done].
    + destruct (String.eqb_spec k' k0); [done | apply IH].
Qed.

Lemma jm_get_None {V} (m : JsMap V) k : jm_get m k = None <-> k ∉ jm_keys m.
Proof.
  unfold jm_keys. induction m as [|[k' v'] m IH]; simpl.
  - split; [intros _ H; inversion H | done].
  - rewrite not_elem_of_cons. destruct (String.eqb_spec k k') as [-> | Hne].
    + split; [done | intros [? _]; done].
    + rewrite IH. tauto.
Qed.

Lemma jm_get_Some_keys {V} (m : JsMap V) k v : jm_get m k = Some v -> k ∈ jm_keys m.
Proof.
  intros Hg. destruct (decide (k ∈ jm_keys m)) as [|Hn]; [done|].
  apply jm_get_None in Hn. congruence.
Qed.

Lemma jm_get_elem_of {V} (m : JsMap V) k v : jm_get m k = Some v -> (k, v) ∈ m.
Proof.
  induction m as [|[k' v'] m IH]; simpl; [done|].
  destruct (String.eqb_spec k k') as [-> | Hne].
  - intros [= ->]. left.
  - intros H. right. by apply IH.
Qed.

Lemma jm_elem_of_get {V} (m : JsMap V) k v :
  NoDup (jm_keys m) -> (k, v) ∈ m -> jm_get m k = Some v.
Proof.
  unfold jm_keys. induction m as [|[k' v'] m IH]; simpl; intros Hnd Hin.
  - inversion Hin.
  - apply NoDup_cons in Hnd as [Hk Hnd]. apply elem_of_cons in Hin as [[= -> ->] | Hin].
    + by rewrite String.eqb_refl.
    + destruct (String.eqb_spec k k') as [-> | Hne]; [|by apply IH].
      exfalso. apply Hk. apply list_elem_of_fmap. by exists (k', v).
Qed.

(** A new key goes last. *)
Lemma jm_set_new {V} (m : JsMap V) k v : k ∉ jm_keys m -> jm_set m k v = m ++ [(k, v)].
Proof.
  unfold jm_keys. induction m as [|[k' v'] m IH]; simpl; intros Hk; [done|].
  apply not_elem_of_cons in Hk as [Hne Hk].
  destruct (String.eqb_spec k k'); [done|]. by rewrite IH.
Qed.


Lemma jm_keys_set_new {V} (m : JsMap V) k v :
  k ∉ jm_keys m -> jm_keys (jm_set m k v) = jm_keys m ++ [k].
Proof. intros Hk. rewrite jm_set_new by done. unfold jm_keys. by rewrite fmap_app. Qed.


Lemma jm_has_true {V} (m : JsMap V) k : jm_has m k = true <-> k ∈ jm_keys m.
Proof.
  unfold jm_has. destruct (jm_get m k) eqn:Hg.
  - split; [intros _; by eapply jm_get_Some_keys | done].
  - apply jm_get_None in Hg. split; [done | intros; done].
Qed.

(** ** ETA calculator *)
Module EtaProps.
Import Eta.

(** The degree read by [inDegree.get(id) ?? 0]. *)
Definition deg (inDegree : JsMap Z) (id : string) : Z := default 0%Z (jm_get inDegree id).

(** The list read by [adjacency.get(id) ?? []]. *)
Definition adj (adjacency : JsMap (list string)) (id : string) : list string :=
  default [] (jm_get adjacency id).

Lemma deg_set_eq D k v : deg (jm_set D k v) k = v.
Proof. unfold deg. by rewrite jm_get_set_eq. Qed.

Lemma deg_set_ne D k k' v : k ≠ k' -> deg (jm_set D k v) k' = deg D k'.
Proof. intros. unfold deg. by rewrite jm_get_set_ne. Qed.

(** *** The loop terminates within [tasks.length] iterations *)






(** *** Initialisation of [inDegree], [adjacency] and [taskMap] *)

(** The dependents of [p], as [adjacency] lists them: one entry per
    occurrence of [p] in the [dependsOn] of a task, in the order of [tasks]. *)
Definition adjList (tasks : list (string * TaskInstance)) (p : string) : list string :=
  flat_map (λ kv : string * TaskInstance,
              map (λ _, kv.1) (List.filter (String.eqb p) (task_dependsOn kv.2)))
           tasks.

Lemma adj_set_eq A k l : adj (jm_set A k l) k = l.
Proof. unfold adj. by rewrite jm_get_set_eq. Qed.

Lemma adj_set_ne A k k' l : k ≠ k' -> adj (jm_set A k l) k' = adj A k'.
Proof. intros. unfold adj. by rewrite jm_get_set_ne. Qed.

Lemma adj_ensure A k p : adj (if jm_has A k then A else jm_set A k []) p = adj A p.
Proof.
  destruct (jm_has A k) eqn:Hh; [done|].
  destruct (decide (k = p)) as [-> | Hne]; [|by apply adj_set_ne].
  rewrite adj_set_eq. unfold adj, jm_has in *. by destruct (jm_get A p).
Qed.

Lemma addEdge_adj id A dep p :
  adj (addEdge id A dep) p = adj A p ++ (if String.eqb p dep then [id] else []).
Proof.
  unfold addEdge. destruct (String.eqb_spec p dep) as [-> | Hne].
  - rewrite adj_set_eq. fold (adj (if jm_has A dep then A else jm_set A dep []) dep).
    by rewrite adj_ensure.
  - rewrite adj_set_ne by done. rewrite adj_ensure. by rewrite app_nil_r.
Qed.

Lemma addEdge_fold_adj id deps A p :
  adj (fold_left (addEdge id) deps A) p
  = adj A p ++ map (λ _, id) (List.filter (String.eqb p) deps).
Proof.
  revert A. induction deps as [|d deps IH]; intros A; simpl.
  - by rewrite app_nil_r.
  - rewrite IH, addEdge_adj. destruct (String.eqb p d); simpl.
    + by rewrite <- app_assoc.
    + by rewrite app_nil_r.
Qed.

Lemma initStep_adj acc kv p :
  adj (initStep acc kv).2 p
  = adj acc.2 p ++ map (λ _, kv.1) (List.filter (String.eqb p) (task_dependsOn kv.2)).
Proof. unfold initStep. simpl. by rewrite addEdge_fold_adj, adj_ensure. Qed.

Lemma init_adj tasks acc p :
  adj (fold_left initStep tasks acc).2 p = adj acc.2 p ++ adjList tasks p.
Proof.
  revert acc. induction tasks as [|kv tasks IH]; intros acc; simpl.
  - by rewrite app_nil_r.
  - rewrite IH, initStep_adj. by rewrite <- app_assoc.
Qed.

Lemma elem_of_adjList tasks p x :
  x ∈ adjList tasks p <-> ∃ t, (x, t) ∈ tasks ∧ p ∈ task_dependsOn t.
Proof.
  unfold adjList. rewrite list_elem_of_In, in_flat_map. split.
  - intros ([k t] & Hin & Hx). simpl in Hx. apply in_map_iff in Hx as (d & <- & Hd).
    apply filter_In in Hd as [Hd He]. apply String.eqb_eq in He. subst d.
    exists t. split; by apply list_elem_of_In.
  - intros (t & Hin & Hp). exists (x, t). split; [by apply list_elem_of_In|].
    simpl. apply in_map_iff. exists p. split; [done|].
    apply filter_In. split; [by apply list_elem_of_In | apply String.eqb_refl].
Qed.






Section Termination.
Variable now : Z.
Variable stationQueues : JsMap StationQueue.
Variable stationNameOf : option string -> option string.
Variable tasks : list (string * TaskInstance).
Variable adjacency : JsMap (list string).
Hypothesis adjacency_tasks : ∀ p x, x ∈ adj adjacency p -> x ∈ tasks.*1.

End Termination.


(** *** Counting dependencies *)

(** Occurrences of [x] in [l]. *)
Definition occ (x : string) (l : list string) : nat :=
  length (List.filter (String.eqb x) l).

(** Entries of [deps] that are not yet in [P]. *)
Definition pend (P deps : list string) : nat :=
  length (List.filter (λ d, negb (includes P d)) deps).

Lemma occ_cons x y l : occ x (y :: l) = (if String.eqb x y then 1 else 0) + occ x l.
Proof. unfold occ. simpl. by destruct (String.eqb x y). Qed.

Lemma occ_cons_eq x l : occ x (x :: l) = S (occ x l).
Proof. by rewrite occ_cons, String.eqb_refl. Qed.

Lemma occ_cons_ne x y l : x ≠ y -> occ x (y :: l) = occ x l.
Proof. intros Hne. rewrite occ_cons. by destruct (String.eqb_spec x y). Qed.

Lemma occ_app x l1 l2 : occ x (l1 ++ l2) = occ x l1 + occ x l2.
Proof. unfold occ. by rewrite List.filter_app, length_app. Qed.

Lemma occ_zero x l : occ x l = 0 <-> x ∉ l.
Proof.
  induction l as [|y l IH]; [split; [intros _ H; inversion H | done]|].
  rewrite occ_cons, not_elem_of_cons. destruct (String.eqb_spec x y) as [-> | Hne].
  - split; [lia | intros [? _]; done].
  - rewrite <- IH. simpl. tauto.
Qed.

Lemma occ_pos x l : 0 < occ x l <-> x ∈ l.
Proof.
  destruct (decide (x ∈ l)) as [Hin | Hnin].
  - split; [done|]. intros _. destruct (occ x l) eqn:Ho; [|lia].
    by apply occ_zero in Ho.
  - apply occ_zero in Hnin as Ho. rewrite Ho. split; [lia | done].
Qed.

Lemma includes_app P1 P2 d : includes (P1 ++ P2) d = includes P1 d || includes P2 d.
Proof. unfold includes. apply existsb_app. Qed.

Lemma includes_false P d : includes P d = false <-> d ∉ P.
Proof.
  rewrite <- includes_true. destruct (includes P d); split; congruence.
Qed.

Lemma pend_nil deps : pend [] deps = length deps.
Proof. unfold pend. induction deps; simpl; [done | by f_equal]. Qed.

Lemma pend_snoc P p deps : p ∉ P -> pend P deps = pend (P ++ [p]) deps + occ p deps.
Proof.
  intros Hp. unfold pend. induction deps as [|d deps IH]; [done|].
  rewrite occ_cons. simpl. rewrite includes_app. simpl.
  rewrite orb_false_r, (String.eqb_sym d p).
  destruct (String.eqb_spec p d) as [<- | Hne].
  - apply includes_false in Hp. rewrite Hp. simpl. lia.
  - rewrite orb_false_r. destruct (includes P d); simpl; lia.
Qed.

Lemma pend_zero P deps : pend P deps = 0 <-> ∀ d, d ∈ deps -> d ∈ P.
Proof.
  unfold pend. induction deps as [|d deps IH]; simpl.
  - split; [intros _ d H; inversion H | done].
  - destruct (includes P d) eqn:Hi; simpl.
    + apply includes_true in Hi. rewrite IH. split.
      * intros H x Hx. apply elem_of_cons in Hx as [-> | Hx]; auto.
      * intros H x Hx. apply H. by right.
    + apply includes_false in Hi. split; [lia|]. intros H. exfalso. apply Hi, H. left.
Qed.

(** *** Processing the dependents of a task *)

(** The ids pushed while walking [L], in the order in which they are pushed. *)
Fixpoint pushes (L : list string) (D : JsMap Z) : list string :=
  match L with
  | [] => []
  | a :: L' =>
      (if Z.eqb (deg D a - 1) 0 then [a] else [])
      ++ pushes L' (jm_set D a (deg D a - 1)%Z)
  end.

Definition decr (L : list string) (D : JsMap Z) : JsMap Z :=
  fold_left (λ D a, jm_set D a (deg D a - 1)%Z) L D.

Lemma relax_fold L D Qu : fold_left relax L (D, Qu) = (decr L D, Qu ++ pushes L D).
Proof.
  revert D Qu. induction L as [|a L IH]; intros D Qu; simpl.
  - by rewrite app_nil_r.
  - unfold relax at 2. simpl. fold (deg D a). rewrite IH. unfold decr. simpl.
    f_equal. destruct (Z.eqb _ 0); [by rewrite <- app_assoc | done].
Qed.

Lemma deg_decr L D x : deg (decr L D) x = (deg D x - Z.of_nat (occ x L))%Z.
Proof.
  revert D. unfold decr. induction L as [|a L IH]; intros D; simpl.
  - unfold occ. simpl. lia.
  - rewrite IH. destruct (decide (x = a)) as [Heq | Hne].
    + subst a. rewrite deg_set_eq, occ_cons_eq. lia.
    + rewrite deg_set_ne, occ_cons_ne by done. lia.
Qed.

(** When no entry is decremented below zero, an id is pushed exactly when it
    reaches zero, and it is pushed once. *)
Lemma pushes_spec L D :
  (∀ x, x ∈ L -> (Z.of_nat (occ x L) ≤ deg D x)%Z) ->
  NoDup (pushes L D)
  ∧ ∀ x, x ∈ pushes L D <-> x ∈ L ∧ deg D x = Z.of_nat (occ x L).
Proof.
  revert D. induction L as [|a L IH]; intros D HL; simpl.
  - split; [constructor|]. intros x. split; [intros H; inversion H | intros [H _]; inversion H].
  - assert (∀ x, x ∈ L ->
              (Z.of_nat (occ x L) ≤ deg (jm_set D a (deg D a - 1)%Z) x)%Z) as HL'.
    { intros x Hx. specialize (HL x (list_elem_of_further _ _ _ Hx)).
      destruct (decide (x = a)) as [Heq | Hne].
      - subst x. rewrite deg_set_eq. rewrite occ_cons_eq in HL. lia.
      - rewrite deg_set_ne by done. by rewrite occ_cons_ne in HL. }
    destruct (IH _ HL') as [Hnd Hmem].
    assert (Z.of_nat (occ a (a :: L)) ≤ deg D a)%Z as Ha by (apply HL; left).
    rewrite occ_cons_eq in Ha.
    split.
    + destruct (Z.eqb_spec (deg D a - 1) 0) as [He | Hne]; simpl; [|done].
      apply NoDup_cons. split; [|done].
      intros Hin. apply Hmem in Hin as [Hin Hd]. rewrite deg_set_eq in Hd.
      apply occ_pos in Hin. lia.
    + intros x. rewrite elem_of_app, Hmem, elem_of_cons.
      destruct (decide (x = a)) as [Heq | Hne].
      * subst x. rewrite deg_set_eq, occ_cons_eq.
        destruct (Z.eqb_spec (deg D a - 1) 0) as [He | Hne].
        -- rewrite list_elem_of_singleton. split; [|intros _; by left].
           intros _. split; [by left|]. lia.
        -- split.
           ++ intros [H | [Hin Hd]]; [inversion H|]. split; [by left | lia].
           ++ intros [_ Hd]. right. split; [|lia].
              apply occ_pos. lia.
      * rewrite deg_set_ne, occ_cons_ne by done.
        split.
        -- intros [H | [Hin Hd]]; [|by split; [right|]].
           destruct (Z.eqb _ 0); [|inversion H].
           apply list_elem_of_singleton in H. congruence.
        -- intros [[? | Hin] Hd]; [congruence|]. by right.
Qed.

(** *** The traversal on tasks with distinct ids *)

Lemma occ_const k id (l : list string) :
  occ k (map (λ _, id) l) = if String.eqb k id then length l else 0.
Proof.
  induction l as [|x l IH]; simpl; [by destruct (String.eqb k id)|].
  rewrite occ_cons, IH. by destruct (String.eqb k id).
Qed.

Lemma adjList_occ tasks k t p :
  NoDup tasks.*1 -> (k, t) ∈ tasks -> occ k (adjList tasks p) = occ p (task_dependsOn t).
Proof.
  induction tasks as [|[k0 t0] tasks IH]; simpl; intros Hnd Hin; [inversion Hin|].
  apply NoDup_cons in Hnd as [Hk0 Hnd]. rewrite occ_app, occ_const.
  apply elem_of_cons in Hin as [[= -> ->] | Hin].
  - rewrite String.eqb_refl.
    assert (occ k0 (adjList tasks p) = 0) as ->.
    { apply occ_zero. intros Hx. apply elem_of_adjList in Hx as (t & Hx & _).
      apply Hk0. apply list_elem_of_fmap. by exists (k0, t). }
    unfold occ. lia.
  - destruct (String.eqb_spec k k0) as [-> | Hne].
    + exfalso. apply Hk0. apply list_elem_of_fmap. by exists (k0, t).
    + by rewrite IH.
Qed.

Lemma set_fold_new (tasks : list (string * TaskInstance)) (m : JsMap TaskInstance) :
  NoDup (jm_keys m ++ tasks.*1) ->
  fold_left (λ m (kv : string * TaskInstance), jm_set m kv.1 kv.2) tasks m = m ++ tasks.
Proof.
  revert m. induction tasks as [|[k t] tasks IH]; intros m Hnd; simpl.
  - by rewrite app_nil_r.
  - assert (k ∉ jm_keys m) as Hk.
    { apply NoDup_app in Hnd as (_ & Hd & _). intros Hin. apply (Hd k Hin). left. }
    rewrite jm_set_new by done. rewrite IH.
    + by rewrite <- app_assoc.
    + unfold jm_keys in *. rewrite fmap_app. simpl. by rewrite <- app_assoc.
Qed.

Lemma initStep_fold_inDegree tasks acc :
  NoDup (jm_keys acc.1 ++ tasks.*1) ->
  (fold_left initStep tasks acc).1
  = acc.1 ++ map (λ kv : string * TaskInstance,
                    (kv.1, Z.of_nat (length (task_dependsOn kv.2)))) tasks.
Proof.
  revert acc. induction tasks as [|[k t] tasks IH]; intros acc Hnd; simpl.
  - by rewrite app_nil_r.
  - assert (k ∉ jm_keys acc.1) as Hk.
    { apply NoDup_app in Hnd as (_ & Hd & _). intros Hin. apply (Hd k Hin). left. }
    rewrite IH; simpl.
    + rewrite jm_set_new by done. by rewrite <- app_assoc.
    + rewrite jm_keys_set_new by done. by rewrite <- app_assoc.
Qed.

Section Traversal.
Variable now : Z.
Variable stationQueues : JsMap StationQueue.
Variable stationNameOf : option string -> option string.
Variable tasks : list (string * TaskInstance).
Hypothesis tasks_NoDup : NoDup tasks.*1.

Lemma taskMap_get k t : jm_get (mkTaskMap tasks) k = Some t <-> (k, t) ∈ tasks.
Proof.
  unfold mkTaskMap. rewrite set_fold_new by done. simpl. split.
  - apply jm_get_elem_of.
  - by apply jm_elem_of_get.
Qed.

Lemma task_unique k t t' : (k, t) ∈ tasks -> (k, t') ∈ tasks -> t = t'.
Proof. intros H H'. apply taskMap_get in H, H'. congruence. Qed.

Definition inDegree0 : JsMap Z := (fold_left initStep tasks ([], [])).1.
Definition adjacency0 : JsMap (list string) := (fold_left initStep tasks ([], [])).2.
Definition queue0 : list string :=
  map fst (List.filter (λ kv : string * Z, Z.eqb kv.2 0) inDegree0).

Lemma inDegree0_eq :
  inDegree0 = map (λ kv : string * TaskInstance,
                     (kv.1, Z.of_nat (length (task_dependsOn kv.2)))) tasks.
Proof. unfold inDegree0. by rewrite initStep_fold_inDegree. Qed.

Lemma inDegree0_keys : jm_keys inDegree0 = tasks.*1.
Proof.
  rewrite inDegree0_eq. unfold jm_keys. rewrite <- list_fmap_compose.
  by apply list_fmap_ext.
Qed.

Lemma inDegree0_deg k t :
  (k, t) ∈ tasks -> deg inDegree0 k = Z.of_nat (length (task_dependsOn t)).
Proof.
  intros Hin. unfold deg. erewrite jm_elem_of_get; [done | |].
  - by rewrite inDegree0_keys.
  - rewrite inDegree0_eq. apply list_elem_of_fmap. by exists (k, t).
Qed.

Lemma queue0_NoDup : NoDup queue0.
Proof.
  unfold queue0. apply (NoDup_fst_List_filter _ inDegree0).
  change (NoDup (jm_keys inDegree0)). by rewrite inDegree0_keys.
Qed.

Lemma queue0_spec k :
  k ∈ queue0 <-> ∃ t, (k, t) ∈ tasks ∧ task_dependsOn t = [].
Proof.
  unfold queue0. rewrite inDegree0_eq. split.
  - intros Hk. apply list_elem_of_fmap in Hk as ([k' v] & -> & Hin).
    apply elem_of_List_filter in Hin as [Hin Hz]. simpl in *.
    apply list_elem_of_fmap in Hin as ([k0 t] & [= -> ->] & Hin).
    exists t. split; [done|]. apply Z.eqb_eq in Hz.
    destruct (task_dependsOn t); [done | simpl in Hz; lia].
  - intros (t & Hin & Hd). apply list_elem_of_fmap. exists (k, 0%Z). split; [done|].
    apply elem_of_List_filter. split; [|done].
    apply list_elem_of_fmap. exists (k, t). split; [|done]. simpl. by rewrite Hd.
Qed.

Lemma adjacency0_adj p : adj adjacency0 p = adjList tasks p.
Proof. unfold adjacency0. by rewrite init_adj. Qed.

Lemma breakdownOf_ext (E E' : JsMap Q) k t :
  (∀ d, d ∈ task_dependsOn t -> jm_get E d = jm_get E' d) ->
  breakdownOf now stationQueues stationNameOf E k t
  = breakdownOf now stationQueues stationNameOf E' k t.
Proof.
  intros Hext. unfold breakdownOf.
  assert (maxDepETAOf E (task_dependsOn t) = maxDepETAOf E' (task_dependsOn t)) as ->;
    [|done].
  unfold maxDepETAOf.
  assert (map (λ d, default 0%Q (jm_get E d)) (task_dependsOn t)
          = map (λ d, default 0%Q (jm_get E' d)) (task_dependsOn t)) as ->; [|done].
  apply map_ext_in. intros d Hd.
  rewrite Hext; [done|]. by apply list_elem_of_In.
Qed.

Definition processed (st : KahnState) : list string := jm_keys (taskETAMinutes st).

(** What holds of the state of the loop before and after every iteration. *)
Record Inv (st : KahnState) : Prop := mkInv {
  inv_nodup : NoDup (queue st ++ processed st);
  inv_ids : ∀ x, x ∈ queue st ++ processed st -> x ∈ tasks.*1;
  inv_deg : ∀ k t, (k, t) ∈ tasks ->
    deg (inDegree st) k = Z.of_nat (pend (processed st) (task_dependsOn t));
  inv_ready : ∀ k t, (k, t) ∈ tasks ->
    (k ∈ queue st ++ processed st <-> pend (processed st) (task_dependsOn t) = 0);
  inv_eta : ∀ k e, jm_get (taskETAMinutes st) k = Some e ->
    ∃ t, (k, t) ∈ tasks
         ∧ (∀ d, d ∈ task_dependsOn t -> d ∈ processed st)
         ∧ e = totalMinutes
                 (breakdownOf now stationQueues stationNameOf (taskETAMinutes st) k t);
  inv_bd_keys : jm_keys (taskBreakdown st) = processed st;
  inv_bd : ∀ k b, (k, b) ∈ taskBreakdown st ->
    ∃ t, (k, t) ∈ tasks
         ∧ b = breakdownOf now stationQueues stationNameOf (taskETAMinutes st) k t;
  inv_bd_eta :
    taskETAMinutes st
    = map (λ kv : string * ETABreakdown, (kv.1, totalMinutes kv.2)) (taskBreakdown st);
}.

Lemma Inv_initial : Inv (mkKahn inDegree0 queue0 [] []).
Proof.
  split; unfold processed; simpl.
  - rewrite app_nil_r. apply queue0_NoDup.
  - intros x. rewrite app_nil_r. intros Hx. apply queue0_spec in Hx as (t & Hin & _).
    apply list_elem_of_fmap. by exists (x, t).
  - intros k t Hin. rewrite pend_nil. by apply inDegree0_deg.
  - intros k t Hin. rewrite app_nil_r, pend_nil, queue0_spec. split.
    + intros (t' & Hin' & Hd). rewrite (task_unique k t t') by done. by rewrite Hd.
    + intros Hl. exists t. split; [done|]. by destruct (task_dependsOn t).
  - done.
  - done.
  - intros k b Hin. inversion Hin.
  - done.
Qed.

Lemma Inv_step st p rest st' :
  Inv st -> queue st = p :: rest ->
  kahnStep now stationQueues stationNameOf (mkTaskMap tasks) adjacency0 p rest st
  = Some st' ->
  Inv st'.
Proof.
  intros HI Hq Hstep. destruct HI as [Hnd Hids Hdeg Hready Heta Hbk Hbd Hbe].
  rewrite Hq in Hnd, Hids, Hready. unfold kahnStep in Hstep.
  destruct (jm_get (mkTaskMap tasks) p) as [tp|] eqn:Htp; [|done].
  apply taskMap_get in Htp. injection Hstep as <-.
  set (P := processed st) in *. set (E := taskETAMinutes st) in *.
  fold (adj adjacency0 p). rewrite adjacency0_adj, relax_fold.
  set (L := adjList tasks p). set (D := inDegree st) in *.
  set (bp := breakdownOf now stationQueues stationNameOf E p tp).
  (* the popped task is new, and all its dependencies are processed *)
  simpl in Hnd. apply NoDup_cons in Hnd as Hnd'. destruct Hnd' as [Hp Hnd'].
  assert (p ∉ P) as HpP by (intros H; apply Hp, elem_of_app; by right).
  assert (∀ d, d ∈ task_dependsOn tp -> d ∈ P) as Hdeps_p.
  { apply pend_zero, (Hready p tp Htp). left. }
  assert (jm_keys (jm_set E p (totalMinutes bp)) = P ++ [p]) as HP'
    by (by apply jm_keys_set_new).
  (* the entries of [L] are dependents of [p], none of them ready before *)
  assert (∀ x, x ∈ L -> ∃ t, (x, t) ∈ tasks ∧ p ∈ task_dependsOn t
                          ∧ occ x L = occ p (task_dependsOn t)
                          ∧ deg D x = Z.of_nat (pend (P ++ [p]) (task_dependsOn t)
                                                + occ p (task_dependsOn t))) as HL.
  { intros x Hx. apply elem_of_adjList in Hx as (t & Hin & Hpd).
    exists t. split; [done|]. split; [done|]. split; [by apply adjList_occ|].
    rewrite (Hdeg x t Hin). f_equal. by apply pend_snoc. }
  destruct (pushes_spec L D) as [HNnd HN].
  { intros x Hx. destruct (HL x Hx) as (t & _ & _ & -> & ->). lia. }
  assert (∀ x, x ∈ pushes L D -> x ∉ p :: rest ++ P) as Hnew.
  { intros x Hx. apply HN in Hx as [Hx Hd].
    destruct (HL x Hx) as (t & Hin & Hpd & Ho & Hd').
    apply occ_pos in Hpd. intros Hold.
    assert (pend P (task_dependsOn t) = 0) as Hz by (by apply (Hready x t Hin)).
    rewrite (pend_snoc P p) in Hz by done. lia. }
  split; unfold processed; simpl; rewrite ?HP'.
  - (* NoDup *)
    assert ((rest ++ pushes L D) ++ P ++ [p] ≡ₚ pushes L D ++ p :: rest ++ P) as ->.
    { rewrite (comm (++) rest), <- app_assoc. f_equiv.
      rewrite app_assoc, <- (comm (++) [p]). done. }
    apply NoDup_app. split; [done|]. split; [done|]. by apply NoDup_cons.
  - (* ids *)
    intros x Hx. rewrite !elem_of_app in Hx.
    destruct Hx as [[Hx | Hx] | [Hx | Hx]].
    + apply Hids. right. apply elem_of_app. by left.
    + apply HN in Hx as [Hx _]. destruct (HL x Hx) as (t & Hin & _).
      apply list_elem_of_fmap. by exists (x, t).
    + apply Hids. right. apply elem_of_app. by right.
    + apply list_elem_of_singleton in Hx as ->. apply Hids. left.
  - (* degrees *)
    intros k t Hin. rewrite deg_decr, (Hdeg k t Hin). unfold L.
    rewrite (adjList_occ tasks k t p), (pend_snoc P p) by done. lia.
  - (* ready *)
    intros k t Hin. specialize (Hready k t Hin).
    pose proof (pend_snoc P p (task_dependsOn t) HpP) as Hps.
    rewrite !elem_of_app, list_elem_of_singleton. split.
    + intros Hk.
      assert (k ∈ pushes L D ∨ k ∈ p :: rest ++ P) as [HkN | Hold].
      { rewrite elem_of_cons, elem_of_app. tauto. }
      * apply HN in HkN as [HkL Hd]. destruct (HL k HkL) as (t' & Hin' & _ & Ho & Hd').
        rewrite (task_unique k t t') by done. lia.
      * apply Hready in Hold. lia.
    + intros Hz. destruct (decide (p ∈ task_dependsOn t)) as [Hpd | Hpd].
      * left. right. apply HN. split.
        -- apply elem_of_adjList. eauto.
        -- rewrite (Hdeg k t Hin). unfold L.
           rewrite (adjList_occ tasks k t p) by done. lia.
      * apply occ_zero in Hpd.
        assert (k ∈ p :: rest ++ P) as Hold by (apply Hready; lia).
        rewrite elem_of_cons, elem_of_app in Hold. tauto.
  - (* the ETA of every processed task *)
    intros k e Hg. destruct (decide (p = k)) as [<- | Hne].
    + rewrite jm_get_set_eq in Hg. injection Hg as <-.
      exists tp. split; [done|]. split.
      * intros d Hd. apply elem_of_app. left. by apply Hdeps_p.
      * unfold bp. f_equal. apply breakdownOf_ext. intros d Hd.
        rewrite jm_get_set_ne; [done|]. intros ->. by apply HpP, Hdeps_p.
    + rewrite jm_get_set_ne in Hg by done.
      destruct (Heta k e Hg) as (t & Hin & Hdeps & ->).
      exists t. split; [done|]. split.
      * intros d Hd. apply elem_of_app. left. by apply Hdeps.
      * f_equal. apply breakdownOf_ext. intros d Hd.
        rewrite jm_get_set_ne; [done|]. intros ->. by apply HpP, Hdeps.
  - (* keys of the breakdown *)
    rewrite jm_keys_set_new by (by rewrite Hbk). by rewrite Hbk.
  - (* entries of the breakdown *)
    intros k b Hin. rewrite jm_set_new in Hin by (by rewrite Hbk).
    apply elem_of_app in Hin as [Hin | Hin].
    + assert (k ∈ P) as HkP.
      { rewrite <- Hbk. apply list_elem_of_fmap. by exists (k, b). }
      destruct (Hbd k b Hin) as (t & Hin' & ->). exists t. split; [done|].
      destruct (jm_get E k) as [e|] eqn:Hg; [|by apply jm_get_None in Hg].
      destruct (Heta k e Hg) as (t' & Hin'' & Hdeps & _).
      rewrite (task_unique k t t') by done.
      apply breakdownOf_ext. intros d Hd.
      rewrite jm_get_set_ne; [done|]. intros ->. by apply HpP, Hdeps.
    + apply list_elem_of_singleton in Hin as [= -> ->].
      exists tp. split; [done|]. apply breakdownOf_ext. intros d Hd.
      rewrite jm_get_set_ne; [done|]. intros ->. by apply HpP, Hdeps_p.
  - (* the two maps go together *)
    rewrite (jm_set_new E) by done. rewrite jm_set_new by (by rewrite Hbk).
    rewrite map_app. simpl. by rewrite <- Hbe.
Qed.

Lemma Inv_loop fuel st st' :
  Inv st ->
  kahnLoop now stationQueues stationNameOf (mkTaskMap tasks) adjacency0 fuel st
  = Finished st' ->
  Inv st' ∧ queue st' = [].
Proof.
  revert st. induction fuel as [|fuel IH]; intros st HI Hl; simpl in Hl.
  - destruct (queue st) eqn:Hq; [|done]. by injection Hl as <-.
  - destruct (queue st) as [|p rest] eqn:Hq; [by injection Hl as <-|].
    destruct (kahnStep _ _ _ _ _ p rest st) as [st1|] eqn:Hs; [|done].
    apply (IH st1); [|done]. by eapply Inv_step.
Qed.

Lemma traverse_Inv st :
  traverse now stationQueues stationNameOf tasks = Finished st ->
  Inv st ∧ queue st = [].
Proof. intros Ht. apply (Inv_loop (length tasks) _ st Inv_initial Ht). Qed.

(** Dependencies are tasks of the order and the dependency graph has no
    cycle: some rank decreases along every dependency. *)
Definition wellFormed : Prop :=
  ∃ rank : string -> nat,
    ∀ k t d, (k, t) ∈ tasks -> d ∈ task_dependsOn t -> d ∈ tasks.*1 ∧ rank d < rank k.

Lemma all_processed st :
  Inv st -> queue st = [] -> wellFormed ->
  ∀ k t, (k, t) ∈ tasks -> k ∈ processed st.
Proof.
  intros HI Hq (rank & Hwf).
  assert (∀ n k t, rank k < n -> (k, t) ∈ tasks -> k ∈ processed st) as Hall.
  { induction n as [|n IH]; intros k t Hr Hin; [lia|].
    pose proof (inv_ready st HI k t Hin) as Hready. rewrite Hq in Hready. simpl in Hready.
    apply Hready, pend_zero. intros d Hd. destruct (Hwf k t d Hin Hd) as [Hdin Hlt].
    apply list_elem_of_fmap in Hdin as ([d' td] & -> & Hdin).
    apply (IH d' td); [simpl in *; lia | done]. }
  intros k t Hin. apply (Hall (S (rank k)) k t); [lia | done].
Qed.

End Traversal.

(** *** Order ETA and critical path *)

Lemma Qltb_lt a b : Qltb a b = true <-> (a < b)%Q.
Proof.
  unfold Qltb. rewrite negb_true_iff. split.
  - intros H. apply Qnot_le_lt. intros Hle. apply Qle_bool_iff in Hle. congruence.
  - intros H. destruct (Qle_bool b a) eqn:Hb; [|done].
    apply Qle_bool_iff in Hb. lra.
Qed.

Lemma Qltb_ge a b : Qltb a b = false <-> (b <= a)%Q.
Proof.
  unfold Qltb. rewrite negb_false_iff. apply Qle_bool_iff.
Qed.

(** The loop that looks for the critical task keeps the first entry that is
    strictly larger than everything before it and at least as large as
    everything after it. *)
Lemma pickCritical_fold (E : JsMap Q) (acc c : Q * string) :
  fold_left pickCritical E acc = c ->
  (c = acc ∧ ∀ k e, (k, e) ∈ E -> (e <= acc.1)%Q)
  ∨ ∃ l1 l2, E = l1 ++ (c.2, c.1) :: l2
             ∧ (acc.1 < c.1)%Q
             ∧ (∀ k e, (k, e) ∈ l1 -> (e < c.1)%Q)
             ∧ (∀ k e, (k, e) ∈ l2 -> (e <= c.1)%Q).
Proof.
  revert acc. induction E as [|[k e] E IH]; intros acc Hc; simpl in Hc.
  - left. split; [done|]. intros k e H. inversion H.
  - change (pickCritical acc (k, e)) with (if Qltb acc.1 e then (e, k) else acc) in Hc.
    destruct (Qltb acc.1 e) eqn:Hlt.
    + apply Qltb_lt in Hlt. right.
      destruct (IH (e, k) Hc) as [[Hc' Hall] | (l1 & l2 & HE & Hlt' & H1 & H2)].
      * rewrite Hc'. simpl. exists [], E. split; [done|]. split; [done|]. split.
        -- intros k' e' H. inversion H.
        -- apply Hall.
      * simpl in Hlt'. exists ((k, e) :: l1), l2. split; [by rewrite HE|].
        split; [lra|]. split; [|done].
        intros k' e' Hin. apply elem_of_cons in Hin as [[= -> ->] | Hin]; [done|].
        by eapply H1.
    + apply Qltb_ge in Hlt.
      destruct (IH acc Hc) as [[Hc' Hall] | (l1 & l2 & HE & Hlt' & H1 & H2)].
      * left. split; [done|]. intros k' e' Hin.
        apply elem_of_cons in Hin as [[= -> ->] | Hin]; [done|]. by eapply Hall.
      * right. exists ((k, e) :: l1), l2. split; [by rewrite HE|].
        split; [done|]. split; [|done].
        intros k' e' Hin. apply elem_of_cons in Hin as [[= -> ->] | Hin]; [lra|].
        by eapply H1.
Qed.

Lemma criticalOf_spec (E : JsMap Q) :
  let c := criticalOf E in
  (c = (0%Q, "") ∧ ∀ k e, (k, e) ∈ E -> (e <= 0)%Q)
  ∨ ∃ l1 l2, E = l1 ++ (c.2, c.1) :: l2
             ∧ (0 < c.1)%Q
             ∧ (∀ k e, (k, e) ∈ l1 -> (e < c.1)%Q)
             ∧ (∀ k e, (k, e) ∈ l2 -> (e <= c.1)%Q).
Proof. by apply (pickCritical_fold E (0%Q, "")). Qed.

Lemma criticalOf_upper (E : JsMap Q) k e : (k, e) ∈ E -> (e <= fst (criticalOf E))%Q.
Proof.
  intros Hin. destruct (criticalOf_spec E) as [[Hc Hall] | (l1 & l2 & HE & Hpos & H1 & H2)].
  - rewrite Hc. simpl. by eapply Hall.
  - rewrite HE in Hin. apply elem_of_app in Hin as [Hin | Hin].
    + apply Qlt_le_weak. by eapply H1.
    + apply elem_of_cons in Hin as [[= -> ->] | Hin]; [lra|]. by eapply H2.
Qed.

(** Replacing the value of an existing key: the first entry with that key. *)
Lemma jm_set_split {V} (m : JsMap V) k v v' :
  jm_get m k = Some v ->
  ∃ l1 l2, m = l1 ++ (k, v) :: l2 ∧ (k ∉ jm_keys l1)
           ∧ jm_set m k v' = l1 ++ (k, v') :: l2.
Proof.
  induction m as [|[k0 v0] m IH]; simpl; [done|].
  destruct (String.eqb_spec k k0) as [-> | Hne].
  - intros [= ->]. exists [], m. split; [done|]. split; [|done].
    intros H. inversion H.
  - intros Hg. destruct (IH Hg) as (l1 & l2 & -> & Hk & ->).
    exists ((k0, v0) :: l1), l2. split; [done|]. split; [|done].
    unfold jm_keys. simpl. apply not_elem_of_cons. done.
Qed.

(** Number of entries flagged as on the critical path. *)
Definition flagged (bs : list ETABreakdown) : nat :=
  length (List.filter isCriticalPath bs).

Lemma flagged_none bs : (∀ b, b ∈ bs -> isCriticalPath b = false) -> flagged bs = 0.
Proof.
  unfold flagged. induction bs as [|b bs IH]; simpl; intros H; [done|].
  rewrite (H b) by left. apply IH. intros b' Hb'. apply H. by right.
Qed.

Lemma flagged_app bs1 bs2 : flagged (bs1 ++ bs2) = flagged bs1 + flagged bs2.
Proof. unfold flagged. by rewrite List.filter_app, length_app. Qed.

Lemma first_split_unique {V} (l1 l2 l1' l2' : JsMap V) k v v' :
  l1 ++ (k, v) :: l2 = l1' ++ (k, v') :: l2' ->
  k ∉ jm_keys l1 -> k ∉ jm_keys l1' ->
  l1 = l1' ∧ v = v' ∧ l2 = l2'.
Proof.
  revert l1'. induction l1 as [|[k0 v0] l1 IH]; intros [|[k1 v1] l1']; simpl;
    intros Heq Hk Hk'.
  - by injection Heq as -> ->.
  - injection Heq as -> -> _. exfalso. apply Hk'. left.
  - injection Heq as -> <- _. exfalso. apply Hk. left.
  - injection Heq as -> -> Heq. unfold jm_keys in *. simpl in *.
    apply not_elem_of_cons in Hk as [_ Hk], Hk' as [_ Hk'].
    destruct (IH l1' Heq Hk Hk') as (-> & -> & ->). done.
Qed.

(** The per-task ETA table that can be read off a breakdown. *)
Definition etaTable (bs : list ETABreakdown) : JsMap Q :=
  map (λ b, (taskId b, totalMinutes b)) bs.

Definition valueOf (kv : string * ETABreakdown) : string * Q := (kv.1, totalMinutes kv.2).

(** The shape of the breakdown once the critical task has been marked: either
    no ETA is positive and nothing is flagged; or the entry that comes first
    among those with the largest ETA has an empty id and nothing is flagged;
    or that entry, and no other, is flagged. *)
Inductive CriticalShape (maxMinutes : Q) (bs : list ETABreakdown) : Prop :=
| NothingPositive :
    maxMinutes = 0%Q ->
    (∀ b, b ∈ bs -> isCriticalPath b = false ∧ (totalMinutes b <= 0)%Q) ->
    CriticalShape maxMinutes bs
| FirstLargest (bs1 : list ETABreakdown) (b : ETABreakdown) (bs2 : list ETABreakdown) :
    bs = bs1 ++ b :: bs2 ->
    maxMinutes = totalMinutes b ->
    (0 < totalMinutes b)%Q ->
    (∀ b', b' ∈ bs1 -> isCriticalPath b' = false ∧ (totalMinutes b' < totalMinutes b)%Q) ->
    (∀ b', b' ∈ bs2 -> isCriticalPath b' = false ∧ (totalMinutes b' <= totalMinutes b)%Q) ->
    isCriticalPath b = negb (String.eqb (taskId b) "") ->
    CriticalShape maxMinutes bs.

Lemma markCritical_shape (bd : JsMap ETABreakdown) :
  NoDup (jm_keys bd) ->
  (∀ k b, (k, b) ∈ bd -> taskId b = k ∧ isCriticalPath b = false) ->
  let c := criticalOf (map valueOf bd) in
  CriticalShape c.1 (map snd (markCritical c.2 bd))
  ∧ etaTable (map snd (markCritical c.2 bd)) = map valueOf bd.
Proof.
  intros Hnd Hbd c.
  assert (jm_keys (map valueOf bd) = jm_keys bd) as Hkeys.
  { unfold jm_keys. rewrite map_map. done. }
  assert (etaTable (map snd bd) = map valueOf bd) as Htable.
  { unfold etaTable. rewrite map_map. apply map_ext_in. intros [k b] Hin.
    apply list_elem_of_In, Hbd in Hin as [<- _]. done. }
  destruct (criticalOf_spec (map valueOf bd))
    as [[Hc Hall] | (l1 & l2 & HE & Hpos & H1 & H2)]; fold c in Hc || fold c in HE, Hpos, H1, H2.
  - rewrite Hc. simpl. split; [|done]. apply NothingPositive; [done|].
    intros b Hb. apply list_elem_of_fmap in Hb as ([k b'] & -> & Hin). simpl.
    split; [by apply (Hbd k b')|].
    apply (Hall k). apply list_elem_of_fmap. by exists (k, b').
  - assert (c.2 ∈ jm_keys bd) as Hin.
    { rewrite <- Hkeys, HE. unfold jm_keys. rewrite map_app. simpl.
      apply elem_of_app. right. left. }
    destruct (jm_get bd c.2) as [b0|] eqn:Hg; [|by apply jm_get_None in Hg].
    destruct (jm_set_split bd c.2 b0 (flagCritical b0) Hg) as (l1' & l2' & Hbd' & Hk' & Hset).
    assert (l1 = map valueOf l1' ∧ c.1 = totalMinutes b0 ∧ l2 = map valueOf l2')
      as (-> & Hc1 & ->).
    { apply (first_split_unique _ _ _ _ c.2).
      - rewrite <- HE, Hbd', map_app. done.
      - rewrite <- Hkeys, HE in Hnd. unfold jm_keys in *. rewrite map_app in Hnd.
        apply NoDup_app in Hnd as (_ & Hd & _). intros Hx. apply (Hd _ Hx). left.
      - unfold jm_keys in *. by rewrite map_map. }
    assert (taskId b0 = c.2) as Hid.
    { apply (Hbd c.2 b0). by apply jm_get_elem_of. }
    assert (∀ b', b' ∈ map snd l1' ->
              isCriticalPath b' = false ∧ (totalMinutes b' < totalMinutes b0)%Q) as Hl1.
    { intros b' Hb'. apply list_elem_of_fmap in Hb' as ([k b''] & -> & Hb'). simpl. split.
      - apply (Hbd k b''). rewrite Hbd'. apply elem_of_app. by left.
      - rewrite <- Hc1. apply (H1 k). apply list_elem_of_fmap. by exists (k, b''). }
    assert (∀ b', b' ∈ map snd l2' ->
              isCriticalPath b' = false ∧ (totalMinutes b' <= totalMinutes b0)%Q) as Hl2.
    { intros b' Hb'. apply list_elem_of_fmap in Hb' as ([k b''] & -> & Hb'). simpl. split.
      - apply (Hbd k b''). rewrite Hbd'. apply elem_of_app. right. by right.
      - rewrite <- Hc1. apply (H2 k). apply list_elem_of_fmap. by exists (k, b''). }
    unfold markCritical. rewrite Hg.
    destruct (String.eqb_spec c.2 "") as [He | Hne]; simpl.
    + split; [|done]. rewrite Hbd', map_app. simpl.
      apply (FirstLargest _ _ (map snd l1') b0 (map snd l2'));
        [done | exact Hc1 | by rewrite <- Hc1 | done | done |].
      rewrite Hid, He. simpl. apply (Hbd c.2 b0). by apply jm_get_elem_of.
    + rewrite Hset, map_app. simpl. split.
      * apply (FirstLargest _ _ (map snd l1') (flagCritical b0) (map snd l2'));
          [done | exact Hc1 | simpl; by rewrite <- Hc1 | done | done |].
        simpl. rewrite Hid. by destruct (String.eqb_spec c.2 "").
      * rewrite <- Htable, Hbd'. unfold etaTable. by rewrite !map_app.
Qed.

(** *** [calculateOrderETA] on a store *)

Definition tasksOfOrder (tenantId orderId : string) (db : ServerDB)
    : list (string * TaskInstance) :=
  List.filter (λ kv : string * TaskInstance,
                 String.eqb (task_tenantId kv.2) tenantId
                 && String.eqb (task_orderId kv.2) orderId)
              (map_to_list (taskInstance db)).

Definition stationNameIn (db : ServerDB) (sid : option string) : option string :=
  s ← sid; st ← station db !! s; Some (station_name st).

Lemma tasksOfOrder_spec tenantId orderId db k t :
  (k, t) ∈ tasksOfOrder tenantId orderId db <->
  taskInstance db !! k = Some t ∧ task_tenantId t = tenantId ∧ task_orderId t = orderId.
Proof.
  unfold tasksOfOrder. rewrite elem_of_query. simpl.
  rewrite andb_true_iff, !String.eqb_eq. tauto.
Qed.

Lemma tasksOfOrder_NoDup tenantId orderId db : NoDup (tasksOfOrder tenantId orderId db).*1.
Proof. apply NoDup_query. Qed.

(** The result of [calculateOrderETA] in terms of the traversal. *)
Definition resultOf (now : Z) (orderId : string) (tasks : list (string * TaskInstance))
    (st : KahnState) : OrderETA :=
  let c := criticalOf (taskETAMinutes st) in
  mkOrderETA orderId (Qplus (inject_Z now) (Qmult c.1 60000)) (js_round c.1)
    (map snd (markCritical c.2 (taskBreakdown st))) (confidenceOf tasks).

Lemma calculateOrderETA_unfold now tenantId orderId db :
  (calculateOrderETA now tenantId orderId db).1 =
    let tasks := tasksOfOrder tenantId orderId db in
    if Nat.eqb (length tasks) 0 then Ok (mkOrderETA orderId (inject_Z now) 0 [] low)
    else
      match traverse now (getStationQueues tenantId db) (stationNameIn db) tasks with
      | Finished st =>
          match order db !! orderId with
          | Some _ => Ok (resultOf now orderId tasks st)
          | None => Throw RecordNotFound
          end
      | TypeError => Throw JsTypeError
      | OutOfFuel => Throw FuelExhausted
      end.
Proof.
  unfold calculateOrderETA, mbind, mret, ST_bind, ST_ret, gets, modify, throw. simpl.
  fold (tasksOfOrder tenantId orderId db).
  destruct (Nat.eqb (length (tasksOfOrder tenantId orderId db)) 0); [done|].
  fold (stationNameIn db).
  destruct (traverse _ _ _ _); simpl; [|done|done].
  by destruct (order db !! orderId).
Qed.


Lemma calculateOrderETA_Ok now tenantId orderId db r :
  (calculateOrderETA now tenantId orderId db).1 = Ok r ->
  let tasks := tasksOfOrder tenantId orderId db in
  (tasks = [] ∧ r = mkOrderETA orderId (inject_Z now) 0 [] low)
  ∨ (tasks ≠ []
     ∧ ∃ st, traverse now (getStationQueues tenantId db) (stationNameIn db) tasks
             = Finished st
             ∧ r = resultOf now orderId tasks st).
Proof.
  rewrite calculateOrderETA_unfold. simpl.
  destruct (tasksOfOrder tenantId orderId db) as [|kv tasks] eqn:Ht; simpl.
  - intros [= <-]. by left.
  - rewrite <- Ht. intros Hr. right. split; [by rewrite Ht|].
    destruct (traverse _ _ _ _) as [st| |]; [|done|done].
    exists st. split; [done|]. destruct (order db !! orderId); [|done].
    by injection Hr as <-.
Qed.

(** *** Per-task ETA *)

(** [m] is the largest element of [l], or [0] when [l] is empty. *)
Definition isMaxOf (m : Q) (l : list Q) : Prop :=
  (l = [] ∧ m = 0%Q) ∨ (m ∈ l ∧ ∀ x, x ∈ l -> (x <= m)%Q).

Lemma qmax_fold (r : list Q) (x : Q) :
  fold_left qmax r x ∈ x :: r ∧ ∀ y, y ∈ x :: r -> (y <= fold_left qmax r x)%Q.
Proof.
  revert x. induction r as [|z r IH]; intros x; simpl.
  - split; [left|]. intros y Hy. apply list_elem_of_singleton in Hy as ->. lra.
  - destruct (IH (qmax x z)) as [Hin Hub].
    assert ((x <= qmax x z)%Q ∧ (z <= qmax x z)%Q ∧ (qmax x z = x ∨ qmax x z = z))
      as (Hx & Hz & Hor).
    { unfold qmax. destruct (Qle_bool x z) eqn:Hle.
      - apply Qle_bool_iff in Hle. split; [done|]. split; [lra | by right].
      - split; [lra|]. split; [|by left].
        destruct (Qlt_le_dec z x) as [Hlt | Hle']; [lra|].
        apply Qle_bool_iff in Hle'. congruence. }
    split.
    + apply elem_of_cons in Hin as [Hin | Hin]; [|right; by right].
      rewrite Hin. destruct Hor as [-> | ->]; [left | right; left].
    + intros y Hy. apply elem_of_cons in Hy as [-> | Hy].
      * apply Qle_trans with (qmax x z); [exact Hx | apply Hub; left].
      * apply elem_of_cons in Hy as [-> | Hy].
        -- apply Qle_trans with (qmax x z); [exact Hz | apply Hub; left].
        -- apply Hub. by right.
Qed.

Lemma maxDepETAOf_isMax (E : JsMap Q) deps :
  isMaxOf (maxDepETAOf E deps) (map (λ d, default 0%Q (jm_get E d)) deps).
Proof.
  unfold maxDepETAOf, isMaxOf.
  destruct (map _ deps) as [|x r]; [by left|]. right. apply qmax_fold.
Qed.

(** The ETA of one task instance, given the table [E] of the ETAs of the
    order: the three cases of section 4.4. *)
Definition perTaskETA (now : Z) (stationQueues : JsMap StationQueue) (E : JsMap Q)
    (t : TaskInstance) (eta : Q) : Prop :=
  match task_status t with
  | Done | Cancelled => eta = 0%Q
  | InProgress => eta = qmax 0 (Qminus (estimatedOf t) (elapsedOf now t))
  | Pending | Queued =>
      (∀ d, d ∈ task_dependsOn t -> is_Some (jm_get E d))
      ∧ ∃ m, isMaxOf m (map (λ d, default 0%Q (jm_get E d)) (task_dependsOn t))
             ∧ eta = Qplus (Qplus m (queueWaitOf stationQueues t)) (estimatedOf t)
  end.

Lemma breakdownOf_perTaskETA now stationQueues stationNameOf (E : JsMap Q) k t :
  (∀ d, d ∈ task_dependsOn t -> d ∈ jm_keys E) ->
  perTaskETA now stationQueues E t
    (totalMinutes (breakdownOf now stationQueues stationNameOf E k t)).
Proof.
  intros Hdeps. unfold perTaskETA, breakdownOf. destruct (task_status t); simpl; try done.
  all: split;
    [ intros d Hd; destruct (jm_get E d) eqn:Hg; [done|];
      apply jm_get_None in Hg; by apply Hdeps in Hd
    | eexists; split; [apply maxDepETAOf_isMax | done] ].
Qed.

(** Everything the properties below need to know about a result of
    [calculateOrderETA]. *)
Record Summary (now : Z) (tenantId orderId : string) (db : ServerDB) (r : OrderETA)
    (maxMinutes : Q) : Prop := mkSummary {
  sum_shape : CriticalShape maxMinutes (eta_breakdown r);
  sum_ready : (eta_estimatedReadyAt r == inject_Z now + maxMinutes * 60000)%Q;
  sum_total : eta_totalMinutes r = js_round maxMinutes;
  sum_upper : ∀ b, b ∈ eta_breakdown r -> (totalMinutes b <= maxMinutes)%Q;
  sum_task : ∀ b, b ∈ eta_breakdown r ->
    ∃ t, (taskId b, t) ∈ tasksOfOrder tenantId orderId db
         ∧ perTaskETA now (getStationQueues tenantId db) (etaTable (eta_breakdown r)) t
             (totalMinutes b);
  sum_all : wellFormed (tasksOfOrder tenantId orderId db) ->
    ∀ k t, (k, t) ∈ tasksOfOrder tenantId orderId db ->
           ∃ b, b ∈ eta_breakdown r ∧ taskId b = k;
  sum_confidence :
    eta_confidence r =
      match tasksOfOrder tenantId orderId db with
      | [] => low
      | tasks => confidenceOf tasks
      end;
}.

Lemma calculateOrderETA_summary now tenantId orderId db r :
  (calculateOrderETA now tenantId orderId db).1 = Ok r ->
  ∃ maxMinutes, Summary now tenantId orderId db r maxMinutes.
Proof.
  intros Hr. apply calculateOrderETA_Ok in Hr as [[Ht ->] | (Hne & st & Htr & ->)].
  - exists 0%Q. split; simpl.
    + apply NothingPositive; [done|]. intros b Hb. inversion Hb.
    + lra.
    + done.
    + intros b Hb. inversion Hb.
    + intros b Hb. inversion Hb.
    + intros _ k t Hin. rewrite Ht in Hin. inversion Hin.
    + by rewrite Ht.
  - set (tasks := tasksOfOrder tenantId orderId db) in *.
    set (sq := getStationQueues tenantId db) in *.
    pose proof (tasksOfOrder_NoDup tenantId orderId db) as Hnd. fold tasks in Hnd.
    destruct (traverse_Inv now sq (stationNameIn db) tasks Hnd st Htr) as [HI Hq].
    pose proof (inv_nodup _ _ _ _ st HI) as HndP. rewrite Hq in HndP. simpl in HndP.
    pose proof (inv_bd_eta _ _ _ _ st HI) as HE.
    destruct (markCritical_shape (taskBreakdown st)) as [Hshape Htable].
    { by rewrite (inv_bd_keys _ _ _ _ st HI). }
    { intros k b Hin. destruct (inv_bd _ _ _ _ st HI k b Hin) as (t & _ & ->).
      unfold breakdownOf. by destruct (task_status t). }
    fold valueOf in HE. rewrite <- HE in Hshape, Htable.
    set (c := criticalOf (taskETAMinutes st)) in *.
    set (bs := map snd (markCritical c.2 (taskBreakdown st))) in *.
    assert (∀ b, b ∈ bs -> jm_get (taskETAMinutes st) (taskId b) = Some (totalMinutes b))
      as Hget.
    { intros b Hb. apply jm_elem_of_get; [done|]. rewrite <- Htable.
      apply list_elem_of_fmap. by exists b. }
    exists c.1. unfold resultOf. fold c bs. split; simpl.
    + done.
    + reflexivity.
    + done.
    + intros b Hb. apply (criticalOf_upper _ (taskId b)), jm_get_elem_of. by apply Hget.
    + intros b Hb. destruct (inv_eta _ _ _ _ st HI _ _ (Hget b Hb)) as (t & Hin & Hdeps & ->).
      exists t. split; [done|]. rewrite Htable.
      by apply breakdownOf_perTaskETA.
    + intros Hwf k t Hin.
      pose proof (all_processed now sq (stationNameIn db) tasks st HI Hq Hwf k t Hin)
        as Hk.
      unfold processed in Hk. rewrite <- Htable in Hk.
      apply list_elem_of_fmap in Hk as ([k' e] & -> & Hin').
      apply list_elem_of_fmap in Hin' as (b & [= -> ->] & Hb). eauto.
    + fold tasks. by destruct tasks.
Qed.

(** *** Sample orders *)

Definition etaTask (status : TaskStatus) (deps : list string) (minutes : option Q)
    : TaskInstance :=
  mkTask "tenant" "order-1" "item-1" "def" "phase" "task" None None status deps minutes
    None None None.

Definition orderOnly : ServerDB :=
  mkServerDB ∅ ∅ [] (<["order-1" := mkOrder "tenant" OrderPreparing None None]> ∅)
    ∅ ∅ ∅ ∅ [] 0.

(** A (5 min), B (3 min, after A), C (4 min). *)
Definition criticalPathDB : ServerDB :=
  with_taskInstance
    (λ _, <["A" := etaTask Queued [] (Some 5%Q)]>
            (<["B" := etaTask Pending ["A"] (Some 3%Q)]>
               (<["C" := etaTask Queued [] (Some 4%Q)]> ∅))) orderOnly.

(** Three instances, only one of which has an estimated duration. *)
Definition oneEstimateDB : ServerDB :=
  with_taskInstance
    (λ _, <["A" := etaTask Queued [] (Some 5%Q)]>
            (<["B" := etaTask Queued [] None]>
               (<["C" := etaTask Queued [] None]> ∅))) orderOnly.

(** *** The claims on the ETA calculator *)



Lemma flagged_cons b bs :
  flagged (b :: bs) = (if isCriticalPath b then 1 else 0) + flagged bs.
Proof. unfold flagged. simpl. by destruct (isCriticalPath b). Qed.

Lemma flagged_unique (bs1 bs2 bs1' bs2' : list ETABreakdown) b b' :
  bs1 ++ b :: bs2 = bs1' ++ b' :: bs2' ->
  isCriticalPath b = true ->
  (∀ x, x ∈ bs1' ++ bs2' -> isCriticalPath x = false) ->
  bs1 = bs1' ∧ b = b' ∧ bs2 = bs2'.
Proof.
  revert bs1'. induction bs1 as [|y bs1 IH]; intros [|y' bs1']; simpl; intros Heq Hb Hno.
  - by injection Heq as -> ->.
  - injection Heq as -> _. rewrite Hno in Hb by left. done.
  - injection Heq as -> <-. rewrite Hno in Hb; [done|].
    simpl. apply elem_of_app. right. left.
  - injection Heq as -> Heq. destruct (IH bs1' Heq Hb) as (-> & -> & ->); [|done].
    intros x Hx. apply Hno. by right.
Qed.

Lemma CriticalShape_flagged M bs :
  CriticalShape M bs ->
  flagged bs ≤ 1
  ∧ (∀ bs1 b bs2, bs = bs1 ++ b :: bs2 -> isCriticalPath b = true ->
       (0 < totalMinutes b)%Q
       ∧ (∀ b', b' ∈ bs1 -> (totalMinutes b' < totalMinutes b)%Q)
       ∧ (∀ b', b' ∈ bs2 -> (totalMinutes b' <= totalMinutes b)%Q))
  ∧ ((∀ b, b ∈ bs -> (totalMinutes b <= 0)%Q) -> flagged bs = 0)
  ∧ ((∃ b, b ∈ bs ∧ (0 < totalMinutes b)%Q) ->
     (∀ b, b ∈ bs -> taskId b ≠ "") -> flagged bs = 1).
Proof.
  intros [HM Hnone | bs1 b bs2 Hbs HM Hpos H1 H2 Hflag].
  - assert (flagged bs = 0) as Hz.
    { apply flagged_none. intros b Hb. by apply Hnone. }
    split; [lia|]. split; [|split; [done|]].
    + intros bs1 b bs2 Hbs Hb. destruct (Hnone b) as [Hf _]; [|congruence].
      rewrite Hbs. apply elem_of_app. right. left.
    + intros (b & Hb & Hpos). destruct (Hnone b Hb) as [_ Hle]. lra.
  - assert (flagged bs1 = 0) as Hz1 by (apply flagged_none; intros x Hx; by apply H1).
    assert (flagged bs2 = 0) as Hz2 by (apply flagged_none; intros x Hx; by apply H2).
    assert (flagged bs = if isCriticalPath b then 1 else 0) as Hfl.
    { rewrite Hbs, flagged_app, flagged_cons, Hz1, Hz2.
      destruct (isCriticalPath b); lia. }
    split; [rewrite Hfl; destruct (isCriticalPath b); lia|].
    split; [|split].
    + intros bs1' b' bs2' Hbs' Hb'.
      destruct (isCriticalPath b) eqn:Hb.
      * destruct (flagged_unique bs1' bs2' bs1 bs2 b' b) as (-> & -> & ->).
        -- by rewrite <- Hbs', Hbs.
        -- done.
        -- intros x Hx. apply elem_of_app in Hx as [Hx | Hx];
             [by apply H1 | by apply H2].
        -- split; [done|]. split; intros x Hx; [by apply H1 | by apply H2].
      * exfalso. assert (b' ∈ bs1 ++ b :: bs2) as Hin.
        { rewrite <- Hbs, Hbs'. apply elem_of_app. right. left. }
        apply elem_of_app in Hin as [Hin | Hin].
        -- destruct (H1 b' Hin). congruence.
        -- apply elem_of_cons in Hin as [-> | Hin]; [congruence|].
           destruct (H2 b' Hin). congruence.
    + intros Hall. exfalso. assert (totalMinutes b <= 0)%Q; [|lra].
      apply Hall. rewrite Hbs. apply elem_of_app. right. left.
    + intros _ Hids. rewrite Hfl, Hflag.
      assert (taskId b ≠ "") as Hne.
      { apply Hids. rewrite Hbs. apply elem_of_app. right. left. }
      by destruct (String.eqb_spec (taskId b) "").
Qed.

(** C10: the breakdown has at most one entry flagged as on the critical path;
    a flagged entry has a positive ETA, strictly larger than the ETA of every
    entry before it in the iteration order and at least as large as the ETA
    of every entry after it; when no ETA is positive, in particular when every
    instance of the order is done or cancelled, no entry is flagged. *)
Theorem critical_path_flag_at_most_once now tenantId orderId db r :
  (calculateOrderETA now tenantId orderId db).1 = Ok r ->
  flagged (eta_breakdown r) ≤ 1
  ∧ (∀ bs1 b bs2, eta_breakdown r = bs1 ++ b :: bs2 -> isCriticalPath b = true ->
       (0 < totalMinutes b)%Q
       ∧ (∀ b', b' ∈ bs1 -> (totalMinutes b' < totalMinutes b)%Q)
       ∧ (∀ b', b' ∈ bs2 -> (totalMinutes b' <= totalMinutes b)%Q))
  ∧ ((∀ b, b ∈ eta_breakdown r -> (totalMinutes b <= 0)%Q) ->
     flagged (eta_breakdown r) = 0)
  ∧ ((∀ k t, taskInstance db !! k = Some t ->
             task_tenantId t = tenantId -> task_orderId t = orderId ->
             task_status t = Done ∨ task_status t = Cancelled) ->
     flagged (eta_breakdown r) = 0)
  ∧ ((∃ b, b ∈ eta_breakdown r ∧ (0 < totalMinutes b)%Q) ->
     (∀ b, b ∈ eta_breakdown r -> taskId b ≠ "") ->
     flagged (eta_breakdown r) = 1).
Proof.
  intros Hr. destruct (calculateOrderETA_summary now tenantId orderId db r Hr) as [M HS].
  destruct HS as [Hshape _ _ _ Htask _ _].
  destruct (CriticalShape_flagged M _ Hshape) as (Hle & Hfirst & Hzero & Hone).
  split; [done|]. split; [done|]. split; [done|]. split; [|done].
  intros Hdone. apply Hzero. intros b Hb. destruct (Htask b Hb) as (t & Hin & Hper).
  apply tasksOfOrder_spec in Hin as (Hl & Hten & Hord).
  unfold perTaskETA in Hper.
  destruct (Hdone _ t Hl Hten Hord) as [Hs | Hs]; rewrite Hs in Hper; rewrite Hper; lra.
Qed.

Lemma critical_path_flag_at_most_once_witness :
  ∃ r, (calculateOrderETA 0 "tenant" "order-1" criticalPathDB).1 = Ok r
       ∧ flagged (eta_breakdown r) ≤ 1
       ∧ map (λ b, (taskId b, isCriticalPath b)) (eta_breakdown r)
         = [("C", false); ("A", false); ("B", true)].
Proof.
  destruct (calculateOrderETA 0 "tenant" "order-1" criticalPathDB).1 as [r|e] eqn:Hr.
  - exists r. split; [done|]. split.
    + by apply (critical_path_flag_at_most_once 0 "tenant" "order-1" criticalPathDB r).
    + assert (match (calculateOrderETA 0 "tenant" "order-1" criticalPathDB).1 with
              | Ok r' => map (λ b, (taskId b, isCriticalPath b)) (eta_breakdown r')
                         = [("C", false); ("A", false); ("B", true)]
              | Throw _ => False
              end) as H by (by vm_compute).
      by rewrite Hr in H.
  - exfalso. revert Hr. by vm_compute.
Defined.

(** C6 as stated fails: the order has three instances, two of which have no
    estimated duration at all, and the confidence is [high]. *)
Lemma confidence_high_with_a_single_estimate :
  ∃ r, (calculateOrderETA 0 "tenant" "order-1" oneEstimateDB).1 = Ok r
       ∧ length (tasksOfOrder "tenant" "order-1" oneEstimateDB) = 3
       ∧ eta_confidence r = high
       ∧ ¬ (∀ k t, (k, t) ∈ tasksOfOrder "tenant" "order-1" oneEstimateDB ->
                   is_Some (task_estimatedMinutes t)).
Proof.
  destruct (calculateOrderETA 0 "tenant" "order-1" oneEstimateDB).1 as [r|e] eqn:Hr.
  - exists r. split; [done|]. split; [by vm_compute|]. split.
    + assert (match (calculateOrderETA 0 "tenant" "order-1" oneEstimateDB).1 with
              | Ok r' => eta_confidence r' = high
              | Throw _ => False
              end) as H by (by vm_compute).
      by rewrite Hr in H.
    + intros Hall. destruct (Hall "B" (etaTask Queued [] None)) as [q Hq]; [|done].
      apply tasksOfOrder_spec. by vm_compute.
  - exfalso. revert Hr. by vm_compute.
Qed.

(** C6, amended: for an order with at least one instance the confidence is
    [low] with fewer than 3 instances, [high] when at least one instance has
    a positive estimated duration, and [medium] otherwise. *)
Theorem confidence_of_order now tenantId orderId db r :
  (calculateOrderETA now tenantId orderId db).1 = Ok r ->
  let tasks := tasksOfOrder tenantId orderId db in
  let estimated :=
    ∃ k t q, (k, t) ∈ tasks ∧ task_estimatedMinutes t = Some q ∧ (0 < q)%Q in
  tasks ≠ [] ->
  (length tasks < 3 -> eta_confidence r = low)
  ∧ (3 ≤ length tasks -> estimated -> eta_confidence r = high)
  ∧ (3 ≤ length tasks -> ¬ estimated -> eta_confidence r = medium).
Proof.
  intros Hr tasks estimated Hne.
  destruct (calculateOrderETA_summary now tenantId orderId db r Hr) as [M HS].
  pose proof (sum_confidence _ _ _ _ _ _ HS) as Hc. fold tasks in Hc.
  assert (eta_confidence r = confidenceOf tasks) as -> by (by destruct tasks).
  unfold confidenceOf.
  assert (hasHistorical tasks = true <-> estimated) as Hh.
  { unfold hasHistorical, estimated. rewrite existsb_exists. split.
    - intros ([k t] & Hin & Hq). simpl in Hq.
      destruct (task_estimatedMinutes t) as [q|] eqn:He; [|done].
      exists k, t, q. split; [by apply list_elem_of_In|]. split; [done|].
      by apply Qltb_lt.
    - intros (k & t & q & Hin & He & Hq). exists (k, t).
      split; [by apply list_elem_of_In|]. simpl. rewrite He. by apply Qltb_lt. }
  destruct (Nat.ltb_spec (length tasks) 3) as [Hlt | Hge].
  - split; [done|]. split; intros; lia.
  - split; [lia|]. destruct (hasHistorical tasks).
    + split; [done|]. intros _ Hno. exfalso. apply Hno. by apply Hh.
    + split; [|done]. intros _ Hyes. apply Hh in Hyes. done.
Qed.

Lemma confidence_of_order_witness :
  ∃ r, (calculateOrderETA 0 "tenant" "order-1" oneEstimateDB).1 = Ok r
       ∧ tasksOfOrder "tenant" "order-1" oneEstimateDB ≠ []
       ∧ (3 ≤ length (tasksOfOrder "tenant" "order-1" oneEstimateDB) ->
          (∃ k t q, (k, t) ∈ tasksOfOrder "tenant" "order-1" oneEstimateDB
                    ∧ task_estimatedMinutes t = Some q ∧ (0 < q)%Q) ->
          eta_confidence r = high).
Proof.
  destruct (calculateOrderETA 0 "tenant" "order-1" oneEstimateDB).1 as [r|e] eqn:Hr.
  - assert (tasksOfOrder "tenant" "order-1" oneEstimateDB ≠ []) as Hne
      by (by vm_compute).
    exists r. split; [done|]. split; [done|].
    apply (confidence_of_order 0 "tenant" "order-1" oneEstimateDB r Hr Hne).
  - exfalso. revert Hr. by vm_compute.
Defined.

End EtaProps.

(** ** The pre-commitment estimate *)
Module SuggestProps.
Import Engine Eta EtaProps.













(** The menu of an order with two independent tasks in two phases. *)
Definition twoPhases : WorkflowDefinition :=
  mkWorkflow
    [mkPhaseDef "prep" "Preparazione" 1 [mkTaskDef "dough" "Impasto" "prep" 5 [] []];
     mkPhaseDef "side" "Contorno" 2 [mkTaskDef "salad" "Insalata" "cold" 4 [] []]].

Definition menuDB : ServerDB :=
  mkServerDB ∅ ∅ [] (<["order-1" := mkOrder "tenant" OrderNew None None]> ∅)
    (<["item-1" := mkOrderItem "order-1" "menu-1" ItemPending]> ∅)
    (<["menu-1" := mkMenuItem "tenant" (Some "wf-1")]> ∅)
    (<["wf-1" := twoPhases]> ∅) ∅ [] 0.



End SuggestProps.

(** ** Workflow engine: further properties of the operations *)
Module EngineOps.
Import Engine EngineProps.

(** *** Activation *)

(** The test that [activateReadyTasks] makes on a row of the table. *)
Definition activates (tenantId orderId : string) (tbl : gmap string TaskInstance)
    (kv : string * TaskInstance) : bool :=
  isPendingOf tenantId orderId kv && readyb tbl (task_dependsOn kv.2).

Lemma activate_fold_count tbl0 (P : list (string * TaskInstance)) :
  (∀ k t, (k, t) ∈ P -> tbl0 !! k = Some t ∧ task_status t = Pending) ->
  ∀ acc, promoted tbl0 acc.1 ->
    (fold_left activateStep P acc).2
    = acc.2 + length (List.filter (λ kv : string * TaskInstance,
                                     readyb tbl0 (task_dependsOn kv.2)) P).
Proof.
  induction P as [|[k0 t0] P IH]; intros HP acc Hacc; simpl; [lia|].
  destruct (HP k0 t0) as [H0 Hs0]; [left|].
  assert (∀ k t, (k, t) ∈ P -> tbl0 !! k = Some t ∧ task_status t = Pending) as HP'.
  { intros k t Hin. apply HP. by right. }
  rewrite activateStep_readyb. simpl.
  rewrite (promoted_readyb tbl0 acc.1) by done.
  destruct (readyb tbl0 (task_dependsOn t0)); simpl.
  - rewrite IH; [simpl; lia | done |]. simpl. by eapply promoted_alter.
  - by apply IH.
Qed.

Lemma activate_fold_none (P : list (string * TaskInstance)) acc :
  (∀ kv, kv ∈ P -> readyb acc.1 (task_dependsOn kv.2) = false) ->
  fold_left activateStep P acc = acc.
Proof.
  induction P as [|kv P IH]; intros HP; simpl; [done|].
  rewrite activateStep_readyb, (HP kv) by left.
  apply IH. intros kv' Hin. apply HP. by right.
Qed.

Lemma filter_filter {A} (f g : A -> bool) (l : list A) :
  List.filter g (List.filter f l) = List.filter (λ x, f x && g x) l.
Proof.
  induction l as [|x l IH]; simpl; [done|].
  destruct (f x); simpl; [|done]. destruct (g x); simpl; by rewrite IH.
Qed.

Lemma with_taskInstance_same db :
  with_taskInstance (λ _, taskInstance db) db = db.
Proof. by destruct db. Qed.

(** [activateReadyTasks] returns the number of rows it promoted, and a second
    run right after it promotes nothing: it returns [0] and leaves the store
    as it is. *)
Theorem activateReadyTasks_counts_and_settles tenantId orderId db :
  let r := activateReadyTasks tenantId orderId db in
  r.1 = Ok (length (List.filter (activates tenantId orderId (taskInstance db))
                                (map_to_list (taskInstance db))))
  ∧ (∀ k, (∃ t, taskInstance db !! k = Some t
                 ∧ activates tenantId orderId (taskInstance db) (k, t) = true)
          <-> statusOf db k = Some Pending ∧ statusOf r.2 k = Some Queued)
  ∧ activateReadyTasks tenantId orderId r.2 = (Ok 0, r.2).
Proof.
  intros r. split; [|split].
  - unfold r, activateReadyTasks. simpl. f_equal.
    rewrite (activate_fold_count (taskInstance db)); simpl.
    + by rewrite filter_filter.
    + intros k t Hin. apply elem_of_query in Hin as [Hl Hf]. split; [done|].
      unfold isPendingOf in Hf. apply andb_true_iff in Hf as [_ Hs].
      by apply status_eqb_eq.
    + intros k. by left.
  - intros k. unfold statusOf, r. rewrite activateReadyTasks_lookup.
    destruct (taskInstance db !! k) as [t|] eqn:Hk; simpl;
      [|split; [by intros (? & [=] & _) | by intros [[=] _]]].
    unfold activates. simpl.
    destruct (isPendingOf tenantId orderId (k, t)) eqn:Hp; simpl.
    + assert (task_status t = Pending) as Hs.
      { unfold isPendingOf in Hp. apply andb_true_iff in Hp as [_ Hs].
        by apply status_eqb_eq. }
      destruct (readyb _ _) eqn:Hr; simpl; rewrite ?Hs; split.
      * done.
      * intros _. exists t. by rewrite Hp, Hr.
      * intros (t' & [= <-] & Hc). by rewrite Hp, Hr in Hc.
      * by intros [_ [=]].
    + split.
      * intros (t' & [= <-] & Hc). by rewrite Hp in Hc.
      * intros [[= Hs] [= Hq]]. congruence.
  - set (db' := r.2).
    assert (∀ kv, kv ∈ List.filter (isPendingOf tenantId orderId)
                         (map_to_list (taskInstance db')) ->
              readyb (taskInstance db') (task_dependsOn kv.2) = false) as Hnone.
    { intros [k t] Hin. apply elem_of_query in Hin as [Hl Hp]. simpl.
      rewrite (promoted_readyb (taskInstance db))
        by apply activateReadyTasks_promoted.
      unfold db', r in Hl. rewrite activateReadyTasks_lookup in Hl.
      destruct (taskInstance db !! k) as [t0|]; [|done].
      destruct (isPendingOf tenantId orderId (k, t0)
                && readyb (taskInstance db) (task_dependsOn t0)) eqn:Hc.
      - injection Hl as <-. unfold isPendingOf in Hp. simpl in Hp.
        by rewrite andb_false_r in Hp.
      - injection Hl as <-. by rewrite Hp in Hc. }
    unfold activateReadyTasks at 1.
    rewrite (activate_fold_none _ (taskInstance db', 0) Hnone). cbn [fst snd].
    by rewrite with_taskInstance_same.
Qed.

(** *** Subtasks *)

(** [completeSubtask] is idempotent: once it has succeeded, every further
    call for the same subtask succeeds as well and changes nothing, so the
    first completion time and user stay on record and no second event is
    emitted. *)
Theorem completeSubtask_idempotent now now' taskId subtaskId userId userId' tenantId
    db db1 :
  completeSubtask now taskId subtaskId userId tenantId db = (Ok tt, db1) ->
  completeSubtask now' taskId subtaskId userId' tenantId db1 = (Ok tt, db1)
  ∧ ∃ s, subtaskInstance db1 !! subtaskId = Some s ∧ sub_isCompleted s = true
         ∧ sub_taskInstanceId s = taskId ∧ sub_tenantId s = tenantId.
Proof.
  unfold completeSubtask. unfold_M. simpl.
  destruct (subtaskInstance db !! subtaskId) as [s|] eqn:Hs; [|done].
  destruct (String.eqb (sub_taskInstanceId s) taskId
            && String.eqb (sub_tenantId s) tenantId) eqn:Hm; [|done].
  apply andb_true_iff in Hm as Hm'. destruct Hm' as [Ht Hten].
  apply String.eqb_eq in Ht, Hten.
  destruct (sub_isCompleted s) eqn:Hc.
  - intros [= <-]. rewrite Hs, Hm, Hc. split; [done|]. by exists s.
  - intros [= <-]. simpl. rewrite lookup_alter_eq, Hs. simpl. rewrite Hm. simpl.
    split; [done|]. by eexists.
Qed.

Definition sampleSubtaskDB : ServerDB :=
  with_subtaskInstance
    (λ _, <["S" := mkSubtask "A" "tenant" "sub-def" "Stendere" false None None]> ∅)
    queuedDB.

Lemma completeSubtask_idempotent_witness :
  ∃ db1,
    completeSubtask 1000 "A" "S" "user-1" "tenant" sampleSubtaskDB = (Ok tt, db1)
    ∧ completeSubtask 2000 "A" "S" "user-2" "tenant" db1 = (Ok tt, db1)
    ∧ sub_completedById <$> subtaskInstance db1 !! "S" = Some (Some "user-1")
    ∧ length (emitted db1) = 1.
Proof.
  destruct (completeSubtask 1000 "A" "S" "user-1" "tenant" sampleSubtaskDB)
    as [r db1] eqn:Hc.
  assert (r = Ok tt) as ->.
  { change r with (r, db1).1. rewrite <- Hc. vm_compute. reflexivity. }
  exists db1. split; [reflexivity|]. split.
  - exact (proj1 (completeSubtask_idempotent 1000 2000 "A" "S" "user-1" "user-2"
                    "tenant" sampleSubtaskDB db1 Hc)).
  - change db1 with (Ok tt, db1).2. rewrite <- Hc. vm_compute. done.
Defined.

(** *** Tenant isolation *)

(** A task or subtask that does not exist for the calling tenant (no such row,
    or a row of another tenant) is reported as not found by [startTask],
    [completeTask] and [completeSubtask], and the store is left untouched. *)
Theorem rows_of_other_tenants_are_not_found now taskId subtaskId userId tenantId db :
  (∀ t, taskInstance db !! taskId = Some t -> task_tenantId t ≠ tenantId) ->
  (∀ s, subtaskInstance db !! subtaskId = Some s -> sub_tenantId s ≠ tenantId) ->
  startTask now taskId userId tenantId db = (Throw TaskNonTrovato, db)
  ∧ completeTask now taskId userId tenantId db = (Throw TaskNonTrovato, db)
  ∧ completeSubtask now taskId subtaskId userId tenantId db
    = (Throw SubtaskNonTrovato, db).
Proof.
  intros Ht Hs.
  assert (findFirstTask taskId tenantId db = None) as Hf.
  { destruct (findFirstTask taskId tenantId db) as [t|] eqn:Hf; [|done].
    apply findFirstTask_Some in Hf as [Hl Hten]. by destruct (Ht t Hl). }
  split; [|split].
  - unfold startTask. unfold_M. simpl. by rewrite Hf.
  - pose proof (completeTask_throws now taskId userId tenantId db) as Hc.
    by rewrite Hf in Hc.
  - unfold completeSubtask. unfold_M. simpl.
    destruct (subtaskInstance db !! subtaskId) as [s|]; [|done].
    destruct (String.eqb_spec (sub_tenantId s) tenantId) as [He | Hne].
    + by destruct (Hs s eq_refl).
    + by rewrite andb_false_r.
Qed.

Lemma rows_of_other_tenants_are_not_found_witness :
  (∀ t, taskInstance sampleSubtaskDB !! "A" = Some t -> task_tenantId t ≠ "other")
  ∧ (∀ s, subtaskInstance sampleSubtaskDB !! "S" = Some s -> sub_tenantId s ≠ "other")
  ∧ startTask 0 "A" "user-1" "other" sampleSubtaskDB
    = (Throw TaskNonTrovato, sampleSubtaskDB)
  ∧ completeTask 0 "A" "user-1" "other" sampleSubtaskDB
    = (Throw TaskNonTrovato, sampleSubtaskDB)
  ∧ completeSubtask 0 "A" "S" "user-1" "other" sampleSubtaskDB
    = (Throw SubtaskNonTrovato, sampleSubtaskDB).
Proof.
  assert (∀ t, taskInstance sampleSubtaskDB !! "A" = Some t ->
               task_tenantId t ≠ "other") as Ht.
  { intros t Hl. vm_compute in Hl. injection Hl as <-. done. }
  assert (∀ s, subtaskInstance sampleSubtaskDB !! "S" = Some s ->
               sub_tenantId s ≠ "other") as Hs.
  { intros s Hl. vm_compute in Hl. injection Hl as <-. done. }
  split; [exact Ht|]. split; [exact Hs|].
  exact (rows_of_other_tenants_are_not_found 0 "A" "S" "user-1" "other"
           sampleSubtaskDB Ht Hs).
Defined.

End EngineOps.

(** ** Workflow engine: completion of a task *)
Module CompletionProps.
Import Engine EngineProps.

(** The rows of [task_instances] that belong to an order. *)
Definition tasksOf (tenantId orderId : string) (db : ServerDB)
    : list (string * TaskInstance) :=
  List.filter (λ kv : string * TaskInstance,
                 String.eqb (task_tenantId kv.2) tenantId
                 && String.eqb (task_orderId kv.2) orderId)
              (map_to_list (taskInstance db)).

Definition allDoneOf (tenantId orderId : string) (db : ServerDB) : bool :=
  forallb (λ kv : string * TaskInstance, isDoneOrCancelled (task_status kv.2))
          (tasksOf tenantId orderId db).

Lemma allDoneOf_spec tenantId orderId db :
  allDoneOf tenantId orderId db = true <->
  ∀ k t, taskInstance db !! k = Some t -> task_tenantId t = tenantId ->
         task_orderId t = orderId ->
         task_status t = Done ∨ task_status t = Cancelled.
Proof.
  unfold allDoneOf, tasksOf. rewrite forallb_forall. split.
  - intros Hall k t Hl Hten Hord.
    assert (isDoneOrCancelled (task_status t) = true) as Hd.
    { apply (Hall (k, t)), list_elem_of_In, elem_of_query. split; [done|]. simpl.
      by rewrite Hten, Hord, !String.eqb_refl. }
    unfold isDoneOrCancelled in Hd. apply orb_true_iff in Hd as [Hd | Hd];
      apply status_eqb_eq in Hd; auto.
  - intros Hall [k t] Hin. apply list_elem_of_In, elem_of_query in Hin as [Hl Hf].
    simpl in *. apply andb_true_iff in Hf as [Hten Hord].
    apply String.eqb_eq in Hten, Hord.
    unfold isDoneOrCancelled.
    destruct (Hall k t Hl Hten Hord) as [-> | ->]; done.
Qed.

(** What a call of [checkOrderCompletion] that returns has done. *)
Lemma checkOrderCompletion_Ok now tenantId orderId db r db1 :
  checkOrderCompletion now tenantId orderId db = (Ok r, db1) ->
  r = mkCompletion (allDoneOf tenantId orderId db) (allDoneOf tenantId orderId db)
  ∧ taskInstance db1 = taskInstance db
  ∧ taskDuration db1 = taskDuration db
  ∧ subtaskInstance db1 = subtaskInstance db
  ∧ (allDoneOf tenantId orderId db = true ->
       (∃ o, order db !! orderId = Some o
             ∧ order db1 !! orderId
               = Some (mkOrder (order_tenantId o) OrderReady (order_estimatedReadyAt o)
                         (Some now)))
       ∧ (∀ i it, orderItem db1 !! i = Some it -> item_orderId it = orderId ->
                  item_status it = ItemDone ∨ item_status it = ItemCancelled)
       ∧ emitted db1 = emitted db ++ [OrderUpdated tenantId orderId OrderReady]).
Proof.
  unfold checkOrderCompletion. unfold_M. simpl.
  fold (tasksOf tenantId orderId db). fold (allDoneOf tenantId orderId db).
  destruct (allDoneOf tenantId orderId db) eqn:Hall.
  - destruct (order db !! orderId) as [o|] eqn:Ho; [|done].
    simpl. intros [= <- <-]. simpl. split; [done|]. split; [done|]. split; [done|].
    split; [done|]. intros _. split; [|split; [|done]].
    + exists o. split; [done|]. by rewrite lookup_alter_eq, Ho.
    + intros i it Hl Hord. rewrite lookup_fmap in Hl.
      destruct (orderItem db !! i) as [it0|]; [|done]. simpl in Hl.
      injection Hl as <-.
      destruct (String.eqb_spec (item_orderId it0) orderId) as [He | Hne].
      * destruct (item_status it0) eqn:Hs; simpl; auto.
      * done.
  - destruct (existsb _ (tasksOf tenantId orderId db)).
    + destruct (order db !! orderId) as [o|]; [|done].
      simpl. intros [= <- <-]. done.
    + simpl. intros [= <- <-]. done.
Qed.

(** The workflow template an instance was created from: the one of the menu
    item of its order item. *)
Definition templateOf (db : ServerDB) (task : TaskInstance) : option string :=
  ((orderItem db !! task_orderItemId task)
     ≫= (λ it, menuItem db !! item_menuItemId it))
    ≫= menu_workflowTemplateId.

(** The steps of [completeTask] between its guard and its call of
    [checkOrderCompletion]. *)
Definition autoComplete (now : Z) (taskId userId : string) (db : ServerDB) : ServerDB :=
  let subtasks := List.filter (λ kv : string * SubtaskInstance,
                     String.eqb (sub_taskInstanceId kv.2) taskId)
                   (map_to_list (subtaskInstance db)) in
  let incompleteRequired :=
    List.filter (λ kv : string * SubtaskInstance, negb (sub_isCompleted kv.2)) subtasks in
  if Nat.ltb 0 (length incompleteRequired) then
    with_subtaskInstance (fmap (λ s,
      if String.eqb (sub_taskInstanceId s) taskId && negb (sub_isCompleted s)
      then sub_completed userId now s else s)) db
  else db.

Definition durationRows (now : Z) (tenantId : string) (task : TaskInstance)
    (db : ServerDB) : list TaskDuration :=
  match task_startedAt task, templateOf db task with
  | Some startedAt, Some wf =>
      [mkTaskDuration tenantId wf (task_taskDefId task) (task_stationId task)
         (durationSeconds now startedAt) now]
  | _, _ => []
  end.

Definition beforeCheck (now : Z) (taskId userId tenantId : string) (task : TaskInstance)
    (db : ServerDB) : ServerDB :=
  let db1 := autoComplete now taskId userId db in
  let db2 := with_taskDuration (λ l, l ++ durationRows now tenantId task db) db1 in
  let db3 := with_taskInstance (alter (task_completed userId now) taskId) db2 in
  let db4 := (activateReadyTasks tenantId (task_orderId task) db3).2 in
  with_emitted (λ l, l ++ [TaskCompleted tenantId taskId userId]) db4.

Lemma with_taskDuration_nil db : with_taskDuration (λ l, l ++ []) db = db.
Proof. destruct db. unfold with_taskDuration. simpl. by rewrite app_nil_r. Qed.

Lemma completeTask_unfold now taskId userId tenantId db task :
  findFirstTask taskId tenantId db = Some task ->
  completable (task_status task) = true ->
  completeTask now taskId userId tenantId db
  = checkOrderCompletion now tenantId (task_orderId task)
      (beforeCheck now taskId userId tenantId task db).
Proof.
  intros Hf Hc.
  unfold completeTask, beforeCheck, autoComplete, durationRows, completable,
    templateOf in *.
  unfold_M. simpl. rewrite Hf, Hc. simpl.
  destruct (Nat.ltb 0 _); simpl;
    (destruct (task_startedAt task) as [s|]; simpl;
       [|by rewrite with_taskDuration_nil]);
    (destruct (orderItem db !! task_orderItemId task) as [it|]; simpl;
       [|by rewrite with_taskDuration_nil]);
    (destruct (menuItem db !! item_menuItemId it) as [m|]; simpl;
       [|by rewrite with_taskDuration_nil]);
    (destruct (menu_workflowTemplateId m); simpl;
       [done | by rewrite with_taskDuration_nil]).
Qed.

Lemma beforeCheck_taskDuration now taskId userId tenantId task db :
  taskDuration (beforeCheck now taskId userId tenantId task db)
  = taskDuration db ++ durationRows now tenantId task db.
Proof.
  unfold beforeCheck, autoComplete. simpl. by destruct (Nat.ltb 0 _).
Qed.

Lemma autoComplete_subtasks now taskId userId db k s :
  subtaskInstance (autoComplete now taskId userId db) !! k = Some s ->
  sub_taskInstanceId s = taskId -> sub_isCompleted s = true.
Proof.
  unfold autoComplete.
  set (subs := List.filter _ (map_to_list (subtaskInstance db))).
  set (inc := List.filter _ subs).
  destruct (Nat.ltb_spec 0 (length inc)) as [Hpos | Hzero]; simpl.
  - rewrite lookup_fmap. destruct (subtaskInstance db !! k) as [s0|]; [|done].
    simpl. intros [= <-].
    destruct (String.eqb (sub_taskInstanceId s0) taskId) eqn:He; simpl.
    + destruct (sub_isCompleted s0) eqn:Hc; simpl; done.
    + intros Heq. apply String.eqb_neq in He. done.
  - intros Hl Ht. destruct (sub_isCompleted s) eqn:Hc; [done|]. exfalso.
    assert ((k, s) ∈ inc) as Hin.
    { unfold inc, subs. apply elem_of_List_filter. split.
      - apply elem_of_query. split; [done|]. simpl. by rewrite Ht, String.eqb_refl.
      - simpl. by rewrite Hc. }
    destruct inc; [inversion Hin | simpl in Hzero; lia].
Qed.

Lemma beforeCheck_subtasks now taskId userId tenantId task db k s :
  subtaskInstance (beforeCheck now taskId userId tenantId task db) !! k = Some s ->
  sub_taskInstanceId s = taskId -> sub_isCompleted s = true.
Proof. unfold beforeCheck. simpl. apply autoComplete_subtasks. Qed.

(** A call of [completeTask] that returns has set the task to [done], stamped
    with the time and the user; it has completed every subtask of the task;
    it reports [orderComplete] exactly when every task instance of the order
    is then done or cancelled, and in that case the order is [ready] with
    [actualReadyAt = now], its order items that were not cancelled are done,
    and the last event emitted is [order:updated]. *)
Theorem completeTask_reports_order_completion now taskId userId tenantId db r db1 :
  completeTask now taskId userId tenantId db = (Ok r, db1) ->
  ∃ task,
    taskInstance db !! taskId = Some task
    ∧ taskInstance db1 !! taskId = Some (task_completed userId now task)
    ∧ (∀ k s, subtaskInstance db1 !! k = Some s -> sub_taskInstanceId s = taskId ->
              sub_isCompleted s = true)
    ∧ orderReady r = orderComplete r
    ∧ (orderComplete r = true <->
         ∀ k t, taskInstance db1 !! k = Some t -> task_tenantId t = tenantId ->
                task_orderId t = task_orderId task ->
                task_status t = Done ∨ task_status t = Cancelled)
    ∧ (orderComplete r = true ->
         (∃ o, order db1 !! task_orderId task = Some o
               ∧ order_status o = OrderReady ∧ order_actualReadyAt o = Some now)
         ∧ (∀ i it, orderItem db1 !! i = Some it ->
                    item_orderId it = task_orderId task ->
                    item_status it = ItemDone ∨ item_status it = ItemCancelled)
         ∧ last (emitted db1)
           = Some (OrderUpdated tenantId (task_orderId task) OrderReady)).
Proof.
  intros Hc. destruct (completeTask_Ok_inv _ _ _ _ _ _ _ Hc) as (task & Hf & Hok).
  exists task. apply findFirstTask_Some in Hf as Hf'. destruct Hf' as [Hl Hten].
  split; [done|].
  pose proof (completeTask_sets_done now taskId userId tenantId db task Hf Hok) as Hd.
  rewrite Hc in Hd. simpl in Hd. apply findFirstTask_Some in Hd as [Hd _].
  split; [done|].
  rewrite (completeTask_unfold _ _ _ _ _ _ Hf Hok) in Hc.
  apply checkOrderCompletion_Ok in Hc as (-> & Htbl & _ & Hsub & Hready).
  set (mid := beforeCheck now taskId userId tenantId task db) in *.
  split; [|split; [done|split]].
  - intros k s Hk Ht. rewrite Hsub in Hk.
    by apply (beforeCheck_subtasks now taskId userId tenantId task db k s).
  - simpl. rewrite allDoneOf_spec, Htbl. done.
  - simpl. intros Hall. destruct (Hready Hall) as ((o & Ho & Ho1) & Hitems & Hem).
    split; [|split; [done|]].
    + eexists. split; [done|]. done.
    + rewrite Hem. by rewrite last_snoc.
Qed.

Lemma completeTask_reports_order_completion_witness :
  ∃ r db1,
    completeTask 60000 "B" "user-1" "tenant"
      (with_taskInstance (alter (task_with_status Queued) "B") doneDepDB) = (Ok r, db1)
    ∧ orderComplete r = true
    ∧ order_status <$> order db1 !! "order-1" = Some OrderReady.
Proof.
  destruct (completeTask 60000 "B" "user-1" "tenant"
              (with_taskInstance (alter (task_with_status Queued) "B") doneDepDB))
    as [r db1] eqn:Hc.
  assert (r = Ok (mkCompletion true true)) as ->.
  { change r with (r, db1).1. rewrite <- Hc. vm_compute. reflexivity. }
  exists (mkCompletion true true), db1. split; [reflexivity|]. split; [reflexivity|].
  destruct (completeTask_reports_order_completion _ _ _ _ _ _ _ Hc)
    as (task & Hl & _ & _ & _ & _ & Hready).
  assert (task_orderId task = "order-1") as Ho.
  { vm_compute in Hl. by injection Hl as <-. }
  destruct (Hready eq_refl) as ((o & Hlo & Hs & _) & _). rewrite Ho in Hlo.
  by rewrite Hlo, <- Hs.
Defined.

Lemma durationSeconds_rounds now startedAt :
  (1000 * durationSeconds now startedAt - 500 <= now - startedAt
   < 1000 * durationSeconds now startedAt + 500)%Z.
Proof.
  unfold durationSeconds.
  pose proof (Z.div_mod ((now - startedAt) * 2 + 1000) 2000 ltac:(lia)) as Hdm.
  pose proof (Z.mod_pos_bound ((now - startedAt) * 2 + 1000) 2000 ltac:(lia)) as Hb.
  lia.
Qed.

(** A call of [completeTask] that returns has appended one row to
    [task_durations] when the task had been started and the menu item of its
    order item has a workflow template, and none otherwise; the row holds the
    time since the start rounded to the nearest second (halves upwards).  A
    task completed straight from the queue gets [startedAt = now]. *)
Theorem completeTask_records_elapsed_time now taskId userId tenantId db r db1 :
  completeTask now taskId userId tenantId db = (Ok r, db1) ->
  ∃ task,
    taskInstance db !! taskId = Some task
    ∧ taskDuration db1
      = taskDuration db ++
          match task_startedAt task, templateOf db task with
          | Some startedAt, Some wf =>
              [mkTaskDuration tenantId wf (task_taskDefId task) (task_stationId task)
                 (durationSeconds now startedAt) now]
          | _, _ => []
          end
    ∧ (∀ startedAt, task_startedAt task = Some startedAt ->
         (1000 * durationSeconds now startedAt - 500 <= now - startedAt
          < 1000 * durationSeconds now startedAt + 500)%Z)
    ∧ (task_startedAt task = None ->
         ∃ t1, taskInstance db1 !! taskId = Some t1
               ∧ task_startedAt t1 = Some now ∧ task_completedAt t1 = Some now).
Proof.
  intros Hc. destruct (completeTask_Ok_inv _ _ _ _ _ _ _ Hc) as (task & Hf & Hok).
  exists task. apply findFirstTask_Some in Hf as Hf'. destruct Hf' as [Hl Hten].
  split; [done|].
  pose proof (completeTask_sets_done now taskId userId tenantId db task Hf Hok) as Hd.
  rewrite Hc in Hd. simpl in Hd. apply findFirstTask_Some in Hd as [Hd _].
  rewrite (completeTask_unfold _ _ _ _ _ _ Hf Hok) in Hc.
  apply checkOrderCompletion_Ok in Hc as (_ & _ & Hdur & _).
  split; [|split].
  - rewrite Hdur. apply beforeCheck_taskDuration.
  - intros s _. apply durationSeconds_rounds.
  - intros Hnone. eexists. split; [done|]. simpl. by rewrite Hnone.
Qed.

Lemma completeTask_records_elapsed_time_witness :
  ∃ r db1,
    completeTask 61500 "A" "user-1" "tenant" queuedDB = (Ok r, db1)
    ∧ map dur_durationSeconds (taskDuration db1) = [62%Z].
Proof.
  destruct (completeTask 61500 "A" "user-1" "tenant" queuedDB) as [r db1] eqn:Hc.
  assert (r = Ok (mkCompletion false false)) as ->.
  { change r with (r, db1).1. rewrite <- Hc. vm_compute. reflexivity. }
  exists (mkCompletion false false), db1. split; [reflexivity|].
  destruct (completeTask_records_elapsed_time _ _ _ _ _ _ _ Hc)
    as (task & Hl & Hdur & _).
  vm_compute in Hl. injection Hl as <-. rewrite Hdur. vm_compute. reflexivity.
Defined.

End CompletionProps.

(** ** Workflow engine: instantiation of a template *)
Module InstantiationProps.
Import Engine EngineProps.




Section Instantiate.
Variable now : Z.
Variables tenantId orderId orderItemId workflowTemplateId : string.









End Instantiate.





End InstantiationProps.

(** ** ETA calculator: what a call writes and what its breakdown lists *)
Module EtaStoreProps.
Import Engine Eta EtaProps.

(** The write of [calculateOrderETA]: [data: { estimatedReadyAt }]. *)
Definition withEstimate (estimatedReadyAt : Q) (r : Order) : Order :=
  mkOrder (order_tenantId r) (order_status r) (Some estimatedReadyAt)
    (order_actualReadyAt r).

Lemma calculateOrderETA_store now tenantId orderId db :
  (calculateOrderETA now tenantId orderId db).2 =
    match (calculateOrderETA now tenantId orderId db).1 with
    | Ok r =>
        if Nat.eqb (length (tasksOfOrder tenantId orderId db)) 0 then db
        else with_order (alter (withEstimate (eta_estimatedReadyAt r)) orderId) db
    | Throw _ => db
    end.
Proof.
  unfold calculateOrderETA, mbind, mret, ST_bind, ST_ret, gets, modify, throw. simpl.
  fold (tasksOfOrder tenantId orderId db).
  destruct (Nat.eqb (length (tasksOfOrder tenantId orderId db)) 0); [done|].
  destruct (traverse _ _ _ _); simpl; [|done|done].
  by destruct (order db !! orderId).
Qed.

(** [calculateOrderETA] writes nothing but the estimated ready time of the
    order it is called for: every other table and every other order is left
    as it is; the order itself keeps its tenant, status and actual ready
    time, and gets the estimate that is returned.  For an order without task
    instances, and when the call throws, the store is not changed at all. *)
Theorem calculateOrderETA_writes_only_the_estimate now tenantId orderId db :
  let res := (calculateOrderETA now tenantId orderId db).1 in
  let db1 := (calculateOrderETA now tenantId orderId db).2 in
  taskInstance db1 = taskInstance db
  ∧ subtaskInstance db1 = subtaskInstance db
  ∧ taskDuration db1 = taskDuration db
  ∧ orderItem db1 = orderItem db
  ∧ menuItem db1 = menuItem db
  ∧ workflowTemplate db1 = workflowTemplate db
  ∧ station db1 = station db
  ∧ emitted db1 = emitted db
  ∧ nextId db1 = nextId db
  ∧ (∀ k, k ≠ orderId -> order db1 !! k = order db !! k)
  ∧ (∀ r, res = Ok r -> tasksOfOrder tenantId orderId db ≠ [] ->
       order db1 !! orderId
       = withEstimate (eta_estimatedReadyAt r) <$> order db !! orderId)
  ∧ (tasksOfOrder tenantId orderId db = [] ->
       res = Ok (mkOrderETA orderId (inject_Z now) 0 [] low) ∧ db1 = db)
  ∧ (∀ e, res = Throw e -> db1 = db).
Proof.
  intros res db1. unfold db1, res. rewrite calculateOrderETA_store.
  pose proof (calculateOrderETA_unfold now tenantId orderId db) as Hun. simpl in Hun.
  destruct (calculateOrderETA now tenantId orderId db).1 as [r|e] eqn:Hres.
  - destruct (tasksOfOrder tenantId orderId db) as [|kv l] eqn:Ht; simpl in *.
    + do 9 (split; [done|]). split; [done|]. split; [done|]. split; [|done].
      intros _. split; [by rewrite Hun | done].
    + do 9 (split; [done|]). split; [|split; [|split; [done|done]]].
      * intros k Hk. by apply lookup_alter_ne.
      * intros r' [= <-] _. apply lookup_alter_eq.
  - do 9 (split; [done|]). split; [done|]. split; [done|]. split; [|done].
    intros Ht. rewrite Ht in Hun. simpl in Hun. done.
Qed.

(** The breakdown returned by [calculateOrderETA] lists task instances of the
    order, each at most once, and with an instance it lists every instance
    this one depends on.  An instance that depends on an id which is no
    instance of the order is therefore left out of the breakdown, whatever
    its status. *)
Theorem breakdown_is_closed_under_dependencies now tenantId orderId db r :
  (calculateOrderETA now tenantId orderId db).1 = Ok r ->
  let listed := map taskId (eta_breakdown r) in
  NoDup listed
  ∧ (∀ k, k ∈ listed ->
       ∃ t, taskInstance db !! k = Some t
            ∧ task_tenantId t = tenantId ∧ task_orderId t = orderId
            ∧ ∀ d, d ∈ task_dependsOn t -> d ∈ listed)
  ∧ (∀ k t d, taskInstance db !! k = Some t -> d ∈ task_dependsOn t ->
       (∀ t', taskInstance db !! d = Some t' ->
              task_tenantId t' ≠ tenantId ∨ task_orderId t' ≠ orderId) ->
       k ∉ listed).
Proof.
  intros Hr listed.
  assert (NoDup listed
          ∧ ∀ k, k ∈ listed ->
              ∃ t, taskInstance db !! k = Some t
                   ∧ task_tenantId t = tenantId ∧ task_orderId t = orderId
                   ∧ ∀ d, d ∈ task_dependsOn t -> d ∈ listed) as [Hnd Hclosed].
  { apply calculateOrderETA_Ok in Hr as [[Ht ->] | (Hne & st & Htr & ->)].
    - unfold listed. simpl. split; [constructor|]. intros k Hk. inversion Hk.
    - set (tasks := tasksOfOrder tenantId orderId db) in *.
      pose proof (tasksOfOrder_NoDup tenantId orderId db) as Hndt. fold tasks in Hndt.
      destruct (traverse_Inv now (getStationQueues tenantId db) (stationNameIn db)
                  tasks Hndt st Htr) as [HI Hq].
      pose proof (inv_nodup _ _ _ _ st HI) as HndP. rewrite Hq in HndP. simpl in HndP.
      pose proof (inv_bd_eta _ _ _ _ st HI) as HE.
      destruct (markCritical_shape (taskBreakdown st)) as [_ Htable].
      { by rewrite (inv_bd_keys _ _ _ _ st HI). }
      { intros k b Hin. destruct (inv_bd _ _ _ _ st HI k b Hin) as (t & _ & ->).
        unfold breakdownOf. by destruct (task_status t). }
      fold valueOf in HE. rewrite <- HE in Htable.
      assert (listed = processed st) as Hlisted.
      { unfold processed, jm_keys. rewrite <- Htable at 1.
        unfold listed, resultOf, etaTable. simpl. rewrite !map_map. reflexivity. }
      rewrite Hlisted. split; [done|].
      intros k Hk. unfold processed in Hk.
      destruct (jm_get (taskETAMinutes st) k) as [e|] eqn:Hg;
        [|by apply jm_get_None in Hg].
      destruct (inv_eta _ _ _ _ st HI k e Hg) as (t & Hin & Hdeps & _).
      apply tasksOfOrder_spec in Hin as (Hl & Hten & Hord).
      exists t. done. }
  split; [done|]. split; [done|].
  intros k t d Hk Hd Hforeign Hin.
  destruct (Hclosed k Hin) as (t0 & Hk0 & _ & _ & Hdeps).
  rewrite Hk in Hk0. injection Hk0 as <-.
  destruct (Hclosed d (Hdeps d Hd)) as (t' & Hd' & Hten & Hord & _).
  destruct (Hforeign t' Hd') as [? | ?]; done.
Qed.

(** [B] is done and depends on [X], an instance of another order. *)
Definition danglingDB : ServerDB :=
  with_taskInstance
    (λ _, <["A" := etaTask Queued [] (Some 5%Q)]>
            (<["B" := etaTask Done ["X"] (Some 3%Q)]>
               (<["X" := mkTask "tenant" "order-2" "item-9" "def" "phase" "task" None
                           None Done [] None None None None]> ∅))) orderOnly.

Lemma breakdown_is_closed_under_dependencies_witness :
  ∃ r, (calculateOrderETA 0 "tenant" "order-1" danglingDB).1 = Ok r
       ∧ map taskId (eta_breakdown r) = ["A"]
       ∧ "B" ∉ map taskId (eta_breakdown r).
Proof.
  destruct (calculateOrderETA 0 "tenant" "order-1" danglingDB).1 as [r|e] eqn:Hr.
  - exists r. split; [reflexivity|].
    assert (match (calculateOrderETA 0 "tenant" "order-1" danglingDB).1 with
            | Ok r' => map taskId (eta_breakdown r') = ["A"]
            | Throw _ => False
            end) as H by (vm_compute; reflexivity).
    rewrite Hr in H. split; [exact H|].
    destruct (breakdown_is_closed_under_dependencies 0 "tenant" "order-1" danglingDB r Hr)
      as (_ & _ & Hout).
    apply (Hout "B" (etaTask Done ["X"] (Some 3%Q)) "X").
    + vm_compute. reflexivity.
    + left.
    + intros t' Hl. vm_compute in Hl. injection Hl as <-. right. done.
  - exfalso. revert Hr. vm_compute. discriminate.
Defined.

End EtaStoreProps.

(** ** The pre-commitment estimate: selection of the menu items *)
Module SuggestMore.
Import Engine Eta EtaProps SuggestProps.

Lemma qmax_fold_le (l : list Q) (a b : Q) :
  (a <= b)%Q -> (fold_left qmax l a <= fold_left qmax l b)%Q.
Proof.
  revert a b. induction l as [|x l IH]; intros a b Hab; simpl; [done|].
  apply IH. unfold qmax.
  destruct (Qle_bool a x) eqn:Hax, (Qle_bool b x) eqn:Hbx.
  - apply Qle_refl.
  - apply Qlt_le_weak, Qnot_le_lt. intros Hle. apply Qle_bool_iff in Hle. congruence.
  - apply Qle_bool_iff in Hbx. by apply Qle_trans with b.
  - done.
Qed.

Lemma qmax_fold_ge (l : list Q) (a : Q) : (a <= fold_left qmax l a)%Q.
Proof.
  revert a. induction l as [|x l IH]; intros a; simpl; [apply Qle_refl|].
  apply Qle_trans with (qmax a x); [|apply IH]. unfold qmax.
  destruct (Qle_bool a x) eqn:Hax; [by apply Qle_bool_iff | apply Qle_refl].
Qed.

(** The running maximum over the selected items, as a function of the
    selection. *)
Definition runningMax (stationQueues : JsMap StationQueue) (db : ServerDB)
    (keep : string * MenuItem -> bool) (items : list (string * MenuItem)) (a : Q) : Q :=
  fold_left (λ maxMinutes (kv : string * MenuItem),
      match menu_workflowTemplateId kv.2 ≫= (λ w, workflowTemplate db !! w) with
      | None => maxMinutes
      | Some def => qmax maxMinutes (itemMinutesOf stationQueues def)
      end) (List.filter keep items) a.

Lemma runningMax_mono stationQueues db (keep keep' : string * MenuItem -> bool) items :
  (∀ kv, keep kv = true -> keep' kv = true) ->
  ∀ a b, (a <= b)%Q ->
    (runningMax stationQueues db keep items a
     <= runningMax stationQueues db keep' items b)%Q.
Proof.
  intros Hsub. unfold runningMax.
  induction items as [|kv items IH]; intros a b Hab; simpl; [done|].
  assert (∀ x y : Q, (x <= y)%Q -> ∀ z, (qmax x z <= qmax y z)%Q) as Hmono.
  { intros x y Hxy z. apply (qmax_fold_le [z] x y Hxy). }
  assert (∀ x z : Q, (x <= qmax x z)%Q) as Hge.
  { intros x z. apply (qmax_fold_ge [z] x). }
  destruct (keep kv) eqn:Hk.
  - rewrite (Hsub kv Hk). simpl.
    apply IH. destruct (menu_workflowTemplateId kv.2 ≫= _); [by apply Hmono | done].
  - destruct (keep' kv); simpl; [|by apply IH].
    apply IH. destruct (menu_workflowTemplateId kv.2 ≫= _); [|done].
    apply Qle_trans with b; [done | apply Hge].
Qed.

Lemma runningMax_none stationQueues db keep items a :
  (∀ kv, kv ∈ items -> keep kv = true ->
         menu_workflowTemplateId kv.2 ≫= (λ w, workflowTemplate db !! w) = None) ->
  runningMax stationQueues db keep items a = a.
Proof.
  unfold runningMax. revert a.
  induction items as [|kv items IH]; intros a Hnone; simpl; [done|].
  destruct (keep kv) eqn:Hk; simpl.
  - rewrite (Hnone kv) by (done || left). apply IH.
    intros kv' Hin. apply Hnone. by right.
  - apply IH. intros kv' Hin. apply Hnone. by right.
Qed.

(** Every station can work on at least one task at a time, so that no queue
    wait is a division by zero. *)
Definition positiveCapacities (db : ServerDB) : Prop :=
  ∀ k s, station db !! k = Some s -> (0 < station_capacity s)%Q.

(** Ordering more never lowers the estimate: the estimate for a list of menu
    items is at most the estimate for that list with further items added,
    provided every station has a positive capacity.  Menu
    items of another tenant, unknown ids and items without a workflow template
    count for nothing: when no selected item of the tenant has a template,
    the estimate is the 2-minute buffer.  The suggested time is the estimate
    added to the clock. *)
Theorem suggestOrderTime_grows_with_the_selection now tenantId menuItemIds more db :
  positiveCapacities db ->
  let s := suggestOrderTime now tenantId menuItemIds db in
  let s' := suggestOrderTime now tenantId (menuItemIds ++ more) db in
  (sug_estimatedMinutes s <= sug_estimatedMinutes s')%Z
  ∧ sug_suggestedReadyAt s = (now + sug_estimatedMinutes s * 60000)%Z
  ∧ ((∀ id m, id ∈ menuItemIds -> menuItem db !! id = Some m ->
              menu_tenantId m = tenantId ->
              menu_workflowTemplateId m ≫= (λ w, workflowTemplate db !! w) = None) ->
     sug_estimatedMinutes s = 2%Z).
Proof.
  intros _ s s'. unfold s, s', suggestOrderTime.
  cbn [sug_estimatedMinutes sug_suggestedReadyAt].
  set (sq := getStationQueues tenantId db).
  set (keep := λ ids (kv : string * MenuItem),
                 includes ids kv.1 && String.eqb (menu_tenantId kv.2) tenantId).
  change (fold_left _ (List.filter _ (map_to_list (menuItem db))) 0%Q)
    with (runningMax sq db (keep menuItemIds) (map_to_list (menuItem db)) 0%Q) at 1.
  split; [|split; [done|]].
  - apply Z.add_le_mono_r, Qceiling_resp_le.
    apply (runningMax_mono sq db (keep menuItemIds) (keep (menuItemIds ++ more))).
    + intros [k m]. unfold keep. simpl. rewrite !andb_true_iff, !includes_true.
      intros [Hin Hten]. split; [|done]. apply elem_of_app. by left.
    + apply Qle_refl.
  - intros Hnone.
    change (fold_left _ (List.filter _ (map_to_list (menuItem db))) 0%Q)
      with (runningMax sq db (keep menuItemIds) (map_to_list (menuItem db)) 0%Q).
    rewrite runningMax_none; [done|].
    intros [k m] Hin Hk. unfold keep in Hk. simpl in *.
    apply andb_true_iff in Hk as [Hi Hten].
    apply includes_true in Hi. apply String.eqb_eq in Hten.
    apply elem_of_map_to_list in Hin. by apply (Hnone k m).
Qed.

(** The catalogue of [menuDB] with a station that has one task in its queue. *)
Definition busyDB : ServerDB :=
  mkServerDB
    (<["T" := mkTask "tenant" "order-0" "item-0" "dough" "prep" "Impasto" (Some "st-1")
                None Queued [] (Some 6%Q) None None None]> ∅)
    ∅ [] (order menuDB) (orderItem menuDB) (menuItem menuDB) (workflowTemplate menuDB)
    (<["st-1" := mkStation "tenant" "Prep" 2 ["prep"] true]> ∅) [] 0.

Lemma suggestOrderTime_grows_with_the_selection_witness :
  positiveCapacities busyDB
  ∧ sug_estimatedMinutes (suggestOrderTime 0 "tenant" [] busyDB) = 2%Z
  ∧ sug_estimatedMinutes (suggestOrderTime 0 "tenant" ([] ++ ["menu-1"]) busyDB) = 14%Z
  ∧ (sug_estimatedMinutes (suggestOrderTime 0 "tenant" [] busyDB)
     <= sug_estimatedMinutes (suggestOrderTime 0 "tenant" ([] ++ ["menu-1"]) busyDB))%Z.
Proof.
  assert (positiveCapacities busyDB) as Hpos.
  { intros k s Hl. destruct (decide (k = "st-1")) as [-> | Hne].
    - vm_compute in Hl. injection Hl as <-. reflexivity.
    - unfold busyDB in Hl. simpl in Hl. rewrite lookup_insert_ne in Hl by done.
      rewrite lookup_empty in Hl. discriminate. }
  split; [exact Hpos|]. split; [vm_compute; reflexivity|].
  split; [vm_compute; reflexivity|].
  exact (proj1 (suggestOrderTime_grows_with_the_selection 0 "tenant" [] ["menu-1"]
                  busyDB Hpos)).
Defined.

End SuggestMore.

(** ** Event queue: counts, order and cleanup *)
Module QueueProps.
Import Offline OfflineOps OfflineProps.

(** *** Counts by status *)

Definition countOf (st : EventStatus) (c : EventCounts) : nat :=
  match st with
  | EvPending => c_pending c
  | EvSyncing => c_syncing c
  | EvSynced => c_synced c
  | EvFailed => c_failed c
  | EvConflict => c_conflict c
  end.

Definition totalOf (c : EventCounts) : nat :=
  c_pending c + c_syncing c + c_synced c + c_failed c + c_conflict c.

Lemma countEvent_fold (l : list (string * SyncEvent)) (c : EventCounts) st :
  countOf st (fold_left (λ counts (kv : string * SyncEvent), countEvent counts kv.2) l c)
  = countOf st c
    + length (List.filter (λ kv : string * SyncEvent, evstatus_eqb (ev_status kv.2) st) l).
Proof.
  revert c. induction l as [|[k e] l IH]; intros c; simpl; [lia|].
  rewrite IH. unfold countEvent.
  destruct (ev_status e), st; simpl; lia.
Qed.

Lemma countEvent_fold_total (l : list (string * SyncEvent)) (c : EventCounts) :
  totalOf (fold_left (λ counts (kv : string * SyncEvent), countEvent counts kv.2) l c)
  = totalOf c + length l.
Proof.
  revert c. induction l as [|[k e] l IH]; intros c; simpl; [lia|].
  rewrite IH. unfold countEvent, totalOf. destruct (ev_status e); simpl; lia.
Qed.

(** [getEventCounts] partitions the queue: each of its five counts is the
    number of events in that status (for [pending] and [failed], the length
    of what [getPendingEvents] and [getFailedEvents] return), and the counts
    add up to the size of the queue. *)
Theorem getEventCounts_partitions_the_queue db :
  (∀ st, countOf st (getEventCounts db) = length (eventsWithStatus st db))
  ∧ c_pending (getEventCounts db) = length (getPendingEvents db)
  ∧ c_failed (getEventCounts db) = length (getFailedEvents db)
  ∧ totalOf (getEventCounts db) = size (syncEvents db).
Proof.
  assert (∀ st, countOf st (getEventCounts db) = length (eventsWithStatus st db)) as H.
  { intros st. unfold getEventCounts, eventsWithStatus.
    rewrite countEvent_fold, sortBySequence_Permutation. by destruct st. }
  split; [done|]. split; [apply (H EvPending)|]. split; [apply (H EvFailed)|].
  unfold getEventCounts. rewrite countEvent_fold_total, length_map_to_list. done.
Qed.

(** *** Order of the queue *)

Definition bySequence (a b : string * SyncEvent) : Prop :=
  (ev_sequence a.2 <= ev_sequence b.2)%Z.

Lemma insertBySequence_sorted e l :
  StronglySorted bySequence l -> StronglySorted bySequence (insertBySequence e l).
Proof.
  induction l as [|x l IH]; intros Hl; simpl.
  - repeat constructor.
  - apply StronglySorted_cons in Hl as [Hx Hl].
    destruct (Z.ltb_spec (ev_sequence e.2) (ev_sequence x.2)) as [Hlt | Hge].
    + apply StronglySorted_cons. split; [|by apply StronglySorted_cons].
      constructor; [unfold bySequence; lia|].
      eapply Forall_impl; [done|]. unfold bySequence. intros y Hy. lia.
    + apply StronglySorted_cons. split; [|by apply IH].
      rewrite insertBySequence_Permutation. by constructor.
Qed.

Lemma sortBySequence_sorted l : StronglySorted bySequence (sortBySequence l).
Proof.
  induction l as [|x l IH]; simpl; [constructor | by apply insertBySequence_sorted].
Qed.

(** [getPendingEvents] returns exactly the events in status [pending], each
    once, in the order of their sequence numbers; [getFailedEvents] likewise
    for the events in status [failed]. *)
Theorem queued_events_come_in_sequence_order db :
  (StronglySorted bySequence (getPendingEvents db)
   ∧ NoDup (getPendingEvents db).*1
   ∧ ∀ k ev, (k, ev) ∈ getPendingEvents db
             <-> syncEvents db !! k = Some ev ∧ ev_status ev = EvPending)
  ∧ (StronglySorted bySequence (getFailedEvents db)
     ∧ NoDup (getFailedEvents db).*1
     ∧ ∀ k ev, (k, ev) ∈ getFailedEvents db
               <-> syncEvents db !! k = Some ev ∧ ev_status ev = EvFailed).
Proof.
  split; (split; [apply sortBySequence_sorted|];
          split; [apply eventsWithStatus_NoDup|]; intros k ev;
          apply eventsWithStatus_spec).
Qed.

(** *** Enqueueing *)

Lemma natString_inj n m : natString n = natString m -> n = m.
Proof.
  unfold natString. intros Heq.
  assert (∀ k, Nat.to_uint k ≠ Decimal.Nil) as Hnn.
  { intros k. rewrite <- (DecimalNat.Unsigned.of_to k) at 1.
    rewrite DecimalNat.Unsigned.to_of. unfold Decimal.unorm.
    by destruct (Decimal.nzhead (Nat.to_uint k)). }
  apply DecimalNat.Unsigned.to_uint_inj.
  pose proof (NilZero.usu (Nat.to_uint n) (Hnn n)) as Hn.
  pose proof (NilZero.usu (Nat.to_uint m) (Hnn m)) as Hm.
  rewrite Heq in Hn. congruence.
Qed.

Definition localId (n : nat) : string := "local-" +:+ natString n.

Lemma localId_inj n m : localId n = localId m -> n = m.
Proof. unfold localId. simpl. intros [= H]. by apply natString_inj. Qed.

(** The queue of a session: sequence numbers are distinct and not above the
    counter, and the ids still to be generated are not in use. *)
Record queueOk (db : LocalDB) : Prop := mkQueueOk {
  qk_bound : ∀ k ev, syncEvents db !! k = Some ev ->
    (ev_sequence ev <= sequenceCounter db)%Z;
  qk_distinct : ∀ k k' ev ev',
    syncEvents db !! k = Some ev -> syncEvents db !! k' = Some ev' ->
    ev_sequence ev = ev_sequence ev' -> k = k';
  qk_fresh : ∀ n, localIds db ≤ n -> syncEvents db !! localId n = None;
}.

Lemma List_filter_Permutation {A} (f : A -> bool) (l l' : list A) :
  l ≡ₚ l' -> List.filter f l ≡ₚ List.filter f l'.
Proof.
  induction 1 as [|x l l' _ IH|x y l|l1 l2 l3 _ IH1 _ IH2]; simpl.
  - done.
  - destruct (f x); [by constructor | done].
  - destruct (f x), (f y); try done. apply Permutation_swap.
  - by etrans.
Qed.

(** [enqueueEvent] gives the new event the next sequence number and puts it
    at the end of the pending queue: events are handed to the sync engine in
    the order in which they were enqueued.  The rest of the queue and of the
    local database is not changed. *)
Theorem enqueueEvent_appends_to_the_queue
    now tenantId userId type entityType entityId payload db :
  queueOk db ->
  ∃ id ev db1,
    enqueueEvent now tenantId userId type entityType entityId payload db = (Ok ev, db1)
    ∧ queueOk db1
    ∧ ev = mkSyncEvent tenantId userId now type entityType entityId payload
             EvPending 0 None None (sequenceCounter db + 1)
    ∧ syncEvents db1 = <[id := ev]> (syncEvents db)
    ∧ syncEvents db !! id = None
    ∧ getPendingEvents db1 = getPendingEvents db ++ [(id, ev)]
    ∧ orders db1 = orders db ∧ orderItems db1 = orderItems db
    ∧ tasks db1 = tasks db ∧ subtasks db1 = subtasks db
    ∧ deliveries db1 = deliveries db.
Proof.
  intros [Hbound Hdist Hfresh].
  set (id := localId (localIds db)).
  set (ev := mkSyncEvent tenantId userId now type entityType entityId payload
               EvPending 0 None None (sequenceCounter db + 1)).
  assert (syncEvents db !! id = None) as Hnew by (by apply Hfresh).
  exists id, ev, (with_syncEvents (insert id ev)
                    (with_sequenceCounter (λ n, (n + 1)%Z) (with_localIds S db))).
  split; [reflexivity|].
  assert (queueOk (with_syncEvents (insert id ev)
                     (with_sequenceCounter (λ n, (n + 1)%Z) (with_localIds S db))))
    as Hok.
  { split; simpl.
    - intros k e Hl. destruct (decide (k = id)) as [-> | Hne].
      + rewrite lookup_insert_eq in Hl. injection Hl as <-. simpl. lia.
      + rewrite lookup_insert_ne in Hl by done. specialize (Hbound k e Hl). lia.
    - intros k k' e e' Hl Hl' Hseq.
      destruct (decide (k = id)) as [-> | Hne], (decide (k' = id)) as [-> | Hne'];
        try done.
      + rewrite lookup_insert_eq in Hl. injection Hl as <-.
        rewrite lookup_insert_ne in Hl' by done.
        specialize (Hbound k' e' Hl'). simpl in Hseq. lia.
      + rewrite lookup_insert_eq in Hl'. injection Hl' as <-.
        rewrite lookup_insert_ne in Hl by done.
        specialize (Hbound k e Hl). simpl in Hseq. lia.
      + rewrite lookup_insert_ne in Hl, Hl' by done. by eapply Hdist.
    - intros n Hn. rewrite lookup_insert_ne.
      + apply Hfresh. lia.
      + unfold id. intros Heq. apply localId_inj in Heq. lia. }
  split; [exact Hok|]. split; [done|]. split; [done|]. split; [done|].
  split; [|done].
  (* both lists are sorted on distinct sequence numbers and hold the same events *)
  apply (StronglySorted_unique_strong bySequence).
  - intros [k1 e1] [k2 e2] H1 H2 H12 H21. unfold bySequence in *. simpl in *.
    apply eventsWithStatus_spec in H1 as [H1 _]. simpl in H1.
    assert (syncEvents (with_syncEvents (insert id ev)
              (with_sequenceCounter (λ n, (n + 1)%Z) (with_localIds S db))) !! k2
            = Some e2) as H2'.
    { simpl. apply elem_of_app in H2 as [H2 | H2].
      - apply eventsWithStatus_spec in H2 as [H2 _].
        rewrite lookup_insert_ne; [done|]. intros ->. congruence.
      - apply list_elem_of_singleton in H2 as [= -> ->]. apply lookup_insert_eq. }
    assert (k1 = k2) as ->.
    { apply (qk_distinct _ Hok k1 k2 e1 e2); [done | done | lia]. }
    simpl in H2'. congruence.
  - apply sortBySequence_sorted.
  - apply StronglySorted_app. split; [|split].
    + intros [k1 e1] [k2 e2] H1 H2. unfold bySequence. simpl.
      apply eventsWithStatus_spec in H1 as [H1 _].
      apply list_elem_of_singleton in H2 as [= -> ->]. simpl.
      specialize (Hbound k1 e1 H1). lia.
    + apply sortBySequence_sorted.
    + repeat constructor.
  - unfold getPendingEvents, eventsWithStatus. simpl.
    rewrite !sortBySequence_Permutation.
    rewrite (List_filter_Permutation _ _ _ (map_to_list_insert _ id ev Hnew)). simpl.
    by rewrite Permutation_cons_append.
Qed.

Lemma enqueueEvent_appends_to_the_queue_witness :
  queueOk emptyLocalDB
  ∧ ∃ ev1 ev2 db1 db2,
      enqueueEvent 10 "tenant" "user" TASK_START EntTask "A" [] emptyLocalDB
      = (Ok ev1, db1)
      ∧ enqueueEvent 20 "tenant" "user" TASK_COMPLETE EntTask "A" [] db1 = (Ok ev2, db2)
      ∧ map (λ kv : string * SyncEvent, (ev_type kv.2, ev_sequence kv.2))
            (getPendingEvents db2)
        = [(TASK_START, 1%Z); (TASK_COMPLETE, 2%Z)].
Proof.
  assert (queueOk emptyLocalDB) as Hok.
  { split; intros *; simpl; rewrite ?lookup_empty; done. }
  split; [exact Hok|].
  destruct (enqueueEvent_appends_to_the_queue 10 "tenant" "user" TASK_START EntTask "A"
              [] emptyLocalDB Hok)
    as (id1 & ev1 & db1 & Hrun1 & Hok1 & Hev1 & _ & _ & Hq1 & _).
  destruct (enqueueEvent_appends_to_the_queue 20 "tenant" "user" TASK_COMPLETE EntTask
              "A" [] db1 Hok1)
    as (id2 & ev2 & db2 & Hrun2 & _ & Hev2 & _ & _ & Hq2 & _).
  exists ev1, ev2, db1, db2. split; [exact Hrun1|]. split; [exact Hrun2|].
  rewrite Hq2, Hq1, Hev2, Hev1.
  assert (sequenceCounter db1 = 1%Z) as ->.
  { change db1 with (Ok ev1, db1).2. rewrite <- Hrun1. reflexivity. }
  reflexivity.
Defined.

(** *** Cleanup *)




End QueueProps.

(** ** Sync engine: the outcome of a push *)
Module PushProps.
Import Offline OfflineOps OfflineProps QueueProps.

(** The responses after which the engine regards the event as delivered: a
    2xx status, or 409 (the server state wins). *)
Definition accepted (response : Response) : bool :=
  match response with
  | Http status _ => (Nat.leb 200 status && Nat.leb status 299) || Nat.eqb status 409
  | NetworkError _ => false
  end.

(** The event as [pushSingleEvent] leaves it. *)
Definition settled (now : Z) (event : SyncEvent) (response : Response) (e1 : SyncEvent)
    : Prop :=
  ev_sequence e1 = ev_sequence event ∧ ev_type e1 = ev_type event
  ∧ ev_entityType e1 = ev_entityType event
  ∧ ev_entityId e1 = ev_entityId event ∧ ev_payload e1 = ev_payload event
  ∧ if accepted response
    then ev_status e1 = EvSynced ∧ ev_syncedAt e1 = Some now
         ∧ ev_retryCount e1 = ev_retryCount event
    else ev_status e1 = (if Nat.leb 5 (ev_retryCount event) then EvConflict else EvFailed)
         ∧ ev_retryCount e1 = ev_retryCount event + 1
         ∧ is_Some (ev_lastError e1).

Lemma markEventSyncing_lookup eventId db e :
  syncEvents db !! eventId = Some e ->
  syncEvents (execL (markEventSyncing eventId) db) !! eventId
  = Some (ev_with EvSyncing (ev_retryCount e) (ev_lastError e) (ev_syncedAt e) e).
Proof.
  intros Hl. unfold execL, markEventSyncing, modify. simpl.
  by rewrite lookup_alter_eq, Hl.
Qed.

Lemma markEventSynced_lookup now eventId db e :
  syncEvents db !! eventId = Some e ->
  syncEvents (execL (markEventSynced now eventId) db) !! eventId
  = Some (ev_with EvSynced (ev_retryCount e) (ev_lastError e) (Some now) e).
Proof.
  intros Hl. unfold execL, markEventSynced, modify. simpl.
  by rewrite lookup_alter_eq, Hl.
Qed.

Lemma pushSingleEvent_outcome net now eventId w event :
  syncEvents (w_db w) !! eventId = Some event ->
  ev_status event ≠ EvSynced ->
  let w1 := pushSingleEvent net now eventId w in
  let response := respond net (length (w_wire w)) eventId event in
  w_wire w1 = w_wire w ++ [(eventId, event, response)]
  ∧ ∃ e1, syncEvents (w_db w1) !! eventId = Some e1 ∧ settled now event response e1.
Proof.
  intros Hl Hs. unfold pushSingleEvent. rewrite Hl.
  assert (evstatus_eqb (ev_status event) EvSynced = false) as ->.
  { apply not_true_iff_false. intros He. by apply evstatus_eqb_eq in He. }
  cbn [w_db w_wire]. split; [done|].
  pose proof (markEventSyncing_lookup eventId (w_db w) event Hl) as Hsync.
  set (db1 := execL (markEventSyncing eventId) (w_db w)) in *.
  set (syncing := ev_with EvSyncing (ev_retryCount event) (ev_lastError event)
                    (ev_syncedAt event) event) in *.
  unfold settled, accepted.
  destruct (respond net (length (w_wire w)) eventId event) as [status data | message].
  - destruct (Nat.leb 200 status && Nat.leb status 299) eqn:Hok; cbn [orb].
    { eexists. split.
      - destruct (bool_decide (is_Some (body_order data)) || body_ok data);
          rewrite ?reconcileEntity_syncEvents;
          apply (markEventSynced_lookup now eventId db1 syncing Hsync).
      - done. }
    destruct (Nat.eqb status 409) eqn:H409; cbn [orb].
    { eexists. split.
      - rewrite pullEntityState_syncEvents.
        apply (markEventSynced_lookup now eventId db1 syncing Hsync).
      - done. }
    destruct (Nat.leb 400 status && Nat.ltb status 500);
      (eexists; split; [apply (markEventFailed_lookup _ _ db1 syncing Hsync)|]);
      cbn [ev_with ev_sequence ev_type ev_entityType ev_entityId ev_payload ev_status
           ev_retryCount ev_lastError syncing];
      repeat split; eauto.
  - eexists. split; [apply (markEventFailed_lookup _ _ db1 syncing Hsync)|].
    cbn [ev_with ev_sequence ev_type ev_entityType ev_entityId ev_payload ev_status
         ev_retryCount ev_lastError syncing].
    repeat split; eauto.
Qed.

(** [pushSingleEvent] on an event of the queue that is not yet synced issues
    exactly one request and settles the event: after a 2xx or a 409 response
    the event is [synced] (stamped with the time, retry count unchanged);
    after any other response, or a network error, its retry count goes up by
    one, the error is recorded, and it is [failed], or [conflict] once it had
    been retried five times.  The event never stays [pending] or [syncing],
    and its sequence number and content are kept. *)
Theorem pushSingleEvent_settles_the_event net now eventId w event :
  syncEvents (w_db w) !! eventId = Some event ->
  ev_status event ≠ EvSynced ->
  let w1 := pushSingleEvent net now eventId w in
  let response := respond net (length (w_wire w)) eventId event in
  w_wire w1 = w_wire w ++ [(eventId, event, response)]
  ∧ (∀ k, k ≠ eventId -> syncEvents (w_db w1) !! k = syncEvents (w_db w) !! k)
  ∧ ∃ e1, syncEvents (w_db w1) !! eventId = Some e1
          ∧ settled now event response e1
          ∧ ev_status e1 ≠ EvPending ∧ ev_status e1 ≠ EvSyncing.
Proof.
  intros Hl Hs w1 response.
  destruct (pushSingleEvent_outcome net now eventId w event Hl Hs)
    as (Hwire & e1 & Hl1 & Hset).
  split; [exact Hwire|]. split.
  - intros k Hk. by apply pushSingleEvent_other.
  - exists e1. split; [exact Hl1|]. split; [exact Hset|].
    destruct Hset as (_ & _ & _ & _ & _ & Hst). fold response in Hst.
    destruct (accepted response).
    + destruct Hst as (-> & _). done.
    + destruct Hst as (-> & _). by destruct (Nat.leb 5 (ev_retryCount event)).
Qed.

(** A server that refuses every request with status 400. *)
Definition refusing : Net :=
  mkNet (λ _ _ _, Http 400 (mkBody None None false "Task non completabile"))
        (λ _, mkServed None None None) (λ _, true).

Lemma pushSingleEvent_settles_the_event_witness :
  ∃ e1,
    syncEvents (w_db (pushSingleEvent refusing 50 "e1" (mkWorld threeEventsDB [])))
      !! "e1" = Some e1
    ∧ ev_status e1 = EvFailed ∧ ev_retryCount e1 = 1
    ∧ ev_lastError e1 = Some "400: Task non completabile".
Proof.
  assert (syncEvents (w_db (mkWorld threeEventsDB [])) !! "e1"
          = Some (sampleEvent "t1" 1 EvPending 0)) as Hl by (vm_compute; reflexivity).
  destruct (pushSingleEvent_settles_the_event refusing 50 "e1"
              (mkWorld threeEventsDB []) (sampleEvent "t1" 1 EvPending 0) Hl)
    as (_ & _ & e1 & Hl1 & Hset & _); [done|].
  exists e1. split; [exact Hl1|].
  assert (syncEvents (w_db (pushSingleEvent refusing 50 "e1" (mkWorld threeEventsDB [])))
            !! "e1"
          = Some (ev_with EvFailed 1 (Some "400: Task non completabile") None
                    (sampleEvent "t1" 1 EvPending 0))) as Hc by (vm_compute; reflexivity).
  rewrite Hc in Hl1. injection Hl1 as <-. done.
Defined.

(** *** One round of [pushEvents] *)

(** The events for which the requests [rs] were issued. *)
Definition sentEvents (rs : list (string * SyncEvent * Response))
    : list (string * SyncEvent) :=
  map (λ r : string * SyncEvent * Response, r.1) rs.

(** Pushing the events of a snapshot of the queue, none of them synced:
    exactly one request per event, in the order of the snapshot. *)
Lemma pushAll_exact net now (l : list (string * SyncEvent)) :
  ∀ w,
    NoDup l.*1 ->
    (∀ k ev, (k, ev) ∈ l -> syncEvents (w_db w) !! k = Some ev ∧ ev_status ev ≠ EvSynced) ->
    (∃ new, w_wire (pushAll net now l w) = w_wire w ++ new ∧ sentEvents new = l)
    ∧ (∀ k, k ∉ l.*1 ->
         syncEvents (w_db (pushAll net now l w)) !! k = syncEvents (w_db w) !! k)
    ∧ (∀ k, k ∈ l.*1 ->
         ∃ e1, syncEvents (w_db (pushAll net now l w)) !! k = Some e1
               ∧ ev_status e1 ≠ EvPending ∧ ev_status e1 ≠ EvSyncing).
Proof.
  induction l as [|[k0 ev0] l IH]; intros w Hnd Hl.
  - split; [|split]; [by exists []; rewrite app_nil_r | done |].
    intros k Hk. inversion Hk.
  - rewrite pushAll_cons. simpl in *. apply NoDup_cons in Hnd as [Hk0 Hnd].
    destruct (Hl k0 ev0) as [Hl0 Hs0]; [left|].
    destruct (pushSingleEvent_outcome net now k0 w ev0 Hl0 Hs0)
      as (Hwire0 & e1 & Hl1 & Hset).
    set (w1 := pushSingleEvent net now k0 w) in *.
    assert (∀ k, k ≠ k0 -> syncEvents (w_db w1) !! k = syncEvents (w_db w) !! k) as Hoth.
    { intros k Hk. by apply pushSingleEvent_other. }
    destruct (IH w1 Hnd) as ((new & Hwire & Hsent) & Hrows & Hdone).
    { intros k ev Hin. rewrite Hoth.
      - apply Hl. by right.
      - intros ->. apply Hk0. apply list_elem_of_fmap. by exists (k0, ev). }
    split; [|split].
    + eexists. split; [by rewrite Hwire, Hwire0, <- app_assoc|]. simpl. by rewrite Hsent.
    + intros k Hk. apply not_elem_of_cons in Hk as [Hne Hk].
      rewrite Hrows by done. by apply Hoth.
    + intros k Hk. destruct (decide (k ∈ l.*1)) as [Hin | Hout]; [by apply Hdone|].
      apply elem_of_cons in Hk as [-> | Hk]; [|done].
      exists e1. rewrite Hrows by done. split; [done|].
      destruct Hset as (_ & _ & _ & _ & _ & Hst).
      destruct (accepted _).
      * destruct Hst as (-> & _). done.
      * destruct Hst as (-> & _). by destruct (Nat.leb 5 (ev_retryCount ev0)).
Qed.

Lemma pushPending_online net now l w :
  (∀ n, onLine net n = true) -> pushPending net now l w = pushAll net now l w.
Proof.
  intros Hon. revert w. induction l as [|x l IH]; intros w; simpl; [done|].
  rewrite Hon. simpl. apply IH.
Qed.

(** One round of [pushEvents], started online: the requests it issues are,
    first, one for every event that was [failed] when the round started, in
    sequence order, and then one for each of the first so many events that
    were [pending], in sequence order: all of them if the browser stays
    online.  No event is sent twice in a round. *)
Theorem pushEvents_retries_failed_then_sends_pending net now w :
  onLine net (length (w_wire w)) = true ->
  ∃ new sent rest,
    w_wire (pushEvents net now w) = w_wire w ++ new
    ∧ sentEvents new = getFailedEvents (w_db w) ++ sent
    ∧ NoDup (sentEvents new).*1
    ∧ StronglySorted bySequence (sent ++ rest)
    ∧ (∀ k ev, (k, ev) ∈ sent ++ rest
               <-> syncEvents (w_db w) !! k = Some ev ∧ ev_status ev = EvPending)
    ∧ ((∀ n, onLine net n = true) -> rest = []).
Proof.
  intros Hon. unfold pushEvents. rewrite Hon. simpl.
  set (failed := getFailedEvents (w_db w)).
  fold (pushAll net now failed w). set (w1 := pushAll net now failed w).
  destruct (pushAll_exact net now failed w) as ((new1 & Hwire1 & Hsent1) & Hrows1 & Hdone1).
  { apply eventsWithStatus_NoDup. }
  { intros k ev Hin. apply eventsWithStatus_spec in Hin as [Hl Hs].
    split; [done|]. rewrite Hs. done. }
  fold w1 in Hwire1, Hrows1, Hdone1.
  assert (∀ k ev, (k, ev) ∈ getPendingEvents (w_db w1)
                  <-> syncEvents (w_db w) !! k = Some ev ∧ ev_status ev = EvPending)
    as Hpend.
  { intros k ev. unfold getPendingEvents. rewrite eventsWithStatus_spec.
    destruct (decide (k ∈ failed.*1)) as [Hin | Hout].
    - destruct (Hdone1 k Hin) as (e1 & Hl1 & Hnp & _).
      apply list_elem_of_fmap in Hin as ([k' ev'] & -> & Hin).
      apply eventsWithStatus_spec in Hin as [Hl Hs]. simpl in *.
      split; intros [H1 H2]; exfalso; congruence.
    - by rewrite Hrows1. }
  destruct (pushPending_prefix net now (getPendingEvents (w_db w1)) w1)
    as (l1 & l2 & Hsplit & Hpush).
  rewrite Hpush.
  destruct (pushAll_exact net now l1 w1) as ((new2 & Hwire2 & Hsent2) & _ & _).
  { pose proof (eventsWithStatus_NoDup EvPending (w_db w1)) as Hnd.
    fold (getPendingEvents (w_db w1)) in Hnd. rewrite Hsplit, fmap_app in Hnd.
    by apply NoDup_app in Hnd as (Hnd1 & _ & _). }
  { intros k ev Hin.
    assert ((k, ev) ∈ getPendingEvents (w_db w1)) as Hin'.
    { rewrite Hsplit. apply elem_of_app. by left. }
    apply eventsWithStatus_spec in Hin' as [Hl Hs]. split; [done|]. by rewrite Hs. }
  exists (new1 ++ new2), l1, l2. split; [by rewrite Hwire2, Hwire1, app_assoc|].
  split; [|split; [|split; [|split]]].
  - unfold sentEvents in *. by rewrite map_app, Hsent1, Hsent2.
  - unfold sentEvents in *. rewrite map_app, Hsent1, Hsent2, fmap_app.
    apply NoDup_app. split; [apply eventsWithStatus_NoDup|]. split.
    + intros k Hk1 Hk2.
      apply list_elem_of_fmap in Hk1 as ([k1 e1] & -> & Hin1).
      apply list_elem_of_fmap in Hk2 as ([k2 e2] & Heq & Hin2). simpl in *. subst k2.
      apply eventsWithStatus_spec in Hin1 as [Hl1 Hs1].
      assert ((k1, e2) ∈ getPendingEvents (w_db w1)) as Hin2'.
      { rewrite Hsplit. apply elem_of_app. by left. }
      apply Hpend in Hin2' as [Hl2 Hs2]. congruence.
    + pose proof (eventsWithStatus_NoDup EvPending (w_db w1)) as Hnd.
      fold (getPendingEvents (w_db w1)) in Hnd. rewrite Hsplit, fmap_app in Hnd.
      by apply NoDup_app in Hnd as (Hnd1 & _ & _).
  - rewrite <- Hsplit. apply sortBySequence_sorted.
  - intros k ev. rewrite <- Hsplit. apply Hpend.
  - intros Hall. rewrite (pushPending_online net now _ w1 Hall) in Hpush.
    destruct (pushAll_exact net now (getPendingEvents (w_db w1)) w1)
      as ((new3 & Hwire3 & Hsent3) & _ & _).
    { apply eventsWithStatus_NoDup. }
    { intros k ev Hin. apply eventsWithStatus_spec in Hin as [Hl Hs].
      split; [done|]. by rewrite Hs. }
    rewrite Hpush, Hwire2 in Hwire3. apply app_inv_head in Hwire3. subst new3.
    rewrite Hsent2 in Hsent3.
    assert (length l1 = length (l1 ++ l2)) as Hlen by (by rewrite <- Hsplit, <- Hsent3).
    rewrite length_app in Hlen. destruct l2; [done | simpl in Hlen; lia].
Qed.

Lemma pushEvents_retries_failed_then_sends_pending_witness :
  onLine firstRequestFails (length (w_wire (mkWorld threeEventsDB []))) = true
  ∧ ∃ new sent,
      w_wire (pushEvents firstRequestFails 50 (mkWorld threeEventsDB [])) = new
      ∧ sentEvents new = getFailedEvents threeEventsDB ++ sent
      ∧ map (λ kv : string * SyncEvent, ev_sequence kv.2) sent = [1%Z; 2%Z; 3%Z].
Proof.
  split; [reflexivity|].
  destruct (pushEvents_retries_failed_then_sends_pending firstRequestFails 50
              (mkWorld threeEventsDB []) eq_refl)
    as (new & sent & rest & Hwire & Hsent & _).
  exists new, sent. split; [exact Hwire|]. split; [exact Hsent|].
  assert (sentEvents (w_wire (pushEvents firstRequestFails 50 (mkWorld threeEventsDB [])))
          = [("e1", sampleEvent "t1" 1 EvPending 0); ("e2", sampleEvent "t2" 2 EvPending 0);
             ("e3", sampleEvent "t3" 3 EvPending 0)]) as Hc by (vm_compute; reflexivity).
  rewrite Hwire in Hc. cbn [w_wire app] in Hc. rewrite Hsent in Hc.
  assert (getFailedEvents (w_db (mkWorld threeEventsDB [])) = []) as Hf
    by (vm_compute; reflexivity).
  rewrite Hf in Hc. cbn [app] in Hc. rewrite Hc. reflexivity.
Defined.

End PushProps.

(** ** Offline actions against a pull of the server state *)
Module SurvivalProps.
Import Offline OfflineOps OfflineProps.

Lemma putItems_frame items db :
  let db' := fold_left (λ d (it : string * ServerOrderItem),
                          with_orderItems (insert it.1 (orderItemFromServer it.2)) d)
                       items db in
  tasks db' = tasks db ∧ deliveries db' = deliveries db.
Proof.
  revert db. induction items as [|it items IH]; intros db; simpl; [done|].
  destruct (IH (with_orderItems (insert it.1 (orderItemFromServer it.2)) db)) as [H1 H2].
  simpl in H1, H2. by rewrite H1, H2.
Qed.

Lemma putSubtasks_deliveries subs db :
  deliveries (fold_left (λ d (sub : string * ServerSubtask),
                           with_subtasks (insert sub.1 (subtaskFromServer sub.2)) d)
                        subs db) = deliveries db.
Proof. revert db. induction subs as [|x subs IH]; intros db; simpl; [done|]. by rewrite IH. Qed.

Lemma pullActiveOrders_frame fetched db :
  tasks (pullActiveOrders fetched db) = tasks db
  ∧ deliveries (pullActiveOrders fetched db) = deliveries db.
Proof.
  destruct fetched as [served|]; simpl; [|done].
  revert db. induction served as [|kv served IH]; intros db; simpl; [done|].
  destruct (IH (pullOrder db kv)) as [-> ->]. unfold pullOrder.
  destruct (match orders db !! kv.1 with Some _ => _ | None => _ end); [done|].
  destruct (putItems_frame (so_items kv.2)
              (with_orders (insert kv.1 (orderFromServer kv.2)) db)) as [H1 H2].
  simpl in H1, H2. by rewrite H1, H2.
Qed.

Lemma pullActiveTasks_deliveries fetched db :
  deliveries (pullActiveTasks fetched db) = deliveries db.
Proof.
  destruct fetched as [served|]; simpl; [|done].
  revert db. induction served as [|kv served IH]; intros db; simpl; [done|].
  rewrite IH. unfold pullTask.
  destruct (match tasks db !! kv.1 with Some _ => _ | None => _ end); [done|].
  by rewrite putSubtasks_deliveries.
Qed.

Lemma pullActiveDeliveries_tasks fetched db :
  tasks (pullActiveDeliveries fetched db) = tasks db.
Proof.
  destruct fetched as [served|]; simpl; [|done].
  revert db. induction served as [|kv served IH]; intros db; simpl; [done|].
  rewrite IH. unfold pullDelivery.
  by destruct (match deliveries db !! kv.1 with Some _ => _ | None => _ end).
Qed.

(** A task that is not [synced] survives a whole pull, and so does a
    delivery. *)
Lemma pullServerState_keeps_unsynced_task srv db id t :
  tasks db !! id = Some t -> lt_syncStatus t ≠ synced ->
  tasks (pullServerState srv db) !! id = Some t.
Proof.
  intros Hl Hs. unfold pullServerState. rewrite pullActiveDeliveries_tasks.
  apply pullActiveTasks_keeps_unsynced; [|done].
  by rewrite (proj1 (pullActiveOrders_frame _ _)).
Qed.

Lemma pullServerState_keeps_unsynced_delivery srv db id d :
  deliveries db !! id = Some d -> ld_syncStatus d ≠ synced ->
  deliveries (pullServerState srv db) !! id = Some d.
Proof.
  intros Hl Hs. unfold pullServerState.
  apply pullActiveDeliveries_keeps_unsynced; [|done].
  by rewrite pullActiveTasks_deliveries, (proj2 (pullActiveOrders_frame _ _)).
Qed.

Lemma activateDependent_spec taskId allOrderTasks depTask db :
  ∃ db', activateDependent taskId allOrderTasks depTask db = (Ok tt, db')
         ∧ ∀ k, (k = depTask.1 -> lt_status depTask.2 ≠ Pending) ->
                tasks db' !! k = tasks db !! k.
Proof.
  unfold activateDependent, mret, ST_ret, modify.
  destruct (status_eqb (lt_status depTask.2) Pending) eqn:Hs; simpl; [|by exists db].
  apply status_eqb_eq in Hs.
  destruct (negb (includes (lt_dependsOn depTask.2) taskId)); [by exists db|].
  destruct (forallb _ (lt_dependsOn depTask.2)); [|by exists db].
  eexists. split; [done|]. intros k Hk. simpl. apply lookup_alter_ne.
  intros <-. by apply Hk.
Qed.

Lemma activateDependents_keep taskId allOrderTasks (l : list (string * LocalTask)) :
  (∀ t, (taskId, t) ∈ l -> lt_status t ≠ Pending) ->
  ∀ db, ∃ db',
    foldM (λ (_ : unit) depTask, activateDependent taskId allOrderTasks depTask) tt l db
    = (Ok tt, db')
    ∧ tasks db' !! taskId = tasks db !! taskId.
Proof.
  induction l as [|[k t] l IH]; intros Hl db; simpl; [by exists db|].
  unfold mbind, ST_bind.
  destruct (activateDependent_spec taskId allOrderTasks (k, t) db) as (db1 & -> & H1).
  destruct (IH (λ t' Hin, Hl t' (list_elem_of_further _ _ _ Hin)) db1) as (db2 & -> & H2).
  exists db2. split; [done|]. rewrite H2. apply H1. simpl. intros <-. apply Hl. left.
Qed.

Lemma completeTaskOffline_row now tenantId userId taskId db task :
  tasks db !! taskId = Some task ->
  tasks (completeTaskOffline now tenantId userId taskId db).2 !! taskId
  = Some (lt_with (lt_assignedToId task) Done (Some (default now (lt_startedAt task)))
            (Some now) (Some userId) modified task).
Proof.
  intros Hl. unfold completeTaskOffline.
  unfold mbind, mret, ST_bind, ST_ret, gets, modify at 1 2. simpl. rewrite Hl. simpl.
  set (done := lt_with (lt_assignedToId task) Done (Some (default now (lt_startedAt task)))
                 (Some now) (Some userId) modified).
  set (db2 := with_subtasks _ (with_tasks _ db)).
  assert (tasks db2 !! taskId = Some (done task)) as Hrow.
  { unfold db2. simpl. by rewrite lookup_alter_eq, Hl. }
  destruct (activateDependents_keep taskId
              (ordersTasks tenantId (lt_orderId task) db2)
              (ordersTasks tenantId (lt_orderId task) db2)) with (db := db2)
    as (db3 & -> & Hkeep).
  { intros t Hin. apply elem_of_query in Hin as [Hin _]. rewrite Hrow in Hin.
    injection Hin as <-. done. }
  rewrite <- Hrow, <- Hkeep.
  destruct (forallb _ (ordersTasks tenantId (lt_orderId task) db3)); reflexivity.
Qed.

(** An optimistic change of a task (start, completion) or of a delivery
    (assignment, pickup, delivery) is not undone by a pull, whatever the
    server serves: the row is marked [modified], and [pullActiveTasks] and
    [pullActiveDeliveries] skip every row that is not [synced]. *)
Theorem task_and_delivery_changes_survive_a_pull
    srv now tenantId userId taskId deliveryId riderId db t d :
  tasks db !! taskId = Some t ->
  deliveries db !! deliveryId = Some d ->
  let after (c : L unit) := pullServerState srv (c db).2 in
  (∃ t1, tasks (after (startTaskOffline now tenantId userId taskId)) !! taskId = Some t1
         ∧ lt_status t1 = InProgress ∧ lt_assignedToId t1 = Some userId
         ∧ lt_startedAt t1 = Some now)
  ∧ (∃ t1, tasks (pullServerState srv
                    (completeTaskOffline now tenantId userId taskId db).2) !! taskId
           = Some t1
           ∧ lt_status t1 = Done ∧ lt_completedAt t1 = Some now
           ∧ lt_completedById t1 = Some userId)
  ∧ (∃ d1, deliveries (after (assignDeliveryOffline now tenantId userId deliveryId
                                riderId)) !! deliveryId = Some d1
           ∧ ld_status d1 = DelAssigned ∧ ld_riderId d1 = Some riderId)
  ∧ (∃ d1, deliveries (after (pickupDeliveryOffline now tenantId userId deliveryId))
             !! deliveryId = Some d1
           ∧ ld_status d1 = DelPickedUp)
  ∧ (∃ d1, deliveries (after (deliverDeliveryOffline now tenantId userId deliveryId))
             !! deliveryId = Some d1
           ∧ ld_status d1 = DelDelivered).
Proof.
  intros Ht Hd after. unfold after.
  split; [|split; [|split; [|split]]].
  - eexists. split.
    + apply pullServerState_keeps_unsynced_task.
      * unfold startTaskOffline, mbind, mret, ST_bind, ST_ret, modify. simpl.
        rewrite lookup_alter_eq, Ht. reflexivity.
      * done.
    + done.
  - eexists. split.
    + apply pullServerState_keeps_unsynced_task.
      * by apply completeTaskOffline_row.
      * done.
    + done.
  - eexists. split.
    + apply pullServerState_keeps_unsynced_delivery.
      * unfold assignDeliveryOffline, mbind, mret, ST_bind, ST_ret, modify. simpl.
        rewrite lookup_alter_eq, Hd. reflexivity.
      * done.
    + done.
  - eexists. split.
    + apply pullServerState_keeps_unsynced_delivery.
      * unfold pickupDeliveryOffline, mbind, mret, ST_bind, ST_ret, gets, modify. simpl.
        rewrite Hd. simpl. rewrite lookup_alter_eq, Hd. reflexivity.
      * done.
    + done.
  - eexists. split.
    + apply pullServerState_keeps_unsynced_delivery.
      * unfold deliverDeliveryOffline, mbind, mret, ST_bind, ST_ret, gets, modify. simpl.
        rewrite Hd. simpl. rewrite lookup_alter_eq, Hd. reflexivity.
      * done.
    + done.
Qed.

(** A synced task and a synced delivery, and a server that still serves them
    in their old state. *)
Definition syncedDB : LocalDB :=
  with_deliveries (λ _, <["D" := mkLocalDelivery "tenant" "o1" None DelPending synced]> ∅)
    (with_tasks (λ _, <["T" := mkLocalTask "tenant" "o1" "i1" "def" "Impasto" None None
                                  Queued [] None None None None synced]> ∅)
       emptyLocalDB).

Definition staleServer : Served :=
  mkServed None
    (Some [("T", mkServerTask "tenant" "o1" "i1" "def" "Impasto" None None Queued []
                   None None None None [])])
    (Some [("D", mkServerDelivery "tenant" "o1" None DelPending)]).

Lemma task_and_delivery_changes_survive_a_pull_witness :
  lt_status <$> tasks (pullServerState staleServer
                         (startTaskOffline 5 "tenant" "user" "T" syncedDB).2) !! "T"
  = Some InProgress
  ∧ ld_status <$> deliveries (pullServerState staleServer
                                (pickupDeliveryOffline 5 "tenant" "user" "D" syncedDB).2)
                    !! "D"
    = Some DelPickedUp
  ∧ lt_status <$> tasks (pullServerState staleServer syncedDB) !! "T" = Some Queued.
Proof.
  destruct (task_and_delivery_changes_survive_a_pull staleServer 5 "tenant" "user" "T" "D"
              "rider" syncedDB
              (mkLocalTask "tenant" "o1" "i1" "def" "Impasto" None None Queued [] None
                 None None None synced)
              (mkLocalDelivery "tenant" "o1" None DelPending synced))
    as ((t1 & Ht1 & Hs1 & _) & _ & _ & (d1 & Hd1 & Hp1) & _);
    [vm_compute; reflexivity | vm_compute; reflexivity |].
  rewrite Ht1, Hd1. simpl. rewrite Hs1, Hp1.
  split; [reflexivity|]. split; [reflexivity|]. vm_compute. reflexivity.
Defined.

End SurvivalProps.

(** ** Roles and permissions *)
Module AuthProps.
Import Auth.

Definition roles : list string := ["owner"; "admin"; "manager"; "staff"; "delivery"].

Definition rank (role : string) : nat := default 0 (jm_get ROLE_HIERARCHY role).







(** *** Permissions *)

Definition permsOf (role : string) : list string :=
  default [] (jm_get ROLE_PERMISSIONS role).

(** [hi] has every permission that [lo] has. *)
Definition subsumes (hi lo : string) : Prop :=
  ∀ p, hasPermission lo p = true -> hasPermission hi p = true.

Lemma resourceOf_wild p : resourceOf (resourceOf p +:+ ".*") = resourceOf p.
Proof.
  induction p as [|c p IH]; simpl; [done|].
  destruct (Ascii.eqb c ".") eqn:Hc; simpl; [done|]. by rewrite Hc, IH.
Qed.

Lemma hasPermission_mono hi lo :
  includes (permsOf lo) "*" = false ->
  (∀ lit, lit ∈ permsOf lo -> hasPermission hi lit = true) ->
  (∀ lit, lit ∈ permsOf lo -> resourceOf lit +:+ ".*" = lit ->
          includes (permsOf hi) "*" || includes (permsOf hi) lit = true) ->
  subsumes hi lo.
Proof.
  intros Hstar Hlit Hwild p. unfold hasPermission. fold (permsOf lo) (permsOf hi).
  rewrite Hstar. intros H. apply orb_true_iff in H as [H | H].
  - apply includes_true in H. specialize (Hlit p H).
    unfold hasPermission in Hlit. by fold (permsOf hi) in Hlit.
  - apply includes_true in H.
    specialize (Hwild _ H). rewrite resourceOf_wild in Hwild. specialize (Hwild eq_refl).
    destruct (includes (permsOf hi) "*"); [done|]. simpl in Hwild.
    rewrite Hwild. apply orb_true_r.
Qed.

Ltac each_literal Hin :=
  repeat (apply elem_of_cons in Hin as [-> | Hin]); [.. | by apply elem_of_nil in Hin].

(** [hasPermission]: the owner may do everything; a permission [res.*] of a
    role covers every action on [res]; along owner, admin, manager, staff,
    each role has all the permissions of the next, and a manager has all the
    permissions of a delivery rider; but staff, which ranks above delivery in
    [hasMinRole], does not have the delivery permissions. *)
Theorem hasPermission_follows_the_hierarchy :
  (∀ p, hasPermission "owner" p = true)
  ∧ (∀ role res p, role ∈ roles -> (res +:+ ".*") ∈ permsOf role ->
                   resourceOf p = res -> hasPermission role p = true)
  ∧ subsumes "owner" "admin"
  ∧ subsumes "admin" "manager"
  ∧ subsumes "manager" "staff"
  ∧ subsumes "manager" "delivery"
  ∧ ¬ subsumes "staff" "delivery"
  ∧ hasMinRole "staff" "delivery" = true.
Proof.
  split; [done|]. split; [|split; [|split; [|split; [|split; [|split]]]]].
  - intros role res p _ Hin <-. unfold hasPermission. fold (permsOf role).
    destruct (includes (permsOf role) "*"); [done|].
    apply orb_true_iff. right. by apply includes_true.
  - intros p _. done.
  - apply hasPermission_mono; [done | |].
    + intros lit Hin. unfold permsOf in Hin. simpl in Hin.
      each_literal Hin; vm_compute; reflexivity.
    + intros lit Hin. unfold permsOf in Hin. simpl in Hin.
      each_literal Hin; vm_compute; (reflexivity || discriminate).
  - apply hasPermission_mono; [done | |].
    + intros lit Hin. unfold permsOf in Hin. simpl in Hin.
      each_literal Hin; vm_compute; reflexivity.
    + intros lit Hin. unfold permsOf in Hin. simpl in Hin.
      each_literal Hin; vm_compute; (reflexivity || discriminate).
  - apply hasPermission_mono; [done | |].
    + intros lit Hin. unfold permsOf in Hin. simpl in Hin.
      each_literal Hin; vm_compute; reflexivity.
    + intros lit Hin. unfold permsOf in Hin. simpl in Hin.
      each_literal Hin; vm_compute; (reflexivity || discriminate).
  - intros H. specialize (H "delivery.update" eq_refl). vm_compute in H. discriminate H.
  - reflexivity.
Qed.

End AuthProps.

(** ** The login rate limiter *)
Module LoginProps.
Import Login.

(** Successive calls of [checkRateLimit] for one key, at the given times. *)
Fixpoint attempt (key : string) (times : list Z) (m : gmap string Attempts)
    : list bool * gmap string Attempts :=
  match times with
  | [] => ([], m)
  | now :: rest =>
      match checkRateLimit now key m with
      | (Ok ok, m') => let r := attempt key rest m' in (ok :: r.1, r.2)
      | (Throw _, m') => ([], m')
      end
  end.

(** No window is open for [key] at time [now]. *)
Definition noWindow (now : Z) (key : string) (m : gmap string Attempts) : Prop :=
  ∀ a, m !! key = Some a -> (att_resetAt a < now)%Z.

Lemma attempt_in_window key resetAt (times : list Z) :
  (∀ t, t ∈ times -> (t <= resetAt)%Z) ->
  ∀ n m, m !! key = Some (mkAttempts n resetAt) ->
    (attempt key times m).1
    = replicate (Nat.min (MAX_ATTEMPTS - n) (length times)) true
      ++ replicate (length times - (MAX_ATTEMPTS - n)) false
    ∧ (attempt key times m).2 !! key
      = Some (mkAttempts (if Nat.leb MAX_ATTEMPTS n then n
                          else Nat.min MAX_ATTEMPTS (n + length times)) resetAt)
    ∧ ∀ k, k ≠ key -> (attempt key times m).2 !! k = m !! k.
Proof.
  induction times as [|t times IH]; intros Hin n m Hm; cbn [attempt length fst snd].
  - split; [|split; [|done]].
    + by rewrite Nat.min_0_r.
    + rewrite Hm. do 2 f_equal. unfold MAX_ATTEMPTS.
      destruct (Nat.leb_spec 5 n); lia.
  - unfold checkRateLimit. rewrite Hm. cbn [att_resetAt att_count].
    assert (Z.ltb resetAt t = false) as ->.
    { apply Z.ltb_ge. apply Hin. left. }
    assert (∀ t', t' ∈ times -> (t' <= resetAt)%Z) as Hin'.
    { intros t' Ht'. apply Hin. by right. }
    destruct (Nat.leb_spec MAX_ATTEMPTS n) as [Hfull | Hroom]; cbn [fst snd].
    + destruct (IH Hin' n m Hm) as (Hres & Hfin & Hoth).
      rewrite Hres, Hfin. replace (MAX_ATTEMPTS - n) with 0 by lia.
      rewrite !Nat.sub_0_r. split; [done|]. split; [|done].
      do 2 f_equal. destruct (Nat.leb_spec MAX_ATTEMPTS n); lia.
    + destruct (IH Hin' (S n) (<[key := mkAttempts (S n) resetAt]> m))
        as (Hres & Hfin & Hoth); [apply lookup_insert_eq|].
      rewrite Hres, Hfin. split; [|split].
      * replace (MAX_ATTEMPTS - n) with (S (MAX_ATTEMPTS - S n)) by lia.
        cbn [Nat.min replicate app Nat.sub]. reflexivity.
      * do 2 f_equal. unfold MAX_ATTEMPTS in *.
        destruct (Nat.leb_spec 5 (S n)); lia.
      * intros k Hk. rewrite Hoth by done. by apply lookup_insert_ne.
Qed.

Lemma count_allowed a b :
  length (List.filter id (true :: replicate a true ++ replicate b false)) = S a.
Proof.
  simpl. f_equal. rewrite List.filter_app, length_app.
  assert (∀ c, length (List.filter id (replicate c true)) = c) as ->.
  { induction c; simpl; [done | by f_equal]. }
  assert (∀ c, length (List.filter id (replicate c false)) = 0) as ->.
  { induction c; simpl; done. }
  lia.
Qed.

(** [checkRateLimit] allows five attempts per key and window: when no window
    is open for the key, a call opens one that lasts 15 minutes and is
    allowed; of the calls that follow within the window, the first four are
    allowed and all later ones refused, whether the attempts succeeded or
    not; the entries of other keys are not touched. *)
Theorem checkRateLimit_allows_five_per_window key now (times : list Z) m :
  noWindow now key m ->
  (∀ t, t ∈ times -> (t <= now + WINDOW_MS)%Z) ->
  let r := attempt key (now :: times) m in
  r.1 = true :: replicate (Nat.min 4 (length times)) true
             ++ replicate (length times - 4) false
  ∧ r.2 !! key = Some (mkAttempts (Nat.min 5 (1 + length times)) (now + WINDOW_MS))
  ∧ (∀ k, k ≠ key -> r.2 !! k = m !! k)
  ∧ length (List.filter id r.1) ≤ 5.
Proof.
  intros Hno Hin r. unfold r. cbn [attempt].
  assert (checkRateLimit now key m
          = (Ok true, <[key := mkAttempts 1 (now + WINDOW_MS)]> m)) as ->.
  { unfold checkRateLimit. destruct (m !! key) as [a|] eqn:Ha; [|done].
    assert (Z.ltb (att_resetAt a) now = true) as ->; [|done].
    apply Z.ltb_lt. by apply Hno. }
  destruct (attempt_in_window key (now + WINDOW_MS) times Hin 1
              (<[key := mkAttempts 1 (now + WINDOW_MS)]> m))
    as (Hres & Hfin & Hoth); [apply lookup_insert_eq|].
  cbn [fst snd]. rewrite Hres, Hfin. unfold MAX_ATTEMPTS.
  change (5 - 1) with 4. change (5 <=? 1) with false. cbv iota.
  split; [done|]. split; [done|]. split.
  - intros k Hk. rewrite Hoth by done. by apply lookup_insert_ne.
  - rewrite count_allowed. lia.
Qed.

Lemma checkRateLimit_allows_five_per_window_witness :
  let m : gmap string Attempts := {[ "a@b.it" := mkAttempts 5 500 ]} in
  noWindow 1000 "a@b.it" m
  ∧ (attempt "a@b.it" [1000; 2000; 3000; 4000; 5000; 6000; 7000]%Z m).1
    = [true; true; true; true; true; false; false].
Proof.
  intros m.
  assert (noWindow 1000 "a@b.it" m) as Hno.
  { intros a Ha. unfold m in Ha. rewrite lookup_singleton_eq in Ha.
    injection Ha as <-. simpl. lia. }
  split; [exact Hno|].
  destruct (checkRateLimit_allows_five_per_window "a@b.it" 1000
              [2000; 3000; 4000; 5000; 6000; 7000]%Z m Hno) as (Hres & _).
  { intros t Ht. unfold WINDOW_MS.
    repeat (apply elem_of_cons in Ht as [-> | Ht]); try lia. by apply elem_of_nil in Ht. }
  rewrite Hres. reflexivity.
Defined.

End LoginProps.

(** ** The tasks route *)
Module TasksRouteProps.
Import Engine Eta Auth TasksRoute EngineProps CompletionProps.
Import Offline OfflineOps OfflineProps.

(** The responses that refuse the request: its shape is wrong, or the task or
    subtask is not found or not in a state that allows the action. *)
Definition rejection (r : TaskResponse) : bool :=
  match r with
  | TaskIdEActionRichiesti | SubtaskIdRichiesto | AzioneSconosciuta _ => true
  | Errore TaskNonTrovato | Errore (TaskNonAvviabile _)
  | Errore (TaskNonCompletabile _) | Errore SubtaskNonTrovato => true
  | _ => false
  end.

Lemma calculateOrderETA_throws now tenantId orderId db e db' :
  calculateOrderETA now tenantId orderId db = (Throw e, db') ->
  rejection (Errore e) = false.
Proof.
  unfold calculateOrderETA. unfold_M. simpl.
  destruct (Nat.eqb _ 0); [done|].
  destruct (traverse _ _ _ _); [|by intros [= <- _]..].
  destruct (order db !! orderId); [done | by intros [= <- _]].
Qed.

Lemma recalculateETA_throws now tenantId taskId db e db' :
  recalculateETA now tenantId taskId db = (Throw e, db') ->
  rejection (Errore e) = false.
Proof.
  unfold recalculateETA. unfold mbind, ST_bind, gets, mret, ST_ret. 
  destruct (taskInstance db !! taskId) as [t|]; [|done].
  destruct (calculateOrderETA now tenantId (task_orderId t) db) as [[r|e'] db1] eqn:Hc;
    [done|].
  intros [= <- _]. by eapply calculateOrderETA_throws.
Qed.

Lemma startTask_throws now taskId userId tenantId db e db' :
  startTask now taskId userId tenantId db = (Throw e, db') -> db' = db.
Proof.
  unfold startTask. unfold_M. simpl.
  destruct (findFirstTask taskId tenantId db) as [t|]; [|by intros [= _ <-]].
  destruct (negb _); [by intros [= _ <-] | done].
Qed.

Lemma checkOrderCompletion_throws now tenantId orderId db e db' :
  checkOrderCompletion now tenantId orderId db = (Throw e, db') -> e = RecordNotFound.
Proof.
  unfold checkOrderCompletion. unfold_M. simpl.
  destruct (forallb _ _).
  - destruct (order db !! orderId); [done | by intros [= <- _]].
  - destruct (existsb _ _); [|done].
    destruct (order db !! orderId); [done | by intros [= <- _]].
Qed.

Lemma completeTask_throws_inv now taskId userId tenantId db e db' :
  completeTask now taskId userId tenantId db = (Throw e, db') ->
  rejection (Errore e) = true -> db' = db.
Proof.
  intros Hc Hrej.
  pose proof (completeTask_throws now taskId userId tenantId db) as Ht.
  destruct (findFirstTask taskId tenantId db) as [task|] eqn:Hf.
  - destruct (completable (task_status task)) eqn:Hcomp.
    + rewrite (completeTask_unfold _ _ _ _ _ _ Hf Hcomp) in Hc.
      apply checkOrderCompletion_throws in Hc. by subst e.
    + rewrite Ht in Hc by done. by injection Hc as _ <-.
  - rewrite Ht in Hc. by injection Hc as _ <-.
Qed.

Lemma completeSubtask_throws now taskId subtaskId userId tenantId db e db' :
  completeSubtask now taskId subtaskId userId tenantId db = (Throw e, db') -> db' = db.
Proof.
  unfold completeSubtask. unfold_M. simpl.
  destruct (match subtaskInstance db !! subtaskId with Some _ => _ | None => _ end)
    as [s|]; [|by intros [= _ <-]].
  by destruct (sub_isCompleted s).
Qed.

Lemma taskAction_rejection now nowEta body auth db :
  ∃ resp, (taskAction now nowEta body auth db).1 = Ok resp
          ∧ (rejection resp = true -> (taskAction now nowEta body auth db).2 = db).
Proof.
  unfold taskAction, catch400, taskActionTry.
  destruct (truthy body "taskId") as [taskId|]; [|by eexists].
  destruct (truthy body "action") as [action|]; [|by eexists].
  destruct (String.eqb action "start").
  { unfold mbind, ST_bind, mret, ST_ret.
    destruct (startTask _ _ _ _ db) as [[[]|e] db1] eqn:Hs.
    - destruct (recalculateETA _ _ _ db1) as [[[]|e] db2] eqn:Hr; simpl.
      + by eexists.
      + eexists. split; [done|]. by rewrite (recalculateETA_throws _ _ _ _ _ _ Hr).
    - simpl. eexists. split; [done|]. intros _. by eapply startTask_throws. }
  destruct (String.eqb action "complete").
  { unfold mbind, ST_bind, mret, ST_ret.
    destruct (completeTask _ _ _ _ db) as [[r|e] db1] eqn:Hs.
    - destruct (recalculateETA _ _ _ db1) as [[[]|e] db2] eqn:Hr; simpl.
      + by eexists.
      + eexists. split; [done|]. by rewrite (recalculateETA_throws _ _ _ _ _ _ Hr).
    - simpl. eexists. split; [done|]. intros Hrej.
      by eapply completeTask_throws_inv. }
  destruct (String.eqb action "complete_subtask"); [|by eexists].
  destruct (truthy body "subtaskId") as [subtaskId|]; [|by eexists].
  unfold mbind, ST_bind, mret, ST_ret.
  destruct (completeSubtask _ _ _ _ _ db) as [[[]|e] db1] eqn:Hs; simpl.
  - by eexists.
  - eexists. split; [done|]. intros _. by eapply completeSubtask_throws.
Qed.

(** [POST /api/tasks] always answers, and a refusal changes nothing: without
    a valid token or with a deactivated tenant the handler is not run; and
    when the handler answers that the request is malformed, or that the task
    or subtask is not found or not in a state that allows the action, the
    database is as it was before the request. *)
Theorem POST_tasks_refusals_change_nothing now nowEta tenantIsActive auth body db :
  match POST now nowEta tenantIsActive auth body db with
  | (Ok (inl failure), db') =>
      db' = db
      ∧ (failure = NonAutenticato <-> auth = None)
      ∧ (∀ ctx, auth = Some ctx ->
                failure = TenantDisattivato
                ∧ tenantIsActive (auth_tenantId ctx) ≠ Some true)
  | (Ok (inr resp), db') =>
      (rejection resp = true -> db' = db)
      ∧ ∃ ctx, auth = Some ctx ∧ tenantIsActive (auth_tenantId ctx) = Some true
               ∧ taskAction now nowEta body ctx db = (Ok resp, db')
  | (Throw _, _) => False
  end.
Proof.
  unfold POST, withAuth. destruct auth as [ctx|]; [|done]. simpl.
  destruct (tenantIsActive (auth_tenantId ctx)) as [[]|] eqn:Hactive; simpl;
    [|split; [done|]; split; [done|]; intros ? [= <-]; by rewrite Hactive..].
  unfold mbind, ST_bind, mret, ST_ret.
  destruct (taskAction_rejection now nowEta body ctx db) as (resp & Hok & Hrej).
  destruct (taskAction now nowEta body ctx db) as [[r|e] db'] eqn:Ht; [|done].
  simpl in Hok, Hrej. injection Hok as ->. split; [done|]. by exists ctx.
Qed.

Lemma activateDependents_localIds taskId allOrderTasks (l : list (string * LocalTask)) :
  ∀ db, ∃ db',
    foldM (λ (_ : unit) depTask, activateDependent taskId allOrderTasks depTask) tt l db
    = (Ok tt, db')
    ∧ localIds db' = localIds db.
Proof.
  induction l as [|kt l IH]; intros db; simpl; [by exists db|].
  unfold mbind, ST_bind.
  assert (∃ db1, activateDependent taskId allOrderTasks kt db = (Ok tt, db1)
                 ∧ localIds db1 = localIds db) as (db1 & -> & H1).
  { unfold activateDependent, mret, ST_ret, modify.
    destruct (negb _); [by exists db|]. destruct (negb _); [by exists db|].
    destruct (forallb _ _); [|by exists db]. by eexists. }
  destruct (IH db1) as (db2 & -> & H2). exists db2. split; [done|]. by rewrite H2.
Qed.

(** *** Offline events replayed on the route *)

Definition newEventId (ldb : LocalDB) : string :=
  "local-" +:+ NilZero.string_of_uint (Nat.to_uint (localIds ldb)).

(** What the sync engine sends for a task action done offline is what the
    route expects: the event that [startTaskOffline], [completeTaskOffline]
    or [completeSubtaskOffline] puts in the queue is pending, is sent to the
    tasks endpoint, and its payload makes [taskAction] run [startTask],
    [completeTask] or [completeSubtask] on the same task or subtask, for the
    user and tenant of the token. *)
Theorem offline_task_events_replay_on_the_route
    now tenantId userId taskId subtaskId (ldb : LocalDB) sNow sEta auth (sdb : ServerDB) :
  taskId ≠ "" -> subtaskId ≠ "" ->
  let sent (c : LocalDB) (run : M TaskResponse) :=
    ∃ ev, syncEvents c !! newEventId ldb = Some ev
          ∧ ev_status ev = EvPending
          ∧ mapEventToEndpoint (ev_type ev) = ApiTasks
          ∧ taskAction sNow sEta (mapEventToPayload ev) auth sdb = catch400 run sdb in
  sent (startTaskOffline now tenantId userId taskId ldb).2
       (startTask sNow taskId (auth_userId auth) (auth_tenantId auth);;
        recalculateETA sEta (auth_tenantId auth) taskId;;
        mret (RespOk None))
  ∧ (is_Some (tasks ldb !! taskId) ->
     sent (completeTaskOffline now tenantId userId taskId ldb).2
          (result ← completeTask sNow taskId (auth_userId auth) (auth_tenantId auth);
           recalculateETA sEta (auth_tenantId auth) taskId;;
           mret (RespOk (Some result))))
  ∧ sent (completeSubtaskOffline now tenantId userId taskId subtaskId ldb).2
         (completeSubtask sNow taskId subtaskId (auth_userId auth) (auth_tenantId auth);;
          mret (RespOk None)).
Proof.
  intros Htask Hsub sent.
  assert (∀ s, s ≠ "" -> String.eqb s "" = false) as Hne.
  { intros s Hs. by apply String.eqb_neq. }
  split; [|split].
  - eexists. split; [|split; [|split]].
    + unfold startTaskOffline, enqueueEvent, generateLocalId, getNextSequence.
      unfold mbind, mret, ST_bind, ST_ret, modify. simpl. apply lookup_insert_eq.
    + done.
    + done.
    + unfold taskAction, taskActionTry, truthy. simpl. by rewrite (Hne _ Htask).
  - intros [t Ht].
    unfold completeTaskOffline.
    unfold mbind, mret, ST_bind, ST_ret, gets, modify at 1 2. simpl. rewrite Ht. simpl.
    set (db2 := with_subtasks _ (with_tasks _ ldb)).
    destruct (activateDependents_localIds taskId
                (ordersTasks tenantId (lt_orderId t) db2)
                (ordersTasks tenantId (lt_orderId t) db2) db2) as (db3 & -> & Hids).
    assert (localIds db2 = localIds ldb) as Hids2 by done.
    eexists. split; [|split; [|split]].
    + unfold enqueueEvent, generateLocalId, getNextSequence.
      unfold mbind, mret, ST_bind, ST_ret, modify.
      destruct (forallb _ (ordersTasks tenantId (lt_orderId t) db3)); simpl;
        rewrite Hids, Hids2; apply lookup_insert_eq.
    + done.
    + done.
    + unfold taskAction, taskActionTry, truthy. simpl. by rewrite (Hne _ Htask).
  - eexists. split; [|split; [|split]].
    + unfold completeSubtaskOffline, enqueueEvent, generateLocalId, getNextSequence.
      unfold mbind, mret, ST_bind, ST_ret, modify. simpl. apply lookup_insert_eq.
    + done.
    + done.
    + unfold taskAction, taskActionTry, truthy. simpl.
      by rewrite (Hne _ Htask), (Hne _ Hsub).
Qed.

(** A task started offline, and the server that receives the event. *)
Definition replayLocalDB : LocalDB :=
  with_tasks (λ _, <["A" := mkLocalTask "tenant" "order-1" "i1" "def" "Impasto" None None
                              Queued [] None None None None synced]> ∅) emptyLocalDB.

Lemma offline_task_events_replay_on_the_route_witness :
  "A" ≠ "" ∧ "S" ≠ ""
  ∧ ∃ ev, syncEvents (startTaskOffline 5 "tenant" "user-1" "A" replayLocalDB).2
            !! "local-0" = Some ev
          ∧ (taskAction 9 9 (mapEventToPayload ev) (mkAuth "user-1" "tenant" "staff" "u@x.it")
               queuedDB).1 = Ok (RespOk None)
          ∧ statusOf (taskAction 9 9 (mapEventToPayload ev)
                        (mkAuth "user-1" "tenant" "staff" "u@x.it") queuedDB).2 "A"
            = Some InProgress.
Proof.
  assert ("A" ≠ "") as Ha by done. assert ("S" ≠ "") as Hs by done.
  split; [exact Ha|]. split; [exact Hs|].
  destruct (offline_task_events_replay_on_the_route 5 "tenant" "user-1" "A" "S"
              replayLocalDB 9 9 (mkAuth "user-1" "tenant" "staff" "u@x.it") queuedDB
              Ha Hs) as ((ev & Hev & _ & _ & Hrun) & _).
  exists ev. split; [exact Hev|]. rewrite Hrun. vm_compute. done.
Defined.

End TasksRouteProps.

(** ** Inventory *)
Module InventoryProps.
Import Inventory.

(** The stock of an item; [0] when there is no such item. *)
Definition stockOf (db : InventoryDB) (id : string) : Q :=
  default 0%Q (inv_currentStock <$> inventoryItem db !! id).

(** The sum of the movements recorded for an item. *)
Definition movedOf (id : string) (l : list InventoryMovement) : Q :=
  fold_right (λ m acc, if String.eqb (mov_inventoryItemId m) id
                       then (mov_quantity m + acc)%Q else acc) 0%Q l.

(** The part of the stock that no movement accounts for. *)
Definition unaccounted (db : InventoryDB) (id : string) : Q :=
  (stockOf db id - movedOf id (inventoryMovement db))%Q.

Lemma movedOf_app id l l' : (movedOf id (l ++ l') == movedOf id l + movedOf id l')%Q.
Proof.
  induction l as [|m l IH]; simpl; [lra|].
  destruct (String.eqb (mov_inventoryItemId m) id); lra.
Qed.

(** The store [db'] is [db] after stock changes that were all recorded. *)
Record recorded (db db' : InventoryDB) : Prop := mkRecorded {
  rec_balance : ∀ id, (unaccounted db' id == unaccounted db id)%Q;
  rec_log : ∃ new, inventoryMovement db' = inventoryMovement db ++ new;
  rec_items : ∀ id, is_Some (inventoryItem db' !! id) <-> is_Some (inventoryItem db !! id);
}.

Lemma recorded_refl db : recorded db db.
Proof. split; [intros; lra | by exists []; rewrite app_nil_r | done]. Qed.

Lemma recorded_trans db1 db2 db3 : recorded db1 db2 -> recorded db2 db3 -> recorded db1 db3.
Proof.
  intros [B1 [n1 L1] I1] [B2 [n2 L2] I2]. split.
  - intros id. rewrite B2. apply B1.
  - exists (n1 ++ n2). by rewrite L2, L1, app_assoc.
  - intros id. by rewrite I2.
Qed.

Lemma foldM_recorded {A} (f : unit -> A -> I unit) (l : list A) :
  (∀ x db, recorded db (f tt x db).2) ->
  ∀ db, recorded db (foldM f tt l db).2.
Proof.
  intros Hf. induction l as [|x l IH]; intros db; simpl; [apply recorded_refl|].
  unfold mbind, ST_bind. pose proof (Hf x db) as Hx.
  destruct (f tt x db) as [[[]|e] db1]; simpl in *; [|done].
  eapply recorded_trans; [exact Hx | apply IH].
Qed.

Lemma recorded_step id quantity (m : InventoryMovement) db it :
  inventoryItem db !! id = Some it ->
  mov_inventoryItemId m = id -> mov_quantity m = quantity ->
  recorded db (with_inventoryMovement (λ l, l ++ [m])
                 (with_inventoryItem (alter (addStock quantity) id) db)).
Proof.
  intros Hit Hid Hq. split; simpl.
  - intros k. unfold unaccounted, stockOf. simpl. rewrite movedOf_app. simpl.
    rewrite Hid, Hq.
    destruct (String.eqb_spec id k) as [<- | Hne].
    + rewrite lookup_alter_eq, Hit. simpl. lra.
    + rewrite lookup_alter_ne by done. lra.
  - by eexists.
  - intros k. destruct (decide (id = k)) as [<- | Hne].
    + rewrite lookup_alter_eq, Hit. simpl. by split; eexists.
    + by rewrite lookup_alter_ne.
Qed.

Lemma with_alerts_recorded f db : recorded db (with_alerts f db).
Proof.
  split; [intros; unfold unaccounted, stockOf; simpl; lra
         | by exists []; simpl; rewrite app_nil_r | done].
Qed.

(** The movement and the alert written by [deductIngredient]. *)
Definition deductionOf (item : OrderLine) (recipe : RecipeIngredient) : Q :=
  (rec_quantity recipe * inject_Z (line_quantity item))%Q.

Definition movementOf (now : Z) (tenantId orderId : string) (item : OrderLine)
    (name : string) (recipe : RecipeIngredient) : InventoryMovement :=
  mkInventoryMovement tenantId (rec_inventoryItemId recipe)
    (- deductionOf item recipe)%Q OrderDeduction (Some orderId)
    (Some (deductionNotes orderId name (line_quantity item))) None now.

Definition alertOf (tenantId id : string) (it : InventoryItem) : list Alert :=
  if Qle_bool (inv_currentStock it) (inv_minStock it)
  then [mkAlert tenantId id (inv_name it) (inv_currentStock it) (inv_minStock it)
          (inv_unit it)]
  else [].

Definition deducted (now : Z) (tenantId orderId : string) (item : OrderLine)
    (name : string) (recipe : RecipeIngredient) (it : InventoryItem) (db : InventoryDB)
    : InventoryDB :=
  with_alerts (λ l, l ++ alertOf tenantId (rec_inventoryItemId recipe)
                           (addStock (- deductionOf item recipe) it))
    (with_inventoryMovement (λ l, l ++ [movementOf now tenantId orderId item name recipe])
       (with_inventoryItem (alter (addStock (- deductionOf item recipe))
                                  (rec_inventoryItemId recipe)) db)).

Lemma with_alerts_nil db : with_alerts (λ l, l ++ []) db = db.
Proof. destruct db. unfold with_alerts. simpl. by rewrite app_nil_r. Qed.

Lemma deductIngredient_spec now tenantId orderId item name recipe db :
  deductIngredient now tenantId orderId item name recipe db
  = match inventoryItem db !! rec_inventoryItemId recipe with
    | None => (Throw RecordNotFound, db)
    | Some it => (Ok tt, deducted now tenantId orderId item name recipe it db)
    end.
Proof.
  unfold deductIngredient, incrementStock, createMovement, deducted, alertOf.
  unfold mbind, mret, ST_bind, ST_ret, gets, modify, throw. simpl.
  destruct (inventoryItem db !! rec_inventoryItemId recipe) as [it|] eqn:Hit; [|done].
  simpl. rewrite lookup_alter_eq, Hit. simpl.
  fold (deductionOf item recipe).
  destruct (Qle_bool _ _); [done|]. by rewrite with_alerts_nil.
Qed.

Lemma deductIngredient_recorded now tenantId orderId item name recipe db :
  recorded db (deductIngredient now tenantId orderId item name recipe db).2.
Proof.
  rewrite deductIngredient_spec.
  destruct (inventoryItem db !! rec_inventoryItemId recipe) as [it|] eqn:Hit;
    [|apply recorded_refl].
  simpl. unfold deducted.
  eapply recorded_trans; [|apply with_alerts_recorded].
  by eapply recorded_step.
Qed.

Lemma deductStockForOrder_recorded now tenantId orderId db :
  recorded db (deductStockForOrder now tenantId orderId db).2.
Proof.
  unfold deductStockForOrder. unfold mbind, ST_bind, gets.
  apply foldM_recorded. intros [[item name] recipes] db1. simpl.
  destruct name as [name|]; [|apply recorded_refl].
  apply foldM_recorded. intros recipe db2. apply deductIngredient_recorded.
Qed.

(** Every change of a stock is recorded: after [adjustStock] or
    [deductStockForOrder], whether the call returns or throws half way, the
    stock of every item has changed by exactly the sum of the movements that
    the call has appended to the log; no movement is removed or rewritten and
    no item is created or deleted.  [adjustStock] throws for an item that
    does not exist and leaves the store as it is; otherwise it adds [quantity]
    to the stock of that item. *)
Theorem stock_changes_are_recorded
    now tenantId orderId inventoryItemId quantity type notes userId db :
  recorded db (adjustStock now tenantId inventoryItemId quantity type notes userId db).2
  ∧ recorded db (deductStockForOrder now tenantId orderId db).2
  ∧ match inventoryItem db !! inventoryItemId with
    | None =>
        adjustStock now tenantId inventoryItemId quantity type notes userId db
        = (Throw RecordNotFound, db)
    | Some it =>
        ∃ db', adjustStock now tenantId inventoryItemId quantity type notes userId db
               = (Ok tt, db')
               ∧ inventoryItem db' !! inventoryItemId = Some (addStock quantity it)
               ∧ (∀ id, id ≠ inventoryItemId ->
                        inventoryItem db' !! id = inventoryItem db !! id)
               ∧ alerts db' = alerts db
    end.
Proof.
  assert (adjustStock now tenantId inventoryItemId quantity type notes userId db
          = match inventoryItem db !! inventoryItemId with
            | None => (Throw RecordNotFound, db)
            | Some it =>
                (Ok tt, with_inventoryMovement (λ l, l ++
                          [mkInventoryMovement tenantId inventoryItemId quantity type None
                             notes (Some userId) now])
                          (with_inventoryItem (alter (addStock quantity) inventoryItemId)
                             db))
            end) as Hadj.
  { unfold adjustStock, incrementStock, createMovement.
    unfold mbind, mret, ST_bind, ST_ret, gets, modify, throw. simpl.
    by destruct (inventoryItem db !! inventoryItemId). }
  split; [|split; [apply deductStockForOrder_recorded|]].
  - rewrite Hadj. destruct (inventoryItem db !! inventoryItemId) as [it|] eqn:Hit;
      [|apply recorded_refl].
    by eapply recorded_step.
  - rewrite Hadj. destruct (inventoryItem db !! inventoryItemId) as [it|] eqn:Hit;
      [|done].
    eexists. split; [done|]. simpl. split; [by rewrite lookup_alter_eq, Hit|].
    split; [|done]. intros id Hne. by apply lookup_alter_ne.
Qed.

(** *** What an order deducts *)

(** The order items of an order. *)
Definition linesOf (tenantId orderId : string) (db : InventoryDB) : list OrderLine :=
  List.filter (λ item, String.eqb (line_orderId item) orderId
                       && String.eqb (line_tenantId item) tenantId)
              (orderLines db).

(** The ingredient uses of an order: one for each order item and each
    ingredient of the recipe of its menu item. *)
Definition usesOf (tenantId orderId : string) (db : InventoryDB)
    : list (OrderLine * RecipeIngredient) :=
  flat_map (λ item, map (pair item) (recipeOf db (line_menuItemId item)))
           (linesOf tenantId orderId db).

(** The quantity of an item that a list of uses requires: recipe quantity
    times ordered quantity, summed. *)
Definition required (id : string) (uses : list (OrderLine * RecipeIngredient)) : Q :=
  fold_right (λ u acc, if String.eqb (rec_inventoryItemId u.2) id
                       then (deductionOf u.1 u.2 + acc)%Q else acc) 0%Q uses.

Definition usedIn (id : string) (uses : list (OrderLine * RecipeIngredient)) : Prop :=
  ∃ u, u ∈ uses ∧ rec_inventoryItemId u.2 = id.

(** What a run of ingredient deductions has done. *)
Record deduction (uses : list (OrderLine * RecipeIngredient)) (db db' : InventoryDB)
    : Prop := mkDeduction {
  ded_stock : ∀ id, (stockOf db' id == stockOf db id - required id uses)%Q;
  ded_unused : ∀ id, ¬ usedIn id uses -> inventoryItem db' !! id = inventoryItem db !! id;
  ded_alerts : ∃ new,
    alerts db' = alerts db ++ new
    ∧ (∀ a, a ∈ new -> (alert_currentStock a <= alert_minStock a)%Q
                       ∧ usedIn (alert_itemId a) uses)
    ∧ (∀ id it, usedIn id uses -> inventoryItem db' !! id = Some it ->
                (inv_currentStock it <= inv_minStock it)%Q ->
                ∃ a, a ∈ new ∧ alert_itemId a = id
                     ∧ alert_currentStock a = inv_currentStock it
                     ∧ alert_minStock a = inv_minStock it);
}.

Lemma usedIn_dec id uses : usedIn id uses ∨ ¬ usedIn id uses.
Proof.
  induction uses as [|u uses IH].
  - right. intros (u & Hin & _). by apply elem_of_nil in Hin.
  - destruct (String.eqb_spec (rec_inventoryItemId u.2) id) as [He | Hne].
    + left. exists u. split; [left | done].
    + destruct IH as [(u' & Hin & He) | Hno].
      * left. exists u'. split; [by right | done].
      * right. intros (u' & Hin & He). apply elem_of_cons in Hin as [-> | Hin]; [done|].
        apply Hno. by exists u'.
Qed.

Lemma alertOf_spec tenantId id it a :
  a ∈ alertOf tenantId id it ->
  (alert_currentStock a <= alert_minStock a)%Q ∧ alert_itemId a = id.
Proof.
  unfold alertOf. destruct (Qle_bool _ _) eqn:Hle; [|by intros ?%elem_of_nil].
  intros ->%list_elem_of_singleton. simpl. split; [by apply Qle_bool_iff | done].
Qed.

(** The inner and outer loops of [deductStockForOrder], over uses whose
    ingredients all exist. *)
Lemma deductions_run now tenantId orderId (name : OrderLine -> string)
    (uses : list (OrderLine * RecipeIngredient)) :
  ∀ db,
    (∀ u, u ∈ uses -> is_Some (inventoryItem db !! rec_inventoryItemId u.2)) ->
    ∃ db', foldM (λ (_ : unit) (u : OrderLine * RecipeIngredient),
                    deductIngredient now tenantId orderId u.1 (name u.1) u.2) tt uses db
           = (Ok tt, db')
           ∧ deduction uses db db'
           ∧ recipeIngredient db' = recipeIngredient db
           ∧ orderLines db' = orderLines db
           ∧ menuItemName db' = menuItemName db.
Proof.
  induction uses as [|u uses IH]; intros db Hex.
  - exists db. split; [done|]. split; [|done]. split.
    + intros id. simpl. lra.
    + done.
    + exists []. split; [by rewrite app_nil_r|]. split.
      * by intros a ?%elem_of_nil.
      * intros id it (u & Hin & _). by apply elem_of_nil in Hin.
  - cbn [foldM]. unfold mbind, ST_bind. rewrite deductIngredient_spec.
    destruct (Hex u) as [it Hit]; [left|]. rewrite Hit.
    set (db1 := deducted now tenantId orderId u.1 (name u.1) u.2 it db).
    set (id0 := rec_inventoryItemId u.2) in *.
    set (it1 := addStock (- deductionOf u.1 u.2) it).
    assert (inventoryItem db1 = alter (addStock (- deductionOf u.1 u.2)) id0
                                      (inventoryItem db)) as Hitems by done.
    assert (alerts db1 = alerts db ++ alertOf tenantId id0 it1) as Halerts by done.
    destruct (IH db1) as (db' & Hrun & [Hstock Hunused (new & Hnew & Hvalid & Hlow)]
                          & Hr & Ho & Hm).
    { intros u' Hin. rewrite Hitems.
      destruct (decide (id0 = rec_inventoryItemId u'.2)) as [<- | Hne].
      - rewrite lookup_alter_eq, Hit. by eexists.
      - rewrite lookup_alter_ne by done. apply Hex. by right. }
    exists db'. split; [exact Hrun|]. split; [|by rewrite Hr, Ho, Hm]. split.
    + intros id. rewrite Hstock. unfold stockOf. rewrite Hitems. simpl.
      fold id0. destruct (String.eqb_spec id0 id) as [<- | Hne].
      * rewrite lookup_alter_eq, Hit. simpl. lra.
      * rewrite lookup_alter_ne by done. lra.
    + intros id Hno. rewrite Hunused, Hitems.
      * apply lookup_alter_ne. intros <-. apply Hno. exists u. split; [left | done].
      * intros (u' & Hin & He). apply Hno. exists u'. split; [by right | done].
    + exists (alertOf tenantId id0 it1 ++ new). split; [|split].
      * by rewrite Hnew, Halerts, app_assoc.
      * intros a Hin. apply elem_of_app in Hin as [Hin | Hin].
        -- apply alertOf_spec in Hin as [Hle Hid]. split; [done|].
           exists u. split; [left | done].
        -- destruct (Hvalid a Hin) as [Hle (u' & Hin' & He)]. split; [done|].
           exists u'. split; [by right | done].
      * intros id it' Hused Hrow Hle.
        destruct (usedIn_dec id uses) as [Hlater | Hnot].
        -- destruct (Hlow id it' Hlater Hrow Hle) as (a & Hin & Ha).
           exists a. split; [|done]. apply elem_of_app. by right.
        -- assert (id = id0) as ->.
           { destruct Hused as (u' & Hin & He).
             apply elem_of_cons in Hin as [-> | Hin]; [done|].
             destruct Hnot. by exists u'. }
           rewrite (Hunused id0 Hnot), Hitems, lookup_alter_eq, Hit in Hrow.
           injection Hrow as <-. fold it1 in Hle |- *.
           eexists. split.
           ++ apply elem_of_app. left. unfold alertOf.
              apply Qle_bool_iff in Hle. rewrite Hle. left.
           ++ done.
Qed.

Lemma foldM_app {S A} (f : unit -> A -> ST S unit) (l1 l2 : list A) db :
  foldM f tt (l1 ++ l2) db
  = match foldM f tt l1 db with
    | (Ok _, db1) => foldM f tt l2 db1
    | (Throw e, db1) => (Throw e, db1)
    end.
Proof.
  revert db. induction l1 as [|x l1 IH]; intros db; simpl; [done|].
  unfold mbind, ST_bind. destruct (f tt x db) as [[[]|e] db1]; [apply IH | done].
Qed.

Lemma foldM_map {S A B} (f : unit -> B -> ST S unit) (g : A -> B) (l : list A) db :
  foldM f tt (map g l) db = foldM (λ u x, f u (g x)) tt l db.
Proof.
  revert db. induction l as [|x l IH]; intros db; simpl; [done|].
  unfold mbind, ST_bind. destruct (f tt (g x) db) as [[[]|e] db1]; [apply IH | done].
Qed.

(** The two nested loops are one loop over the uses of the order. *)
Lemma deductStockForOrder_flat now tenantId orderId (name : OrderLine -> string)
    (lines : list OrderLine) (names : gmap string string)
    (recipes : string -> list RecipeIngredient) db :
  (∀ item, item ∈ lines -> names !! line_menuItemId item = Some (name item)) ->
  foldM (λ (_ : unit) (row : OrderLine * option string * list RecipeIngredient),
           match row.1.2 with
           | None => throw JsTypeError
           | Some name =>
               foldM (λ (_ : unit) recipe,
                        deductIngredient now tenantId orderId row.1.1 name recipe)
                     tt row.2
           end)
        tt (map (λ item, (item, names !! line_menuItemId item,
                          recipes (line_menuItemId item))) lines) db
  = foldM (λ (_ : unit) (u : OrderLine * RecipeIngredient),
             deductIngredient now tenantId orderId u.1 (name u.1) u.2) tt
          (flat_map (λ item, map (pair item) (recipes (line_menuItemId item))) lines) db.
Proof.
  revert db. induction lines as [|item lines IH]; intros db Hnames; [done|].
  cbn [map flat_map foldM]. rewrite foldM_app, foldM_map.
  unfold mbind, ST_bind. cbn [fst snd].
  rewrite (Hnames item) by left. 
  destruct (foldM _ tt (recipes (line_menuItemId item)) db) as [[[]|e] db1]; [|done].
  apply IH. intros item' Hin. apply Hnames. by right.
Qed.

(** When the menu item of every order item exists and every ingredient of its
    recipe is an inventory item, [deductStockForOrder] returns, and the stock
    of every item has gone down by what the order requires of it: for each
    order item and each ingredient of its recipe, the recipe quantity times
    the ordered quantity.  An alert is emitted only for an ingredient of the
    order whose stock was then at or below its minimum, and every ingredient
    of the order that ends at or below its minimum has an alert that reports
    its final stock.  Items that the order does not use are not touched. *)
Theorem deductStockForOrder_deducts_the_recipes now tenantId orderId db :
  (∀ item, item ∈ linesOf tenantId orderId db ->
           is_Some (menuItemName db !! line_menuItemId item)) ->
  (∀ u, u ∈ usesOf tenantId orderId db ->
        is_Some (inventoryItem db !! rec_inventoryItemId u.2)) ->
  ∃ db', deductStockForOrder now tenantId orderId db = (Ok tt, db')
         ∧ deduction (usesOf tenantId orderId db) db db'.
Proof.
  intros Hmenu Hitems.
  set (name := λ item : OrderLine, default "" (menuItemName db !! line_menuItemId item)).
  destruct (deductions_run now tenantId orderId name (usesOf tenantId orderId db) db Hitems)
    as (db' & Hrun & Hded & _).
  exists db'. split; [|done]. rewrite <- Hrun.
  unfold deductStockForOrder. unfold mbind, ST_bind, gets.
  apply deductStockForOrder_flat. intros item Hin. unfold name.
  by destruct (Hmenu item Hin) as [n ->].
Qed.

(** Two margheritas, each with 0.25 kg of flour and 0.125 kg of mozzarella. *)
Definition pizzeriaDB : InventoryDB :=
  mkInventoryDB
    (<["flour" := mkInventoryItem "tenant" "Farina" "kg" 10 2 None true]>
       (<["mozzarella" := mkInventoryItem "tenant" "Mozzarella" "kg" (1 # 2) (1 # 2) None
                            true]> ∅))
    []
    [mkRecipeIngredient "margherita" "flour" (1 # 4);
     mkRecipeIngredient "margherita" "mozzarella" (1 # 8)]
    [mkOrderLine "order-1" "tenant" "margherita" 2]
    (<["margherita" := "Margherita"]> ∅)
    [].

Lemma deductStockForOrder_deducts_the_recipes_witness :
  let db' := (deductStockForOrder 0 "tenant" "order-1" pizzeriaDB).2 in
  (stockOf db' "flour" == 10 - (1 # 4) * 2)%Q
  ∧ (stockOf db' "mozzarella" == (1 # 2) - (1 # 8) * 2)%Q
  ∧ alert_itemId <$> alerts db' = ["mozzarella"].
Proof.
  destruct (deductStockForOrder_deducts_the_recipes 0 "tenant" "order-1" pizzeriaDB)
    as (db' & Hrun & [Hstock _ _]).
  - intros item Hin. vm_compute in Hin.
    apply list_elem_of_singleton in Hin as ->. by eexists.
  - intros u Hin. vm_compute in Hin.
    repeat (apply elem_of_cons in Hin as [-> | Hin]); [by eexists.. |].
    by apply elem_of_nil in Hin.
  - intros db0. unfold db0. rewrite Hrun. cbn [snd].
    split; [|split].
    + rewrite Hstock. vm_compute. done.
    + rewrite Hstock. vm_compute. done.
    + change db' with (Ok tt, db').2. rewrite <- Hrun. vm_compute. reflexivity.
Defined.

(** *** Reorder suggestions *)















End InventoryProps.

(** ** Local workflow instantiation *)
Module LocalWorkflowProps.
Import Engine Offline OfflineProps LocalWorkflow QueueProps.

(** The tables that local instantiation does not write. *)
Definition sameRest (db db' : LocalDB) : Prop :=
  orders db' = orders db ∧ orderItems db' = orderItems db
  ∧ deliveries db' = deliveries db ∧ syncEvents db' = syncEvents db
  ∧ sequenceCounter db' = sequenceCounter db.

Lemma sameRest_refl db : sameRest db db.
Proof. done. Qed.



Section Local.
Variable workflowTemplates : gmap string WorkflowDefinition.
Variable stations : gmap string Station.
Variables tenantId orderId : string.
























End Local.





End LocalWorkflowProps.
